(** * utils.py: training / evaluation harness and batch-norm recalibration

    A shallow embedding of [utils.py].  Python floats are modelled as exact
    rationals ([Q], compared with [==]); Python integers as [Z]; tensors as
    lists; the objects the functions mutate in place (the model, the
    optimizer) live in an explicit [world] that is threaded through a small
    state-and-exception monad. *)

From Stdlib Require Import String ZArith QArith Qabs List Bool Lia Lqa.
Import ListNotations.

Open Scope Q_scope.

(** ** Python exceptions and results *)

Inductive exn : Type :=
| ZeroDivisionError
| StopIteration
| NameError (name : string)
| KeyError
| ValueError
| RuntimeError.

Inductive result (A : Type) : Type :=
| Ok (a : A)
| Raise (e : exn).

Arguments Ok {A} a.
Arguments Raise {A} e.

(** [a / b] on Python numbers. *)
Definition py_div (a b : Q) : result Q :=
  if Qeq_bool b 0 then Raise ZeroDivisionError else Ok (a / b).

(** [a < b] as a boolean. *)
Definition Qltb (a b : Q) : bool :=
  match a ?= b with Lt => true | _ => false end.

(** ** Learning-rate schedule *)

(** [cyclic_learning_rate(epoch, cycle, alpha_1, alpha_2)] returns the
    closure [schedule]; the closure applied to [i] is
    [cyclic_learning_rate epoch cycle alpha_1 alpha_2 i].  [epoch % cycle]
    is Python's floored modulo, which is [Z.modulo]; it raises when
    [cycle] is zero. *)
Definition cyclic_learning_rate (epoch cycle : Z) (alpha_1 alpha_2 : Q)
                                (i : Q) : result Q :=
  if (cycle =? 0)%Z then Raise ZeroDivisionError
  else
    let t := (inject_Z (epoch mod cycle) + i) / inject_Z cycle in
    if Qltb t (1#2)
    then Ok (alpha_1 * (1 - 2 * t) + alpha_2 * 2 * t)
    else Ok (alpha_1 * (2 * t - 1) + alpha_2 * (2 - 2 * t)).

(** ** Regularizer *)

(** A parameter tensor, flattened. *)
Definition tensor := list Q.

Section Regularizer.

(** [torch.sqrt] on a scalar is a primitive of the tensor library. *)
Variable sqrt : Q -> Q.

(** [torch.sum(p ** 2)]. *)
Definition sum_sq (p : tensor) : Q :=
  fold_left (fun acc x => acc + x * x) p 0.

(** [l2_regularizer(weight_decay)(model)], where [params] is what
    [model.parameters()] yields. *)
Definition l2_regularizer (weight_decay : Q) (params : list tensor) : Q :=
  let l2 := fold_left (fun l2 p => l2 + sqrt (sum_sq p)) params 0 in
  (1#2) * weight_decay * l2.

(** The specification's formula, written as the mathematical sums. *)
Fixpoint sigma {A : Type} (f : A -> Q) (l : list A) : Q :=
  match l with
  | [] => 0
  | x :: l' => f x + sigma f l'
  end.

Definition norm2 (p : tensor) : Q := sqrt (sigma (fun x => x * x) p).

Definition sum_of_norms (params : list tensor) : Q := sigma norm2 params.

Definition sum_of_squared_norms (params : list tensor) : Q :=
  sigma (fun p => sigma (fun x => x * x) p) params.

End Regularizer.

(** A square root on the rationals, exact on the fractions whose reduced
    numerator and denominator are perfect squares (rounded down elsewhere),
    to run the regularizer. *)
Definition qsqrt (q : Q) : Q :=
  let r := Qred q in Z.sqrt (Qnum r) # Pos.sqrt (Qden r).

(** ** Tensors, modules, models, optimizers *)

Inductive device : Type := cpu | cuda.

(** A tensor whose first dimension indexes the samples of a batch, with the
    device it lives on. *)
Record batch (A : Type) : Type := { items : list A; on : device }.

Arguments items {A} b.
Arguments on {A} b.

(** [x.to(device)] builds a new tensor; [x] itself is left where it is. *)
Definition to {A : Type} (d : device) (x : batch A) : batch A :=
  {| items := items x; on := d |}.

(** [x.size(0)] and [len(x)]. *)
Definition size0 {A : Type} (x : batch A) : Z := Z.of_nat (length (items x)).

Record parameter : Type := {
  p_data : tensor;
  p_grad : option tensor;
  p_device : device }.

(** The classes [isbatchnorm] tells apart: the two batch-normalization
    hierarchies, [torch.nn.modules.batchnorm._BatchNorm] and
    [curves._BatchNorm], and everything else. *)
Inductive module_class : Type :=
| TorchBatchNorm
| CurvesBatchNorm
| OtherModule.

Record stats : Type := {
  running_mean : tensor;
  running_var : tensor;
  num_batches_tracked : Z }.

Record module : Type := {
  class_of : module_class;
  mod_training : bool;
  momentum : option Q;
  running : stats }.

(** A model: its parameters, as [model.parameters()] yields them, and its
    submodules (the root included) in the order [model.apply] visits them;
    the position of a submodule in that list is its identity. *)
Record model : Type := {
  parameters : list parameter;
  modules : list module }.

Record param_group : Type := {
  lr : Q;
  group_params : list nat }.

(** An optimizer: parameter groups, each with its rate and the positions of
    the model parameters it updates, and per-parameter buffers. *)
Record optimizer : Type := {
  param_groups : list param_group;
  opt_state : list tensor }.

(** A loader: the batches it yields (so [len(loader)] is their number) and
    [len(loader.dataset)]. *)
Record loader : Type := {
  batches : list (batch tensor * batch Z);
  dataset_len : Z }.

(** What the model and the criterion were called with; a model call records
    the state of the model when the forward pass started. *)
Inductive call : Type :=
| ModelCall (m : model) (x : batch tensor)
| CriterionCall (target : batch Z).

(** ** The world and its monad *)

Record world : Type := {
  the_model : model;
  the_optimizer : optimizer;
  calls : list call }.

Definition M (A : Type) : Type := world -> world * result A.

Definition ret {A : Type} (a : A) : M A := fun w => (w, Ok a).

Definition raise {A : Type} (e : exn) : M A := fun w => (w, Raise e).

Definition bind {A B : Type} (m : M A) (f : A -> M B) : M B :=
  fun w =>
    match m w with
    | (w', Ok a) => f a w'
    | (w', Raise e) => (w', Raise e)
    end.

Definition lift {A : Type} (r : result A) : M A := fun w => (w, r).

Declare Scope py_scope.
Delimit Scope py_scope with py.

Notation "x <- m ;; k" := (bind m (fun x => k))
  (at level 61, m at next level, right associativity) : py_scope.
Notation "' pat <- m ;; k" := (bind m (fun x => match x with pat => k end))
  (at level 61, pat pattern, m at next level, right associativity) : py_scope.
Notation "m ;; k" := (bind m (fun _ => k))
  (at level 61, right associativity) : py_scope.

Open Scope py_scope.

Definition get_model : M model := fun w => (w, Ok (the_model w)).

Definition put_model (m : model) : M unit := fun w =>
  ({| the_model := m; the_optimizer := the_optimizer w; calls := calls w |},
   Ok tt).

Definition get_optimizer : M optimizer := fun w => (w, Ok (the_optimizer w)).

Definition put_optimizer (o : optimizer) : M unit := fun w =>
  ({| the_model := the_model w; the_optimizer := o; calls := calls w |},
   Ok tt).

Definition record_call (c : call) : M unit := fun w =>
  ({| the_model := the_model w; the_optimizer := the_optimizer w;
      calls := calls w ++ [c] |}, Ok tt).

(** [for x in xs: body], the loop's local variables threaded as [s]. *)
Fixpoint for_each {A S : Type} (body : A -> S -> M S) (xs : list A) (s : S)
  : M S :=
  match xs with
  | [] => ret s
  | x :: xs' => s' <- body x s ;; for_each body xs' s'
  end.

Fixpoint mapi_from {A B : Type} (f : nat -> A -> B) (k : nat) (l : list A)
  : list B :=
  match l with
  | [] => []
  | x :: l' => f k x :: mapi_from f (S k) l'
  end.

Definition mapi {A B : Type} (f : nat -> A -> B) (l : list A) : list B :=
  mapi_from f 0%nat l.

(** [enumerate(xs)]. *)
Definition enumerate {A : Type} (xs : list A) : list (nat * A) :=
  mapi (fun i x => (i, x)) xs.

(** ** Module and model operations *)

Definition set_training (b : bool) (md : module) : module :=
  {| class_of := class_of md; mod_training := b; momentum := momentum md;
     running := running md |}.

Definition set_momentum (q : option Q) (md : module) : module :=
  {| class_of := class_of md; mod_training := mod_training md; momentum := q;
     running := running md |}.

Definition set_running (s : stats) (md : module) : module :=
  {| class_of := class_of md; mod_training := mod_training md;
     momentum := momentum md; running := s |}.

Definition set_modules (mods : list module) (m : model) : model :=
  {| parameters := parameters m; modules := mods |}.

Definition set_parameters (ps : list parameter) (m : model) : model :=
  {| parameters := ps; modules := modules m |}.

(** [model.train()] and [model.eval()]: the flag of every submodule. *)
Definition model_train : M unit :=
  m <- get_model ;; put_model (set_modules (map (set_training true) (modules m)) m).

Definition model_eval : M unit :=
  m <- get_model ;; put_model (set_modules (map (set_training false) (modules m)) m).

(** [next(model.parameters()).device]. *)
Definition first_parameter_device : M device :=
  m <- get_model ;;
  match parameters m with
  | [] => raise StopIteration
  | p :: _ => ret (p_device p)
  end.

Definition issubclass_torch_bn (c : module_class) : bool :=
  match c with TorchBatchNorm => true | _ => false end.

Definition issubclass_curves_bn (c : module_class) : bool :=
  match c with CurvesBatchNorm => true | _ => false end.

Definition isbatchnorm (md : module) : bool :=
  issubclass_torch_bn (class_of md) || issubclass_curves_bn (class_of md).

(** ** Small containers *)

(** The momenta dictionary of [update_bn]: keyed by submodule identity, in
    insertion order. *)
Definition dict : Type := list (nat * option Q).

(** [d[k] = v]. *)
Fixpoint dict_set (d : dict) (k : nat) (v : option Q) : dict :=
  match d with
  | [] => [(k, v)]
  | (k', v') :: d' =>
      if (k' =? k)%nat then (k, v) :: d' else (k', v') :: dict_set d' k v
  end.

(** [d[k]], [None] standing for the [KeyError]. *)
Fixpoint dict_get (d : dict) (k : nat) : option (option Q) :=
  match d with
  | [] => None
  | (k', v') :: d' => if (k' =? k)%nat then Some v' else dict_get d' k
  end.

Definition keys (d : dict) : list nat := map fst d.

Fixpoint update_nth {A : Type} (k : nat) (f : A -> A) (l : list A) : list A :=
  match l, k with
  | [], _ => []
  | x :: l', O => f x :: l'
  | x :: l', S k' => x :: update_nth k' f l'
  end.

(** ** Predictions and their comparison with the targets *)

Fixpoint argmax_from (best : Q) (besti k : nat) (row : tensor) : nat :=
  match row with
  | [] => besti
  | v :: row' =>
      if Qltb best v then argmax_from v k (S k) row'
      else argmax_from best besti (S k) row'
  end.

(** [torch.argmax] along a row: the position of the first maximal entry. *)
Definition argmax (row : tensor) : result Z :=
  match row with
  | [] => Raise RuntimeError
  | v :: row' => Ok (Z.of_nat (argmax_from v 0 1 row'))
  end.

(** [output.data.argmax(1, keepdim=True)]. *)
Fixpoint argmax_rows (output : list tensor) : result (list Z) :=
  match output with
  | [] => Ok []
  | row :: output' =>
      match argmax row, argmax_rows output' with
      | Ok c, Ok cs => Ok (c :: cs)
      | Raise e, _ => Raise e
      | _, Raise e => Raise e
      end
  end.

(** [pred.eq(target.data.view_as(pred)).sum().item()]: [view_as] needs as
    many targets as predictions. *)
Definition eq_sum (pred : list Z) (target : batch Z) : result Q :=
  if (length pred =? length (items target))%nat
  then
    let eq := map (fun '(c, y) => (c =? y)%Z) (combine pred (items target)) in
    Ok (inject_Z (fold_left (fun n (b : bool) => if b then (n + 1)%Z else n) eq 0%Z))
  else Raise RuntimeError.

(** The class [argmax] finds for a row of scores, and the number of
    samples of a batch for which the comparison of the loop gives one: the
    two accumulate what [argmax_rows] and [eq_sum] compute. *)
Definition predicted_class (row : tensor) : Z :=
  match argmax row with Ok c => c | Raise _ => 0%Z end.

Fixpoint correct_count (output : list tensor) (labels : list Z) : Z :=
  match output, labels with
  | row :: output', y :: labels' =>
      ((if (predicted_class row =? y)%Z then 1 else 0)
       + correct_count output' labels')%Z
  | _, _ => 0%Z
  end.

(** The arg-max class of a row of scores as the specification means it,
    said without any search: [c] is a position of the row, no score of the
    row is larger than the score at [c], and every score before [c] is
    smaller (of several largest scores the first one is the arg-max). *)
Definition largest_at (row : tensor) (c : Z) : Prop :=
  (0 <= c < Z.of_nat (length row))%Z /\
  (forall j, (j < length row)%nat ->
             nth j row 0 <= nth (Z.to_nat c) row 0) /\
  (forall j, (j < Z.to_nat c)%nat ->
             nth j row 0 < nth (Z.to_nat c) row 0).

(** The same as a test: the score at [c] is compared with every score of
    the row, and strictly with the scores before it. *)
Definition is_largest_at (row : tensor) (c : Z) : bool :=
  (0 <=? c)%Z && (c <? Z.of_nat (length row))%Z &&
  forallb (fun j => Qle_bool (nth j row 0) (nth (Z.to_nat c) row 0))
          (seq 0 (length row)) &&
  forallb (fun j => Qltb (nth j row 0) (nth (Z.to_nat c) row 0))
          (seq 0 (Z.to_nat c)).

(** The number of samples of a batch whose target is the arg-max class of
    their row of scores. *)
Fixpoint hits (output : list tensor) (labels : list Z) : Z :=
  match output, labels with
  | row :: output', y :: labels' =>
      ((if is_largest_at row y then 1 else 0) + hits output' labels')%Z
  | _, _ => 0%Z
  end.

(** ** Visiting the submodules *)

(** [model.apply(fn)]: [fn] sees every submodule in turn, may change it and
    the object it has captured, or raise. *)
Fixpoint apply_from {A : Type} (fn : nat -> module -> A -> module * result A)
                    (k : nat) (mods : list module) (a : A)
  : list module * result A :=
  match mods with
  | [] => ([], Ok a)
  | md :: mods' =>
      match fn k md a with
      | (md', Ok a') =>
          let (mods'', r) := apply_from fn (S k) mods' a' in (md' :: mods'', r)
      | (md', Raise e) => (md' :: mods', Raise e)
      end
  end.

Definition with_modules (mods : list module) (w : world) : world :=
  {| the_model := set_modules mods (the_model w);
     the_optimizer := the_optimizer w; calls := calls w |}.

Definition apply {A : Type} (fn : nat -> module -> A -> module * result A)
                 (a : A) : M A := fun w =>
  let (mods, r) := apply_from fn 0 (modules (the_model w)) a in
  (with_modules mods w, r).

(** [_check_bn(module, flag)], the one-element list [flag] as a cell. *)
Definition _check_bn (md : module) (flag : bool) : bool :=
  if isbatchnorm md then true else flag.

Definition check_bn : M bool :=
  let flag := false in
  flag <- apply (fun _ md flag => (md, Ok (_check_bn md flag))) flag ;;
  ret flag.

(** [_get_momenta(module, momenta)], [k] the identity of [module]. *)
Definition _get_momenta (k : nat) (md : module) (momenta : dict) : dict :=
  if isbatchnorm md then dict_set momenta k (momentum md) else momenta.

(** [_set_momenta(module, momenta)]. *)
Definition _set_momenta (k : nat) (md : module) (momenta : dict)
  : result module :=
  if isbatchnorm md then
    match dict_get momenta k with
    | Some v => Ok (set_momentum v md)
    | None => Raise KeyError
    end
  else Ok md.

(** [lambda module: _set_momenta(module, momenta)], as a visitor: a
    submodule is left as it was when the lookup raises. *)
Definition restore_visitor (k : nat) (md : module) (momenta : dict)
  : module * result dict :=
  match _set_momenta k md momenta with
  | Ok md' => (md', Ok momenta)
  | Raise e => (md, Raise e)
  end.

(** [module.momentum = q] for the submodule of identity [k]. *)
Definition assign_momentum (k : nat) (q : option Q) : M unit :=
  m <- get_model ;;
  put_model (set_modules (update_nth k (set_momentum q) (modules m)) m).

(** ** Optimizer *)

Definition set_lr (v : Q) (g : param_group) : param_group :=
  {| lr := v; group_params := group_params g |}.

Definition adjust_learning_rate (v : Q) : M Q :=
  o <- get_optimizer ;;
  put_optimizer {| param_groups := map (set_lr v) (param_groups o);
                   opt_state := opt_state o |} ;;
  ret v.

(** Whether the optimizer holds the parameter at position [k]. *)
Definition owns (o : optimizer) (k : nat) : bool :=
  existsb (fun g => existsb (Nat.eqb k) (group_params g)) (param_groups o).

Definition set_grad (g : option tensor) (p : parameter) : parameter :=
  {| p_data := p_data p; p_grad := g; p_device := p_device p |}.

Definition set_data (d : tensor) (p : parameter) : parameter :=
  {| p_data := d; p_grad := p_grad p; p_device := p_device p |}.

(** [optimizer.zero_grad()]. *)
Definition zero_grad : M unit :=
  o <- get_optimizer ;;
  m <- get_model ;;
  put_model
    (set_parameters
       (mapi (fun k p => if owns o k then set_grad None p else p) (parameters m))
       m).

Definition tensor_add (a b : tensor) : tensor :=
  map (fun '(x, y) => x + y) (combine a b).

(** ** The loops *)

(** Keyword arguments handed on to the model ([**kwargs]). *)
Definition kwargs : Type := list (string * Q).

Section Loops.

(** The primitives the loops are built on: the forward pass (its scores,
    and the running statistics it leaves in submodule [k] when that
    batch-normalization submodule is in training mode), the reset of
    running statistics, differentiation of a scalar function of the model
    with respect to parameter [k], the optimizer's update of parameter [k]
    and of its own buffers, and [F.softmax]. *)
Variable forward : model -> kwargs -> batch tensor -> list tensor.
Variable bn_forward : model -> kwargs -> batch tensor -> nat -> stats.
Variable reset_running_stats : stats -> stats.
Variable autograd : (model -> Q) -> model -> nat -> tensor.
Variable update_rule : optimizer -> nat -> parameter -> tensor.
Variable next_state : optimizer -> list parameter -> list tensor.
Variable softmax : list tensor -> list tensor.

(** What a forward pass in training mode does to the submodules. *)
Definition track (m : model) (kw : kwargs) (x : batch tensor)
  : list module :=
  mapi (fun k md =>
          if mod_training md && isbatchnorm md
          then set_running (bn_forward m kw x k) md else md)
       (modules m).

(** [model(x, **kw)]. *)
Definition call_model (kw : kwargs) (x : batch tensor) : M (list tensor) :=
  m <- get_model ;;
  record_call (ModelCall m x) ;;
  put_model (set_modules (track m kw x) m) ;;
  ret (forward m kw x).

(** [criterion(output, target)]. *)
Definition call_criterion (criterion : list tensor -> batch Z -> Q)
                          (output : list tensor) (target : batch Z) : M Q :=
  record_call (CriterionCall target) ;;
  ret (criterion output target).

(** [loss.backward()], [loss] being the value of [f] at the model. *)
Definition backward (f : model -> Q) : M unit :=
  m <- get_model ;;
  put_model
    (set_parameters
       (mapi (fun k p =>
                set_grad
                  (Some match p_grad p with
                        | None => autograd f m k
                        | Some g => tensor_add g (autograd f m k)
                        end) p)
             (parameters m))
       m).

(** [optimizer.step()]. *)
Definition optimizer_step : M unit :=
  o <- get_optimizer ;;
  m <- get_model ;;
  put_model
    (set_parameters
       (mapi (fun k p => if owns o k then set_data (update_rule o k p) p else p)
             (parameters m))
       m) ;;
  put_optimizer {| param_groups := param_groups o;
                   opt_state := next_state o (parameters m) |}.

(** [reset_bn(module)]. *)
Definition reset_bn (md : module) : module :=
  if isbatchnorm md then set_running (reset_running_stats (running md)) md
  else md.

Definition reg_value (regularizer : option (model -> Q)) (m : model) : Q :=
  match regularizer with
  | Some reg => reg m
  | None => 0
  end.

(** The metrics dictionaries. *)
Definition metrics : Type := list (string * Q).

(** The body of the loop of [train]. *)
Definition train_body (criterion : list tensor -> batch Z -> Q)
                      (regularizer : option (model -> Q))
                      (lr_schedule : option (Q -> Q)) (num_iters : Z)
  : nat * (batch tensor * batch Z) -> Q * Q -> M (Q * Q) :=
  fun '(i, (sample_input, target)) '(loss_sum, correct) =>
    match lr_schedule with
    | Some schedule =>
        x <- lift (py_div (inject_Z (Z.of_nat i)) (inject_Z num_iters)) ;;
        adjust_learning_rate (schedule x)
    | None => ret 0
    end ;;
    device <- first_parameter_device ;;
    let _ := to device sample_input in
    let _ := to device target in
    zero_grad ;;
    output <- call_model [] sample_input ;;
    loss <- call_criterion criterion output target ;;
    loss <- match regularizer with
            | Some reg => m <- get_model ;; ret (loss + reg m)
            | None => ret loss
            end ;;
    backward (fun m => criterion (forward m [] sample_input) target
                       + reg_value regularizer m) ;;
    optimizer_step ;;
    let loss_sum := loss_sum + loss * inject_Z (size0 sample_input) in
    pred <- lift (argmax_rows output) ;;
    n <- lift (eq_sum pred target) ;;
    let correct := correct + n in
    ret (loss_sum, correct).

(** [train(train_loader, model, optimizer, criterion, regularizer,
    lr_schedule)]. *)
Definition train (train_loader : loader)
                 (criterion : list tensor -> batch Z -> Q)
                 (regularizer : option (model -> Q))
                 (lr_schedule : option (Q -> Q)) : M metrics :=
  let loss_sum := 0 in
  let correct := 0 in
  let num_iters := Z.of_nat (length (batches train_loader)) in
  model_train ;;
  '(loss_sum, correct) <-
    for_each (train_body criterion regularizer lr_schedule num_iters)
             (enumerate (batches train_loader)) (loss_sum, correct) ;;
  loss <- lift (py_div loss_sum (inject_Z (dataset_len train_loader))) ;;
  accuracy <- lift (py_div (correct * 100)
                           (inject_Z (dataset_len train_loader))) ;;
  ret [("loss"%string, loss); ("accuracy"%string, accuracy)].

(** The body of the loop of [new_train]: the moved tensors are handed to
    the model and the criterion. *)
Definition new_train_body (criterion : list tensor -> batch Z -> Q)
                          (regularizer : option (model -> Q))
                          (lr_schedule : option (Q -> Q)) (num_iters : Z)
                          (device : device)
  : nat * (batch tensor * batch Z) -> Q * Q -> M (Q * Q) :=
  fun '(i, data) '(loss_sum, correct) =>
    let '(inputs, labels) := data in
    zero_grad ;;
    match lr_schedule with
    | Some schedule =>
        x <- lift (py_div (inject_Z (Z.of_nat i)) (inject_Z num_iters)) ;;
        adjust_learning_rate (schedule x)
    | None => ret 0
    end ;;
    outputs <- call_model [] (to device inputs) ;;
    loss <- call_criterion criterion outputs (to device labels) ;;
    loss <- match regularizer with
            | Some reg => m <- get_model ;; ret (loss + reg m)
            | None => ret loss
            end ;;
    backward (fun m => criterion (forward m [] (to device inputs))
                                 (to device labels)
                       + reg_value regularizer m) ;;
    optimizer_step ;;
    let loss_sum := loss_sum + loss * inject_Z (size0 labels) in
    pred <- lift (argmax_rows outputs) ;;
    n <- lift (eq_sum pred (to device labels)) ;;
    let correct := correct + n in
    ret (loss_sum, correct).

(** [new_train]: the same pass, with the device read once, before the
    loop. *)
Definition new_train (train_loader : loader)
                     (criterion : list tensor -> batch Z -> Q)
                     (regularizer : option (model -> Q))
                     (lr_schedule : option (Q -> Q)) : M metrics :=
  let loss_sum := 0 in
  let correct := 0 in
  device <- first_parameter_device ;;
  let num_iters := Z.of_nat (length (batches train_loader)) in
  model_train ;;
  '(loss_sum, correct) <-
    for_each (new_train_body criterion regularizer lr_schedule num_iters device)
             (enumerate (batches train_loader)) (loss_sum, correct) ;;
  loss <- lift (py_div loss_sum (inject_Z (dataset_len train_loader))) ;;
  accuracy <- lift (py_div (correct * 100)
                           (inject_Z (dataset_len train_loader))) ;;
  ret [("loss"%string, loss); ("accuracy"%string, accuracy)].

(** The body of the loop of [test]. *)
Definition test_body (criterion : list tensor -> batch Z -> Q)
                     (regularizer : option (model -> Q))
                     (kw : kwargs) (device : device)
  : batch tensor * batch Z -> Q * Q * Q -> M (Q * Q * Q) :=
  fun '(sample_input, target) '(loss_sum, nll_sum, correct) =>
    let _ := to device sample_input in
    let _ := to device target in
    output <- call_model kw sample_input ;;
    nll <- call_criterion criterion output target ;;
    let loss := nll in
    loss <- match regularizer with
            | Some reg => m <- get_model ;; ret (loss + reg m)
            | None => ret loss
            end ;;
    let nll_sum := nll_sum + nll * inject_Z (size0 sample_input) in
    let loss_sum := loss_sum + loss * inject_Z (size0 sample_input) in
    pred <- lift (argmax_rows output) ;;
    n <- lift (eq_sum pred target) ;;
    let correct := correct + n in
    ret (loss_sum, nll_sum, correct).

(** [test(test_loader, model, criterion, regularizer, **kwargs)]. *)
Definition test (test_loader : loader)
                (criterion : list tensor -> batch Z -> Q)
                (regularizer : option (model -> Q))
                (kw : kwargs) : M metrics :=
  let loss_sum := 0 in
  let nll_sum := 0 in
  let correct := 0 in
  model_eval ;;
  device <- first_parameter_device ;;
  '(loss_sum, nll_sum, correct) <-
    for_each (test_body criterion regularizer kw device)
             (batches test_loader) (loss_sum, nll_sum, correct) ;;
  nll <- lift (py_div nll_sum (inject_Z (dataset_len test_loader))) ;;
  loss <- lift (py_div loss_sum (inject_Z (dataset_len test_loader))) ;;
  accuracy <- lift (py_div (correct * 100)
                           (inject_Z (dataset_len test_loader))) ;;
  ret [("nll"%string, nll); ("loss"%string, loss);
       ("accuracy"%string, accuracy)].

(** The body of the loop of [predictions].  The call of the model that
    would bind [output] is commented out in the source, and no module-level
    name [output] exists, so reading it raises. *)
Definition predictions_body
  : batch tensor * batch Z -> list (list tensor) * list (list Z)
    -> M (list (list tensor) * list (list Z)) :=
  fun '(sample_input, target) '(preds, targets) =>
    device <- first_parameter_device ;;
    let _ := to device sample_input in
    let _ := to device target in
    output <- raise (NameError "output") ;;
    let probs := softmax output in
    ret (preds ++ [probs], targets ++ [items target]).

(** [predictions(test_loader, model, **kwargs)]; [np.vstack] of an empty
    list raises. *)
Definition predictions (test_loader : loader) (kw : kwargs)
  : M (list tensor * list Z) :=
  model_eval ;;
  let preds := [] in
  let targets := [] in
  '(preds, targets) <-
    for_each predictions_body (batches test_loader) (preds, targets) ;;
  match preds with
  | [] => raise ValueError
  | _ => ret (concat preds, concat targets)
  end.

(** The body of the loop of [update_bn]. *)
Definition update_bn_body (kw : kwargs) (momenta : dict)
  : batch tensor * batch Z -> Z -> M Z :=
  fun '(sample_input, _) num_samples =>
    device <- first_parameter_device ;;
    let _ := to device sample_input in
    let batch_size := size0 sample_input in
    momentum <- lift (py_div (inject_Z batch_size)
                             (inject_Z (num_samples + batch_size))) ;;
    for_each (fun k u => assign_momentum k (Some momentum) ;; ret u)
             (keys momenta) tt ;;
    call_model kw sample_input ;;
    let num_samples := (num_samples + batch_size)%Z in
    ret num_samples.

(** [update_bn(loader, model, **kwargs)]. *)
Definition update_bn (ld : loader) (kw : kwargs) : M unit :=
  has_bn <- check_bn ;;
  if negb has_bn then ret tt
  else
    model_train ;;
    let momenta : dict := [] in
    apply (fun _ md u => (reset_bn md, Ok u)) tt ;;
    momenta <- apply (fun k md momenta => (md, Ok (_get_momenta k md momenta)))
                     momenta ;;
    let num_samples := 0%Z in
    for_each (update_bn_body kw momenta) (batches ld) num_samples ;;
    apply restore_visitor momenta ;;
    ret tt.

End Loops.

(** ** The replay of [update_bn], as the specification describes it *)

(** The entries [_get_momenta] leaves in the dictionary when [apply] visits
    [mods], the first of them having identity [k]. *)
Fixpoint bn_entries (k : nat) (mods : list module) : dict :=
  match mods with
  | [] => []
  | md :: mods' =>
      if isbatchnorm md then (k, momentum md) :: bn_entries (S k) mods'
      else bn_entries (S k) mods'
  end.

(** Every batch-normalization submodule of [m] has momentum [q]. *)
Definition bn_momentum_is (q : Q) (m : model) : Prop :=
  Forall (fun md => isbatchnorm md = true -> momentum md = Some q) (modules m).

(** [cs] is one forward pass per batch of [bs], in order, each on a model
    whose submodules have the classes [cls] and started with the momentum
    [b / (n + b)] in every batch-normalization submodule, [b] the size of
    the batch and [n] the number of samples of the batches before it. *)
Fixpoint replayed (cls : list module_class) (n : Z)
                  (bs : list (batch tensor * batch Z))
                  (cs : list call) : Prop :=
  match bs, cs with
  | [], [] => True
  | (x, _) :: bs', ModelCall m x' :: cs' =>
      x' = x /\
      map class_of (modules m) = cls /\
      bn_momentum_is (inject_Z (size0 x) / inject_Z (n + size0 x)) m /\
      replayed cls (n + size0 x) bs' cs'
  | _, _ => False
  end.

(** The momentum a forward pass was started with is [q], up to equality of
    rationals. *)
Definition applied (c : call) (q : Q) : Prop :=
  match c with
  | ModelCall m _ =>
      Forall (fun md => isbatchnorm md = true ->
                        exists q', momentum md = Some q' /\ q' == q)
             (modules m)
  | CriterionCall _ => False
  end.

Definition has_bn (m : model) : bool := existsb isbatchnorm (modules m).

(** Two states of a submodule that differ at most in the momentum and the
    running statistics of a batch-normalization submodule. *)
Definition frame (md md0 : module) : Prop :=
  class_of md = class_of md0 /\
  mod_training md = mod_training md0 /\
  (isbatchnorm md0 = false -> md = md0).

(** [module.momentum = q] in every batch-normalization submodule. *)
Definition assigned (q : option Q) (mods : list module) : list module :=
  map (fun md => if isbatchnorm md then set_momentum q md else md) mods.

(** The submodules when the replay of [update_bn] starts: in training mode,
    with the running statistics reset. *)
Definition prepared (reset_running_stats : stats -> stats)
                    (ms : list module) : list module :=
  map (reset_bn reset_running_stats) (map (set_training true) ms).

(** The first batch of a loader, if any, has at least one sample. *)
Definition first_batch_nonempty (ld : loader) : Prop :=
  match batches ld with
  | [] => True
  | (x, _) :: _ => (0 < size0 x)%Z
  end.

(** ** A small instance, to run the loops *)

Module Toy.

(** The scores of a sample are the sample itself. *)
Definition forward (_ : model) (_ : kwargs) (x : batch tensor) : list tensor :=
  items x.

Definition batch_mean (x : batch tensor) : Q :=
  sigma (fun s => hd 0 s) (items x) / inject_Z (size0 x).

(** An exponential moving average of the mean of the first feature. *)
Definition bn_forward (m : model) (_ : kwargs) (x : batch tensor) (k : nat)
  : stats :=
  match nth_error (modules m) k with
  | Some md =>
      let q := match momentum md with Some q => q | None => 1 end in
      {| running_mean :=
           map (fun r => Qred ((1 - q) * r + q * batch_mean x))
               (running_mean (running md));
         running_var := running_var (running md);
         num_batches_tracked := num_batches_tracked (running md) + 1 |}
  | None => {| running_mean := []; running_var := [];
               num_batches_tracked := 0 |}
  end.

Definition reset_running_stats (s : stats) : stats :=
  {| running_mean := map (fun _ => 0) (running_mean s);
     running_var := map (fun _ => 1) (running_var s);
     num_batches_tracked := 0 |}.

Definition autograd (_ : model -> Q) (m : model) (k : nat) : tensor :=
  match nth_error (parameters m) k with
  | Some p => map (fun _ => 1) (p_data p)
  | None => []
  end.

(** Plain gradient descent with the rate of the first group. *)
Definition update_rule (o : optimizer) (_ : nat) (p : parameter) : tensor :=
  match p_grad p, param_groups o with
  | Some g, grp :: _ =>
      map (fun '(x, gx) => Qred (x - lr grp * gx)) (combine (p_data p) g)
  | _, _ => p_data p
  end.

Definition next_state (o : optimizer) (_ : list parameter) : list tensor :=
  opt_state o.

Definition softmax (rows : list tensor) : list tensor := rows.

(** The sum over the samples of the score of the class that is not the
    target's (0 or 1). *)
Definition criterion (output : list tensor) (target : batch Z) : Q :=
  sigma (fun '(row, y) => nth (Z.to_nat (1 - y)) row 0)
        (combine output (items target)).

Definition bn_module (c : module_class) : module :=
  {| class_of := c; mod_training := false; momentum := Some (1#10);
     running := {| running_mean := [5]; running_var := [2];
                   num_batches_tracked := 7 |} |}.

Definition plain_module : module :=
  {| class_of := OtherModule; mod_training := false; momentum := None;
     running := {| running_mean := []; running_var := [];
                   num_batches_tracked := 0 |} |}.

Definition parameter_on (d : device) : parameter :=
  {| p_data := [1; 2]; p_grad := None; p_device := d |}.

Definition optimizer0 : optimizer :=
  {| param_groups := [{| lr := 1#10; group_params := [0%nat] |}];
     opt_state := [] |}.

Definition world_of (m : model) : world :=
  {| the_model := m; the_optimizer := optimizer0; calls := [] |}.

(** A model with two batch-normalization submodules, one of each
    hierarchy, and one parameter on device [d]. *)
Definition bn_model (d : device) : model :=
  {| parameters := [parameter_on d];
     modules := [bn_module TorchBatchNorm; plain_module;
                 bn_module CurvesBatchNorm; plain_module] |}.

(** A model without batch normalization. *)
Definition plain_model : model :=
  {| parameters := [parameter_on cpu];
     modules := [plain_module; plain_module] |}.

(** A model without parameters: a lone batch normalization that is not
    affine. *)
Definition bare_model : model :=
  {| parameters := []; modules := [bn_module TorchBatchNorm] |}.

(** Two samples with two classes each, on the CPU; the first is classified
    correctly, the second is not. *)
Definition batch2 : batch tensor * batch Z :=
  ({| items := [[3#4; 1#4]; [2#3; 1#3]]; on := cpu |},
   {| items := [0%Z; 1%Z]; on := cpu |}).

Definition four_batches : loader :=
  {| batches := [batch2; batch2; batch2; batch2]; dataset_len := 8 |}.

Definition one_batch : loader :=
  {| batches := [batch2]; dataset_len := 2 |}.

Definition no_batch : loader := {| batches := []; dataset_len := 0 |}.

End Toy.

(** ** What the log of calls shows *)

(** The device of the tensor a call consumed. *)
Definition call_device (c : call) : device :=
  match c with
  | ModelCall _ x => on x
  | CriterionCall t => on t
  end.

(** ** A pass over the batches, as the specification describes it *)

Section Passes.

Variable forward : model -> kwargs -> batch tensor -> list tensor.
Variable bn_forward : model -> kwargs -> batch tensor -> nat -> stats.

(** The calls of a pass over the batches [bs]: for each batch a forward
    pass and a call of the criterion, [ms] being the states of the model in
    which the successive forward passes start. *)
Fixpoint passes (ms : list model) (bs : list (batch tensor * batch Z))
  : list call :=
  match ms, bs with
  | m :: ms', (x, t) :: bs' =>
      ModelCall m x :: CriterionCall t :: passes ms' bs'
  | _, _ => []
  end.

(** The model once the forward pass started in [m] is over. *)
Definition after_forward (m : model) (kw : kwargs) (x : batch tensor)
  : model :=
  set_modules (track bn_forward m kw x) m.

(** The loss value of a batch: the criterion's output, plus the
    regularizer's value when there is one. *)
Definition batch_loss (criterion : list tensor -> batch Z -> Q)
                      (regularizer : option (model -> Q)) (kw : kwargs)
                      (m : model) (x : batch tensor) (t : batch Z) : Q :=
  criterion (forward m kw x) t
  + match regularizer with
    | Some reg => reg (after_forward m kw x)
    | None => 0
    end.

(** The sum over the batches of the loss value times the batch size. *)
Fixpoint loss_total (criterion : list tensor -> batch Z -> Q)
                    (regularizer : option (model -> Q)) (kw : kwargs)
                    (ms : list model) (bs : list (batch tensor * batch Z))
  : Q :=
  match ms, bs with
  | m :: ms', (x, t) :: bs' =>
      batch_loss criterion regularizer kw m x t * inject_Z (size0 x)
      + loss_total criterion regularizer kw ms' bs'
  | _, _ => 0
  end.

(** The number of samples for which the comparison of the loop gives
    one. *)
Fixpoint correct_total (kw : kwargs) (ms : list model)
                       (bs : list (batch tensor * batch Z)) : Z :=
  match ms, bs with
  | m :: ms', (x, t) :: bs' =>
      (correct_count (forward m kw x) (items t)
       + correct_total kw ms' bs')%Z
  | _, _ => 0%Z
  end.

(** The number of samples, over all the batches, whose target is the
    arg-max class of the scores the model gives them. *)
Fixpoint hits_total (kw : kwargs) (ms : list model)
                    (bs : list (batch tensor * batch Z)) : Z :=
  match ms, bs with
  | m :: ms', (x, t) :: bs' =>
      (hits (forward m kw x) (items t) + hits_total kw ms' bs')%Z
  | _, _ => 0%Z
  end.

(** The scores the model gives for the batches [bs] have one non-empty row
    per target. *)
Definition well_shaped (kw : kwargs) (bs : list (batch tensor * batch Z))
  : Prop :=
  forall m x t, In (x, t) bs ->
    length (forward m kw x) = length (items t) /\
    Forall (fun row => row <> []) (forward m kw x).

End Passes.

(** The world with more calls in its log, and nothing else changed. *)
Definition add_calls (cs : list call) (w : world) : world :=
  {| the_model := the_model w; the_optimizer := the_optimizer w;
     calls := calls w ++ cs |}.

(** The model in evaluation mode. *)
Definition in_eval_mode (m : model) : model :=
  set_modules (map (set_training false) (modules m)) m.

(** Every submodule of the model is in evaluation mode. *)
Definition eval_mode (m : model) : Prop :=
  Forall (fun md => mod_training md = false) (modules m).

(** * The rest of utils.py *)

From Stdlib Require Import Permutation DecimalString DecimalZ Ascii.

(** ** Restoring the momenta *)

(** What [_set_momenta] makes of the submodules [ms] when the dictionary
    holds the momenta of [ms1]. *)
Definition restored (ms ms1 : list module) : list module :=
  map (fun '(md, md1) =>
         if isbatchnorm md then set_momentum (momentum md1) md else md)
      (combine ms ms1).

(** ** The statistics the replay of [update_bn] accumulates *)

(** The number of samples of the batches the logged forward passes
    consumed. *)
Fixpoint samples (cs : list call) : Z :=
  match cs with
  | [] => 0%Z
  | ModelCall _ x :: cs' => (size0 x + samples cs')%Z
  | CriterionCall _ :: cs' => samples cs'
  end.

(** The sum, over the logged forward passes, of a statistic of the batch
    (as the model saw it in that pass) weighted by the size of the batch. *)
Fixpoint weighted_stat (stat : model -> batch tensor -> Q) (cs : list call)
  : Q :=
  match cs with
  | [] => 0
  | ModelCall m x :: cs' => inject_Z (size0 x) * stat m x + weighted_stat stat cs'
  | CriterionCall _ :: cs' => weighted_stat stat cs'
  end.

(** The forward pass keeps the running statistic [field] of a
    batch-normalization submodule in training mode as an exponential moving
    average: with momentum [q], entry [j] becomes [(1 - q)] times what it
    was plus [q] times the statistic [stat] of the batch. *)
Definition moving_average
    (bn_forward : model -> kwargs -> batch tensor -> nat -> stats)
    (field : stats -> tensor)
    (stat : model -> kwargs -> batch tensor -> nat -> nat -> Q) : Prop :=
  forall m kw x k md q j,
    nth_error (modules m) k = Some md ->
    isbatchnorm md = true ->
    mod_training md = true ->
    momentum md = Some q ->
    nth j (field (bn_forward m kw x k)) 0
    == (1 - q) * nth j (field (running md)) 0 + q * stat m kw x k j.

(** The statistic the small instance averages: the mean of the first
    feature, for the entries the running mean has. *)
Definition toy_stat (m : model) (_ : kwargs) (x : batch tensor) (k j : nat)
  : Q :=
  match nth_error (modules m) k with
  | Some md =>
      if (j <? length (running_mean (running md)))%nat
      then Toy.batch_mean x else 0
  | None => 0
  end.

(** Every batch-normalization submodule of [ms] holds [total k j / n] in
    entry [j] of its running statistic [field], [k] being its identity. *)
Definition averaged (field : stats -> tensor) (ms : list module) (n : Z)
                    (total : nat -> nat -> Q) : Prop :=
  forall k md j,
    nth_error ms k = Some md -> isbatchnorm md = true ->
    nth j (field (running md)) 0 * inject_Z n == total k j.

(** The input of a logged forward pass. *)
Definition call_input (c : call) : option (batch tensor) :=
  match c with
  | ModelCall _ x => Some x
  | CriterionCall _ => None
  end.

(** ** [new_test] *)

Section NewTest.

Variable forward : model -> kwargs -> batch tensor -> list tensor.
Variable bn_forward : model -> kwargs -> batch tensor -> nat -> stats.

(** The body of the loop of [new_test]: [batch[0]] and [batch[1]] are moved
    to the device, and it is the moved tensors that are used. *)
Definition new_test_body (criterion : list tensor -> batch Z -> Q)
                         (regularizer : option (model -> Q))
                         (kw : kwargs) (device : device)
  : batch tensor * batch Z -> Q * Q * Q -> M (Q * Q * Q) :=
  fun batch '(loss_sum, nll_sum, correct) =>
    let sample_input := to device (fst batch) in
    let target := to device (snd batch) in
    output <- call_model forward bn_forward kw sample_input ;;
    nll <- call_criterion criterion output target ;;
    let loss := nll in
    loss <- match regularizer with
            | Some reg => m <- get_model ;; ret (loss + reg m)
            | None => ret loss
            end ;;
    let nll_sum := nll_sum + nll * inject_Z (size0 sample_input) in
    let loss_sum := loss_sum + loss * inject_Z (size0 sample_input) in
    pred <- lift (argmax_rows output) ;;
    n <- lift (eq_sum pred target) ;;
    let correct := correct + n in
    ret (loss_sum, nll_sum, correct).

(** [new_test(test_loader, model, criterion, regularizer, **kwargs)]. *)
Definition new_test (test_loader : loader)
                    (criterion : list tensor -> batch Z -> Q)
                    (regularizer : option (model -> Q))
                    (kw : kwargs) : M metrics :=
  let loss_sum := 0 in
  let nll_sum := 0 in
  let correct := 0 in
  model_eval ;;
  device <- first_parameter_device ;;
  '(loss_sum, nll_sum, correct) <-
    for_each (new_test_body criterion regularizer kw device)
             (batches test_loader) (loss_sum, nll_sum, correct) ;;
  nll <- lift (py_div nll_sum (inject_Z (dataset_len test_loader))) ;;
  loss <- lift (py_div loss_sum (inject_Z (dataset_len test_loader))) ;;
  accuracy <- lift (py_div (correct * 100)
                           (inject_Z (dataset_len test_loader))) ;;
  ret [("nll"%string, nll); ("loss"%string, loss);
       ("accuracy"%string, accuracy)].

End NewTest.

(** ** What a computation keeps *)

(** [c] keeps [P]: from a world where [P] holds it leads, whether it
    returns or raises, to a world where [P] holds. *)
Definition keeps {A : Type} (P : world -> Prop) (c : M A) : Prop :=
  forall w, P w -> P (fst (c w)).

(** Since the world [w0], the log has only grown, by calls that satisfy
    [good]. *)
Definition logged_since (w0 : world) (good : call -> Prop) (w : world)
  : Prop :=
  exists cs, calls w = calls w0 ++ cs /\ Forall good cs.

(** The call consumed a tensor the loader yielded, as it was yielded. *)
Definition from_loader (ld : loader) (c : call) : Prop :=
  match c with
  | ModelCall _ x => In x (map fst (batches ld))
  | CriterionCall t => In t (map snd (batches ld))
  end.

(** Every tensor the loader yields is on device [d]. *)
Definition loader_on (d : device) (ld : loader) : Prop :=
  Forall (fun xy => on (fst xy) = d /\ on (snd xy) = d) (batches ld).

(** [c] leaves the observation [f] of the world as it was, whether it
    returns or raises. *)
Definition unchanged {A X : Type} (f : world -> X) (c : M A) : Prop :=
  forall w, f (fst (c w)) = f w.

(** The parameter groups of the optimizer. *)
Definition groups (w : world) : list param_group :=
  param_groups (the_optimizer w).

(** What the loop bodies never touch: the classes, the training flags and
    the momenta of the submodules, the devices of the parameters, and the
    parameters each group of the optimizer updates. *)
Definition structure (w : world)
  : list module_class * list bool * list (option Q) * list device
    * list (list nat) :=
  (map class_of (modules (the_model w)),
   map mod_training (modules (the_model w)),
   map momentum (modules (the_model w)),
   map p_device (parameters (the_model w)),
   map group_params (param_groups (the_optimizer w))).

(** Every submodule is in training mode. *)
Definition training_mode (w : world) : Prop :=
  Forall (fun md => mod_training md = true) (modules (the_model w)).

(** The number of targets the loader yields. *)
Definition targets_total (bs : list (batch tensor * batch Z)) : Z :=
  fold_right (fun xy n => (size0 (snd xy) + n)%Z) 0%Z bs.

(** ** Checkpoints *)

(** What a checkpoint holds under a key: the epoch number, or a payload of
    tensors (a state dictionary of the model or of the optimizer). *)
Inductive value : Type :=
| IntValue (z : Z)
| StateValue (ts : list tensor).

(** The dictionary [state], in insertion order. *)
Definition state : Type := list (string * value).

(** [d[k] = v]. *)
Fixpoint state_set (d : state) (k : string) (v : value) : state :=
  match d with
  | [] => [(k, v)]
  | (k', v') :: d' =>
      if String.eqb k' k then (k, v) :: d' else (k', v') :: state_set d' k v
  end.

(** [d.get(k)]. *)
Fixpoint state_get (d : state) (k : string) : option value :=
  match d with
  | [] => None
  | (k', v') :: d' => if String.eqb k' k then Some v' else state_get d' k
  end.

(** [d.update(kwargs)]. *)
Definition state_update (d kwargs : state) : state :=
  fold_left (fun d '(k, v) => state_set d k v) kwargs d.

(** [s.startswith('/')] and [s.endswith('/')]. *)
Definition startswith_sep (s : string) : bool :=
  match s with
  | String c _ => Ascii.eqb c "/"
  | EmptyString => false
  end.

Fixpoint endswith_sep (s : string) : bool :=
  match s with
  | EmptyString => false
  | String c EmptyString => Ascii.eqb c "/"
  | String _ s' => endswith_sep s'
  end.

(** [os.path.join(a, b)], on POSIX paths. *)
Definition path_join (a b : string) : string :=
  if startswith_sep b then b
  else if (match a with EmptyString => true | _ => false end)
          || endswith_sep a
       then (a ++ b)%string
       else (a ++ "/" ++ b)%string.

(** ['%s-%d.pt' % (name, epoch)]. *)
Definition checkpoint_name (name : string) (epoch : Z) : string :=
  (name ++ "-" ++ NilEmpty.string_of_int (Z.to_int epoch) ++ ".pt")%string.

(** The files: what [torch.save] has written, by path. *)
Definition files : Type := list (string * state).

(** [torch.save(obj, path)] writes the file, over the one that was there if
    any (failures of the file system aside). *)
Fixpoint torch_save (obj : state) (path : string) (fs : files) : files :=
  match fs with
  | [] => [(path, obj)]
  | (p, o) :: fs' =>
      if String.eqb p path then (path, obj) :: fs'
      else (p, o) :: torch_save obj path fs'
  end.

(** What the file at [path] holds. *)
Fixpoint saved_at (path : string) (fs : files) : option state :=
  match fs with
  | [] => None
  | (p, o) :: fs' => if String.eqb p path then Some o else saved_at path fs'
  end.

(** [save_checkpoint(dir, epoch, name, **kwargs)]; Python binds the
    keywords [dir], [epoch] and [name] to the parameters, so they are never
    keys of [kwargs]. *)
Definition save_checkpoint (dir : string) (epoch : Z) (name : string)
                           (kwargs : state) (fs : files) : files :=
  let state := [("epoch"%string, IntValue epoch)] in
  let state := state_update state kwargs in
  let filepath := path_join dir (checkpoint_name name epoch) in
  torch_save state filepath fs.

(** * Properties *)

(** ** Python arithmetic and the learning-rate schedule *)

Lemma Qltb_lt (a b : Q) : Qltb a b = true <-> a < b.
Proof.
  unfold Qltb. rewrite Qlt_alt. destruct (a ?= b); split; congruence.
Qed.

Lemma Qltb_ge (a b : Q) : Qltb a b = false <-> b <= a.
Proof.
  split; intro H.
  - apply Qnot_lt_le. intro L. apply Qltb_lt in L. congruence.
  - destruct (Qltb a b) eqn:E; trivial. apply Qltb_lt in E. lra.
Qed.

Lemma py_div_ok (a : Q) (b : Z) :
  b <> 0%Z -> py_div a (inject_Z b) = Ok (a / inject_Z b).
Proof.
  intro H. unfold py_div.
  destruct (Qeq_bool (inject_Z b) 0) eqn:E; trivial.
  apply Qeq_bool_eq in E. unfold Qeq in E. simpl in E. lia.
Qed.

Lemma cycle_position (epoch cycle : Z) (i : Q) :
  (0 < cycle)%Z -> 0 <= i -> i < 1 ->
  let t := (inject_Z (epoch mod cycle) + i) / inject_Z cycle in
  0 <= t /\ t < 1.
Proof.
  intros Hc Hi0 Hi1 t.
  assert (Hm := Z.mod_pos_bound epoch cycle Hc).
  assert (Hc' : 0 < inject_Z cycle) by (change 0 with (inject_Z 0); rewrite <- Zlt_Qlt; lia).
  assert (H0 : 0 <= inject_Z (epoch mod cycle)) by (change 0 with (inject_Z 0); rewrite <- Zle_Qle; lia).
  assert (H1 : inject_Z (epoch mod cycle) + 1 <= inject_Z cycle).
  { change 1 with (inject_Z 1). rewrite <- inject_Z_plus, <- Zle_Qle. lia. }
  unfold t. split.
  - apply Qle_shift_div_l; trivial. lra.
  - apply Qlt_shift_div_r; trivial. lra.
Qed.

Lemma schedule_tent (epoch cycle : Z) (alpha_1 alpha_2 i r : Q) :
  (0 < cycle)%Z ->
  cyclic_learning_rate epoch cycle alpha_1 alpha_2 i = Ok r ->
  r == alpha_1 + (alpha_2 - alpha_1)
       * (1 - Qabs (2 * ((inject_Z (epoch mod cycle) + i) / inject_Z cycle) - 1)).
Proof.
  intros Hc. unfold cyclic_learning_rate.
  destruct (Z.eqb_spec cycle 0) as [->|_]; [lia|].
  set (t := (inject_Z (epoch mod cycle) + i) / inject_Z cycle).
  destruct (Qltb t (1#2)) eqn:E; intro H; injection H as <-.
  - apply Qltb_lt in E. rewrite Qabs_neg by lra. ring.
  - apply Qltb_ge in E. rewrite Qabs_pos by lra. ring.
Qed.

Lemma Qabs_diff_abs (x y : Q) : Qabs (Qabs x - Qabs y) <= Qabs (x - y).
Proof.
  apply Qabs_case; intros _.
  - apply Qabs_triangle_reverse.
  - setoid_replace (x - y) with (- (y - x)) by ring. rewrite Qabs_opp.
    generalize (Qabs_triangle_reverse y x). lra.
Qed.

Lemma schedule_lipschitz (epoch cycle : Z) (alpha_1 alpha_2 i j ri rj : Q) :
  (0 < cycle)%Z ->
  cyclic_learning_rate epoch cycle alpha_1 alpha_2 i = Ok ri ->
  cyclic_learning_rate epoch cycle alpha_1 alpha_2 j = Ok rj ->
  Qabs (ri - rj) <= 2 * Qabs (alpha_2 - alpha_1) / inject_Z cycle * Qabs (i - j).
Proof.
  intros Hc Hi Hj.
  apply schedule_tent in Hi; trivial. apply schedule_tent in Hj; trivial.
  assert (Hc' : 0 < inject_Z cycle)
    by (change 0 with (inject_Z 0); rewrite <- Zlt_Qlt; lia).
  set (c := inject_Z cycle) in *. set (e := inject_Z (epoch mod cycle)) in *.
  set (x := 2 * ((e + i) / c) - 1) in *. set (y := 2 * ((e + j) / c) - 1) in *.
  assert (E : ri - rj == (alpha_2 - alpha_1) * (Qabs y - Qabs x))
    by (rewrite Hi, Hj; ring).
  rewrite E, Qabs_Qmult.
  assert (D : y - x == (2 / c) * (j - i)) by (unfold x, y; field; lra).
  assert (B : Qabs (Qabs y - Qabs x) <= (2 / c) * Qabs (i - j)).
  { eapply Qle_trans; [apply Qabs_diff_abs|]. rewrite D, Qabs_Qmult.
    rewrite (Qabs_pos (2 / c)).
    - setoid_replace (j - i) with (- (i - j)) by ring. rewrite Qabs_opp. lra.
    - apply Qle_shift_div_l; lra. }
  assert (N := Qabs_nonneg (alpha_2 - alpha_1)).
  setoid_replace (2 * Qabs (alpha_2 - alpha_1) / c * Qabs (i - j))
    with (Qabs (alpha_2 - alpha_1) * (2 / c * Qabs (i - j))) by (field; lra).
  rewrite (Qmult_comm (Qabs (alpha_2 - alpha_1))),
    (Qmult_comm (Qabs (alpha_2 - alpha_1)) (2 / c * Qabs (i - j))).
  apply Qmult_le_compat_r; trivial.
Qed.

(** C7: for a positive cycle, with [t = ((epoch mod cycle) + i) / cycle], the
    schedule returns [alpha_1 * (1 - 2t) + alpha_2 * 2t] when [t < 1/2] and
    [alpha_1 * (2t - 1) + alpha_2 * (2 - 2t)] when [t >= 1/2]; [t] lies in
    [0, 1) when [i] does; both branches give [alpha_2] at [t = 1/2]; and the
    schedule has no jump anywhere: it changes by at most
    [2 |alpha_2 - alpha_1| / cycle] times the change of [i]. *)
Theorem cyclic_learning_rate_triangular
  (epoch cycle : Z) (alpha_1 alpha_2 i : Q) :
  (0 < cycle)%Z ->
  let t := (inject_Z (epoch mod cycle) + i) / inject_Z cycle in
  (0 <= i -> i < 1 -> 0 <= t /\ t < 1) /\
  (t < 1#2 ->
   cyclic_learning_rate epoch cycle alpha_1 alpha_2 i
   = Ok (alpha_1 * (1 - 2 * t) + alpha_2 * 2 * t)) /\
  (1#2 <= t ->
   cyclic_learning_rate epoch cycle alpha_1 alpha_2 i
   = Ok (alpha_1 * (2 * t - 1) + alpha_2 * (2 - 2 * t))) /\
  (t == 1#2 ->
   alpha_1 * (1 - 2 * t) + alpha_2 * 2 * t == alpha_2 /\
   alpha_1 * (2 * t - 1) + alpha_2 * (2 - 2 * t) == alpha_2) /\
  (forall j, exists ri rj,
      cyclic_learning_rate epoch cycle alpha_1 alpha_2 i = Ok ri /\
      cyclic_learning_rate epoch cycle alpha_1 alpha_2 j = Ok rj /\
      Qabs (ri - rj)
      <= 2 * Qabs (alpha_2 - alpha_1) / inject_Z cycle * Qabs (i - j)).
Proof.
  intros Hc t.
  assert (Hz : (cycle =? 0)%Z = false) by (apply Z.eqb_neq; lia).
  repeat split.
  - apply (cycle_position epoch cycle i); trivial.
  - apply (cycle_position epoch cycle i); trivial.
  - intro L. apply Qltb_lt in L. unfold cyclic_learning_rate. rewrite Hz.
    fold t. now rewrite L.
  - intro L. apply Qltb_ge in L. unfold cyclic_learning_rate. rewrite Hz.
    fold t. now rewrite L.
  - rewrite H. ring.
  - rewrite H. ring.
  - intro j.
    assert (Ri : exists ri, cyclic_learning_rate epoch cycle alpha_1 alpha_2 i = Ok ri).
    { unfold cyclic_learning_rate. rewrite Hz.
      destruct (Qltb _ _); eexists; reflexivity. }
    assert (Rj : exists rj, cyclic_learning_rate epoch cycle alpha_1 alpha_2 j = Ok rj).
    { unfold cyclic_learning_rate. rewrite Hz.
      destruct (Qltb _ _); eexists; reflexivity. }
    destruct Ri as [ri Ri], Rj as [rj Rj]. exists ri, rj.
    repeat split; trivial. now apply (schedule_lipschitz epoch cycle).
Qed.

Lemma cyclic_learning_rate_triangular_witness :
  (0 < 4)%Z /\
  cyclic_learning_rate 3 4 (1#100) (5#100) (1#2)
  = Ok ((1#100) * (2 * ((inject_Z (3 mod 4) + (1#2)) / inject_Z 4) - 1)
        + (5#100) * (2 - 2 * ((inject_Z (3 mod 4) + (1#2)) / inject_Z 4))).
Proof.
  split; [reflexivity|].
  apply (cyclic_learning_rate_triangular 3 4 (1#100) (5#100) (1#2));
    [reflexivity | discriminate].
Defined.

(** C8, as stated, fails in the middle of a cycle: with [epoch = 1] and
    [cycle = 4] the schedule at [i = 0] is half-way between the bounds, not
    at [alpha_1]. *)
Lemma cyclic_learning_rate_start_mid_cycle :
  exists r, cyclic_learning_rate 1 4 0 1 0 = Ok r /\ r == 1#2 /\ ~ r == 0.
Proof.
  eexists. split; [vm_compute; reflexivity|]. split; [reflexivity|discriminate].
Qed.

(** C8, amended: for a positive cycle, the schedule at [i = 0] is [alpha_1]
    in the epochs that start a cycle ([epoch mod cycle = 0]); in the epochs
    that end one ([epoch mod cycle = cycle - 1]) the schedule at [1 - eps]
    tends to [alpha_1] as [eps] tends to 0; and when [alpha_1 <= alpha_2] the
    schedule never exceeds [alpha_2] and equals it wherever [t = 1/2]. *)
Theorem cyclic_learning_rate_bounds
  (epoch cycle : Z) (alpha_1 alpha_2 : Q) :
  (0 < cycle)%Z ->
  ((epoch mod cycle = 0)%Z ->
   exists r, cyclic_learning_rate epoch cycle alpha_1 alpha_2 0 = Ok r /\
             r == alpha_1) /\
  ((epoch mod cycle = cycle - 1)%Z ->
   forall d, 0 < d -> exists e0, 0 < e0 /\
     forall eps, 0 < eps -> eps < e0 ->
       exists r, cyclic_learning_rate epoch cycle alpha_1 alpha_2 (1 - eps)
                 = Ok r /\ Qabs (r - alpha_1) < d) /\
  (alpha_1 <= alpha_2 ->
   forall i, exists r,
     cyclic_learning_rate epoch cycle alpha_1 alpha_2 i = Ok r /\
     r <= alpha_2 /\
     ((inject_Z (epoch mod cycle) + i) / inject_Z cycle == 1#2 ->
      r == alpha_2)).
Proof.
  intros Hc.
  assert (Hz : (cycle =? 0)%Z = false) by (apply Z.eqb_neq; lia).
  assert (Hc' : 0 < inject_Z cycle)
    by (change 0 with (inject_Z 0); rewrite <- Zlt_Qlt; lia).
  assert (Tot : forall i, exists r,
             cyclic_learning_rate epoch cycle alpha_1 alpha_2 i = Ok r).
  { intro i. unfold cyclic_learning_rate. rewrite Hz.
    destruct (Qltb _ _); eexists; reflexivity. }
  split; [|split].
  - intro E. destruct (Tot 0) as [r Hr]. exists r. split; trivial.
    apply schedule_tent in Hr; trivial. rewrite Hr, E.
    setoid_replace (2 * ((inject_Z 0 + 0) / inject_Z cycle) - 1) with (- (1))
      by (unfold inject_Z at 1; field; lra).
    rewrite Qabs_opp. change (Qabs 1) with 1. ring.
  - intros E d Hd.
    set (K := 2 * Qabs (alpha_2 - alpha_1) / inject_Z cycle).
    assert (HK : 0 <= K).
    { unfold K. apply Qle_shift_div_l; trivial.
      generalize (Qabs_nonneg (alpha_2 - alpha_1)). lra. }
    exists (d / (K + 1)). split.
    + apply Qlt_shift_div_l; lra.
    + intros eps He0 He1. destruct (Tot (1 - eps)) as [r Hr]. exists r.
      split; trivial.
      apply schedule_tent in Hr; trivial. rewrite E in Hr.
      set (x := 2 * ((inject_Z (cycle - 1) + (1 - eps)) / inject_Z cycle) - 1) in Hr.
      assert (X : 1 - x == 2 / inject_Z cycle * eps).
      { assert (I : inject_Z (cycle - 1) == inject_Z cycle - 1)
          by (unfold Z.sub; rewrite inject_Z_plus; reflexivity).
        unfold x. rewrite I. field; lra. }
      assert (B : Qabs (1 - Qabs x) <= 2 / inject_Z cycle * eps).
      { change 1 with (Qabs 1) at 1.
        eapply Qle_trans; [apply Qabs_diff_abs|].
        rewrite X, Qabs_pos; [lra|].
        apply Qmult_le_0_compat; [apply Qle_shift_div_l|]; lra. }
      setoid_replace (r - alpha_1) with ((alpha_2 - alpha_1) * (1 - Qabs x))
        by (rewrite Hr; ring).
      rewrite Qabs_Qmult.
      assert (N := Qabs_nonneg (alpha_2 - alpha_1)).
      apply Qle_lt_trans with (Qabs (alpha_2 - alpha_1) * (2 / inject_Z cycle * eps)).
      * rewrite !(Qmult_comm (Qabs (alpha_2 - alpha_1))).
        apply Qmult_le_compat_r; trivial.
      * setoid_replace (Qabs (alpha_2 - alpha_1) * (2 / inject_Z cycle * eps))
          with (K * eps) by (unfold K; field; lra).
        assert (He2 : eps * (K + 1) < d).
        { apply (Qmult_lt_r _ _ (K + 1)) in He1; [|lra].
          setoid_replace (d / (K + 1) * (K + 1)) with d in He1 by (field; lra).
          exact He1. }
        apply Qle_lt_trans with (eps * (K + 1)); trivial.
        assert (0 <= eps * 1) by lra.
        setoid_replace (eps * (K + 1)) with (K * eps + eps * 1) by ring. lra.
  - intros Ha i. destruct (Tot i) as [r Hr]. exists r. split; trivial.
    apply schedule_tent in Hr; trivial.
    set (x := 2 * ((inject_Z (epoch mod cycle) + i) / inject_Z cycle) - 1) in Hr.
    split.
    + assert (N := Qabs_nonneg x).
      assert (0 <= (alpha_2 - alpha_1) * Qabs x)
        by (apply Qmult_le_0_compat; lra).
      rewrite Hr.
      setoid_replace (alpha_1 + (alpha_2 - alpha_1) * (1 - Qabs x))
        with (alpha_2 - (alpha_2 - alpha_1) * Qabs x) by ring.
      lra.
    + intro T. rewrite Hr. unfold x. rewrite T.
      setoid_replace (2 * (1 # 2) - 1) with 0 by ring.
      change (Qabs 0) with 0. ring.
Qed.

Lemma cyclic_learning_rate_bounds_witness :
  (0 < 4)%Z /\
  exists r, cyclic_learning_rate 8 4 (1#100) (5#100) 0 = Ok r /\ r == 1#100.
Proof.
  split; [reflexivity|].
  apply (cyclic_learning_rate_bounds 8 4 (1#100) (5#100));
    reflexivity.
Defined.

(** ** The regularizer *)

Lemma fold_left_sigma {A : Type} (f : A -> Q) (l : list A) (a : Q) :
  fold_left (fun acc x => acc + f x) l a == a + sigma f l.
Proof.
  revert a. induction l as [|x l IH]; intro a; simpl.
  - ring.
  - rewrite IH. ring.
Qed.

Lemma qsqrt_compat (x y : Q) : x == y -> qsqrt x == qsqrt y.
Proof.
  intro E. unfold qsqrt. now rewrite (Qred_complete x y E).
Qed.

(** C9: the regularizer is [0.5 * weight_decay] times the sum over the
    parameters of their L2 norms (for any square root that respects equality
    of rationals), so it is 0 when [weight_decay] is 0; and it is not the sum
    of the squared norms: on the single parameter [(3, 4)] it gives
    [0.5 * 5], not [0.5 * 25]. *)
Theorem l2_regularizer_sum_of_norms
  (sqrt : Q -> Q) (weight_decay : Q) (params : list tensor) :
  (forall x y, x == y -> sqrt x == sqrt y) ->
  l2_regularizer sqrt weight_decay params
  == (1#2) * weight_decay * sum_of_norms sqrt params /\
  l2_regularizer sqrt 0 params == 0 /\
  l2_regularizer qsqrt 1 [[3; 4]] == (1#2) * 5 /\
  ~ l2_regularizer qsqrt 1 [[3; 4]]
    == (1#2) * 1 * sum_of_squared_norms [[3; 4]].
Proof.
  intro Hs.
  assert (E : fold_left (fun l2 p => l2 + sqrt (sum_sq p)) params 0
              == sum_of_norms sqrt params).
  { rewrite (fold_left_sigma (fun p => sqrt (sum_sq p))).
    unfold sum_of_norms. rewrite Qplus_0_l.
    induction params as [|p ps IH]; simpl; [reflexivity|].
    rewrite IH. apply Qplus_inj_r. apply Hs.
    unfold sum_sq. rewrite (fold_left_sigma (fun x => x * x)). ring. }
  unfold l2_regularizer. split; [|split; [|split]].
  - now rewrite E.
  - ring.
  - vm_compute. reflexivity.
  - vm_compute. discriminate.
Qed.

Lemma l2_regularizer_sum_of_norms_witness :
  (forall x y, x == y -> qsqrt x == qsqrt y) /\
  l2_regularizer qsqrt (1#1000) [[3; 4]; [1; 0]; []]
  == (1#2) * (1#1000) * sum_of_norms qsqrt [[3; 4]; [1; 0]; []].
Proof.
  split; [exact qsqrt_compat|].
  apply (l2_regularizer_sum_of_norms qsqrt (1#1000) [[3; 4]; [1; 0]; []]
                                     qsqrt_compat).
Defined.

(** ** Loops *)

Lemma for_each_cons {A S : Type} (body : A -> S -> M S) (x : A) (xs : list A)
      (s : S) :
  for_each body (x :: xs) s = bind (body x s) (fun s' => for_each body xs s').
Proof. reflexivity. Qed.

Lemma for_each_raise {A S : Type} (body : A -> S -> M S) (x : A)
      (xs : list A) (s : S) (w : world) (e : exn) :
  body x s w = (w, Raise e) -> for_each body (x :: xs) s w = (w, Raise e).
Proof. intro H. rewrite for_each_cons. unfold bind. now rewrite H. Qed.

(** ** Visiting submodules *)

Lemma world_eta (w : world) : with_modules (modules (the_model w)) w = w.
Proof. destruct w as [[ps ms] o cs]; reflexivity. Qed.

Lemma apply_from_pure {A : Type} (f : module -> module)
      (g : nat -> module -> A -> A) (mods : list module) :
  forall k a,
    apply_from (fun k md a => (f md, Ok (g k md a))) k mods a
    = (map f mods,
       Ok (fold_left (fun a '(k, md) => g k md a)
                     (mapi_from (fun i md => (i, md)) k mods) a)).
Proof.
  induction mods as [|md mods IH]; intros k a; simpl; trivial.
  now rewrite IH.
Qed.

Lemma check_bn_flag (mods : list module) :
  forall (k : nat) (flag : bool),
    fold_left (fun a '(_, md) => _check_bn md a)
              (mapi_from (fun i md => (i, md)) k mods) flag
    = flag || existsb isbatchnorm mods.
Proof.
  induction mods as [|md mods IH]; intros k flag; simpl.
  - now rewrite orb_false_r.
  - rewrite IH. unfold _check_bn.
    destruct (isbatchnorm md), flag; reflexivity.
Qed.

Lemma check_bn_spec (w : world) : check_bn w = (w, Ok (has_bn (the_model w))).
Proof.
  unfold check_bn, bind, apply.
  rewrite (apply_from_pure (fun md => md) (fun _ md flag => _check_bn md flag)).
  rewrite map_id, world_eta. unfold ret. now rewrite check_bn_flag.
Qed.

(** ** The momenta dictionary *)

Lemma dict_set_fresh (d : dict) (k : nat) (v : option Q) :
  Forall (fun j => j <> k) (keys d) -> dict_set d k v = d ++ [(k, v)].
Proof.
  induction d as [|[j u] d IH]; simpl; intro H; trivial.
  inversion H as [|? ? Hj Hd]; subst.
  destruct (Nat.eqb_spec j k) as [->|_]; [contradiction|].
  now rewrite IH.
Qed.

Lemma dict_get_app_fresh (d d' : dict) (k : nat) :
  Forall (fun j => j <> k) (keys d) -> dict_get (d ++ d') k = dict_get d' k.
Proof.
  induction d as [|[j u] d IH]; simpl; intro H; trivial.
  inversion H as [|? ? Hj Hd]; subst.
  destruct (Nat.eqb_spec j k) as [->|_]; [contradiction|]. auto.
Qed.

Lemma get_momenta_entries (mods : list module) :
  forall (k : nat) (acc : dict),
    Forall (fun j => (j < k)%nat) (keys acc) ->
    fold_left (fun a '(k, md) => _get_momenta k md a)
              (mapi_from (fun i md => (i, md)) k mods) acc
    = acc ++ bn_entries k mods.
Proof.
  induction mods as [|md mods IH]; intros k acc H; simpl.
  - now rewrite app_nil_r.
  - unfold _get_momenta at 2. destruct (isbatchnorm md).
    + rewrite dict_set_fresh.
      * rewrite IH.
        -- now rewrite <- app_assoc.
        -- unfold keys. rewrite map_app. apply Forall_app. split.
           ++ eapply Forall_impl; [|exact H]. simpl. lia.
           ++ repeat constructor.
      * eapply Forall_impl; [|exact H]. simpl. lia.
    + apply IH. eapply Forall_impl; [|exact H]. simpl. lia.
Qed.

Lemma update_nth_app {A : Type} (f : A -> A) (pre : list A) (x : A)
      (suf : list A) :
  update_nth (length pre) f (pre ++ x :: suf) = pre ++ f x :: suf.
Proof.
  induction pre as [|y pre IH]; simpl; trivial. now rewrite IH.
Qed.

Lemma assign_keys (f : module -> module) (mods1 : list module) :
  forall (suf pre : list module),
    Forall2 frame suf mods1 ->
    fold_left (fun ms j => update_nth j f ms)
              (keys (bn_entries (length pre) mods1)) (pre ++ suf)
    = pre ++ map (fun md => if isbatchnorm md then f md else md) suf.
Proof.
  induction mods1 as [|md1 mods1 IH]; intros suf pre H;
    inversion H as [|s ? suf' ? Hs Hsuf]; subst; simpl; trivial.
  assert (E : isbatchnorm s = isbatchnorm md1)
    by (unfold isbatchnorm; destruct Hs as [-> _]; trivial).
  rewrite E. destruct (isbatchnorm md1); simpl.
  - rewrite update_nth_app.
    replace (pre ++ f s :: suf') with ((pre ++ [f s]) ++ suf')
      by now rewrite <- app_assoc.
    replace (S (length pre)) with (length (pre ++ [f s]))
      by (rewrite length_app; simpl; lia).
    rewrite IH; trivial. now rewrite <- app_assoc.
  - replace (pre ++ s :: suf') with ((pre ++ [s]) ++ suf')
      by now rewrite <- app_assoc.
    replace (S (length pre)) with (length (pre ++ [s]))
      by (rewrite length_app; simpl; lia).
    rewrite IH; trivial. now rewrite <- app_assoc.
Qed.

Section Recalibration.

Variable forward : model -> kwargs -> batch tensor -> list tensor.
Variable bn_forward : model -> kwargs -> batch tensor -> nat -> stats.
Variable reset_running_stats : stats -> stats.

Lemma has_bn_false (m : model) :
  Forall (fun md => isbatchnorm md = false) (modules m) -> has_bn m = false.
Proof.
  unfold has_bn. induction 1 as [|md mods H _ IH]; simpl; trivial.
  now rewrite H.
Qed.

(** C3: on a model without batch-normalization submodules [update_bn]
    returns at once and leaves the world as it was: the submodules (their
    running statistics, momenta and training flags), the parameters and
    the optimizer are unchanged, and no forward pass is recorded. *)
Theorem update_bn_without_bn (ld : loader) (kw : kwargs) (w : world) :
  Forall (fun md => isbatchnorm md = false) (modules (the_model w)) ->
  update_bn forward bn_forward reset_running_stats ld kw w = (w, Ok tt).
Proof.
  intro H. unfold update_bn, bind. rewrite check_bn_spec.
  now rewrite (has_bn_false _ H).
Qed.

Lemma frame_refl (md : module) : frame md md.
Proof. repeat split. Qed.

Lemma frame_isbatchnorm (md md1 : module) :
  frame md md1 -> isbatchnorm md = isbatchnorm md1.
Proof. intros [E _]. unfold isbatchnorm. now rewrite E. Qed.

Lemma frame_classes (ms ms1 : list module) :
  Forall2 frame ms ms1 -> map class_of ms = map class_of ms1.
Proof.
  induction 1 as [|md md1 ms ms1 H _ IH]; simpl; trivial.
  destruct H as [-> _]. now rewrite IH.
Qed.

Lemma frame_set_momentum (q : option Q) (md md1 : module) :
  frame md md1 -> isbatchnorm md = true -> frame (set_momentum q md) md1.
Proof.
  intros F B. rewrite (frame_isbatchnorm _ _ F) in B.
  destruct F as (C & T & _). repeat split; trivial. congruence.
Qed.

Lemma frame_set_running (s : stats) (md md1 : module) :
  frame md md1 -> isbatchnorm md = true -> frame (set_running s md) md1.
Proof.
  intros F B. rewrite (frame_isbatchnorm _ _ F) in B.
  destruct F as (C & T & _). repeat split; trivial. congruence.
Qed.

Lemma frame_mapi_from (F : nat -> module -> module) :
  (forall k md md1, frame md md1 -> frame (F k md) md1) ->
  forall ms ms1 k, Forall2 frame ms ms1 -> Forall2 frame (mapi_from F k ms) ms1.
Proof.
  intros HF ms ms1 k H. revert k.
  induction H; intro k; simpl; constructor; auto.
Qed.

Lemma frame_assigned (q : option Q) (ms ms1 : list module) :
  Forall2 frame ms ms1 -> Forall2 frame (assigned q ms) ms1.
Proof.
  induction 1 as [|md md1 ms ms1 H _ IH]; simpl; constructor; trivial.
  destruct (isbatchnorm md) eqn:B; trivial. now apply frame_set_momentum.
Qed.

Lemma frame_track (m : model) (kw : kwargs) (x : batch tensor)
      (ms1 : list module) :
  Forall2 frame (modules m) ms1 ->
  Forall2 frame (track bn_forward m kw x) ms1.
Proof.
  intro H. unfold track, mapi. apply frame_mapi_from; trivial.
  intros k md md1 F.
  destruct (mod_training md); simpl; trivial.
  destruct (isbatchnorm md) eqn:B; trivial. now apply frame_set_running.
Qed.

Lemma assign_all (q : option Q) (ms ms1 : list module) :
  Forall2 frame ms ms1 ->
  fold_left (fun ms j => update_nth j (set_momentum q) ms)
            (keys (bn_entries 0 ms1)) ms
  = assigned q ms.
Proof. intro H. exact (assign_keys (set_momentum q) ms1 ms [] H). Qed.

Lemma assign_loop (q : option Q) (ks : list nat) :
  forall w,
    for_each (fun k u => assign_momentum k q ;; ret u) ks tt w
    = (with_modules
         (fold_left (fun ms j => update_nth j (set_momentum q) ms) ks
                    (modules (the_model w))) w,
       Ok tt).
Proof.
  induction ks as [|k ks IH]; intro w; simpl.
  - unfold ret. now rewrite world_eta.
  - unfold bind at 1. unfold assign_momentum, bind, get_model, put_model, ret.
    simpl. rewrite IH. reflexivity.
Qed.

(** One iteration of the replay, when the model has a parameter and the
    divisor is not zero. *)
Lemma update_bn_body_ok (kw : kwargs) (ms1 : list module)
      (x : batch tensor) (t : batch Z) (n : Z) (w : world) :
  parameters (the_model w) <> [] ->
  (n + size0 x <> 0)%Z ->
  Forall2 frame (modules (the_model w)) ms1 ->
  let q := inject_Z (size0 x) / inject_Z (n + size0 x) in
  let m := set_modules (assigned (Some q) (modules (the_model w)))
                       (the_model w) in
  update_bn_body forward bn_forward kw (bn_entries 0 ms1) (x, t) n w
  = ({| the_model := set_modules (track bn_forward m kw x) m;
        the_optimizer := the_optimizer w;
        calls := calls w ++ [ModelCall m x] |},
     Ok (n + size0 x)%Z).
Proof.
  intros Hp Hn Hf q m.
  unfold update_bn_body, bind at 1, first_parameter_device, bind at 1, get_model.
  destruct (parameters (the_model w)) as [|p ps] eqn:Ep; [congruence|].
  unfold ret at 1. unfold bind at 1, lift. rewrite py_div_ok by trivial.
  unfold bind at 1. rewrite assign_loop.
  rewrite (assign_all _ _ _ Hf). reflexivity.
Qed.

Lemma assigned_momentum (q : Q) (m : model) :
  bn_momentum_is q (set_modules (assigned (Some q) (modules m)) m).
Proof.
  unfold bn_momentum_is. simpl. induction (modules m) as [|md ms IH]; simpl;
    constructor; trivial.
  destruct (isbatchnorm md) eqn:B; [reflexivity|]. now rewrite B.
Qed.

Lemma size0_nonneg {A : Type} (x : batch A) : (0 <= size0 x)%Z.
Proof. unfold size0. lia. Qed.

(** The whole replay, when the model has a parameter and the first batch is
    not empty. *)
Lemma replay_ok (kw : kwargs) (ms1 : list module) :
  forall (bs : list (batch tensor * batch Z)) (n : Z) (w : world),
    parameters (the_model w) <> [] ->
    (0 <= n)%Z ->
    match bs with [] => True | (x, _) :: _ => (0 < n + size0 x)%Z end ->
    Forall2 frame (modules (the_model w)) ms1 ->
    exists w' n' cs,
      for_each (update_bn_body forward bn_forward kw (bn_entries 0 ms1)) bs n w
      = (w', Ok n') /\
      parameters (the_model w') = parameters (the_model w) /\
      the_optimizer w' = the_optimizer w /\
      Forall2 frame (modules (the_model w')) ms1 /\
      calls w' = calls w ++ cs /\
      replayed (map class_of ms1) n bs cs.
Proof.
  induction bs as [|[x t] bs IH]; intros n w Hp Hn Hb Hf.
  - exists w, n, []. simpl. rewrite app_nil_r. repeat split; trivial.
  - rewrite for_each_cons. unfold bind at 1.
    rewrite (update_bn_body_ok kw ms1 x t n w Hp) by (trivial; lia).
    match goal with |- context [for_each _ bs _ ?w1] => set (w1' := w1) end.
    destruct (IH (n + size0 x)%Z w1') as (w' & n' & cs & E & P & O & F & C & R).
    + exact Hp.
    + generalize (size0_nonneg x). lia.
    + destruct bs as [|[x' t'] bs']; trivial.
      generalize (size0_nonneg x'). lia.
    + unfold w1'. simpl. apply frame_track. simpl. now apply frame_assigned.
    + exists w', n', (ModelCall
                       (set_modules
                          (assigned (Some (inject_Z (size0 x)
                                           / inject_Z (n + size0 x)))
                                    (modules (the_model w))) (the_model w))
                       x :: cs).
      rewrite E. repeat split; trivial.
      * rewrite C. unfold w1'. simpl. now rewrite <- app_assoc.
      * cbn [modules set_modules]. apply frame_classes. now apply frame_assigned.
      * apply assigned_momentum.
Qed.

Lemma restore_from (ms1 : list module) :
  forall (ms : list module) (k : nat) (acc : dict),
    Forall2 frame ms ms1 ->
    Forall (fun j => (j < k)%nat) (keys acc) ->
    exists ms',
      apply_from restore_visitor k ms (acc ++ bn_entries k ms1)
      = (ms', Ok (acc ++ bn_entries k ms1)) /\
      map momentum ms' = map momentum ms1.
Proof.
  induction ms1 as [|md1 ms1 IH]; intros ms k acc H Hk;
    inversion H as [|md ? ms_ ? Hmd Hms]; subst.
  - exists []. split; reflexivity.
  - assert (B := frame_isbatchnorm _ _ Hmd).
    cbn [apply_from bn_entries]. unfold restore_visitor at 1, _set_momenta.
    rewrite B. destruct (isbatchnorm md1) eqn:B1.
    + rewrite dict_get_app_fresh
        by (eapply Forall_impl; [|exact Hk]; simpl; lia).
      cbn [dict_get]. rewrite Nat.eqb_refl.
      destruct (IH ms_ (S k) (acc ++ [(k, momentum md1)])) as (ms' & E & Mo);
        trivial.
      { unfold keys. rewrite map_app. apply Forall_app. split.
        - eapply Forall_impl; [|exact Hk]. simpl. lia.
        - repeat constructor. }
      rewrite <- app_assoc in E. cbn [app] in E. rewrite E.
      eexists. split; [reflexivity|]. simpl. now rewrite Mo.
    + destruct (IH ms_ (S k) acc) as (ms' & E & Mo); trivial.
      { eapply Forall_impl; [|exact Hk]. simpl. lia. }
      rewrite E. eexists. split; [reflexivity|]. simpl. rewrite Mo.
      destruct Hmd as (_ & _ & Hmd). now rewrite (Hmd B1).
Qed.

Lemma prepared_momentum (ms : list module) :
  map momentum (prepared reset_running_stats ms) = map momentum ms.
Proof.
  unfold prepared. rewrite !map_map. apply map_ext. intro md.
  unfold reset_bn. now destruct (isbatchnorm (set_training true md)).
Qed.

Lemma prepared_class (ms : list module) :
  map class_of (prepared reset_running_stats ms) = map class_of ms.
Proof.
  unfold prepared. rewrite !map_map. apply map_ext. intro md.
  unfold reset_bn. now destruct (isbatchnorm (set_training true md)).
Qed.

Lemma frame_refl_all (ms : list module) : Forall2 frame ms ms.
Proof. induction ms; constructor; trivial. apply frame_refl. Qed.

(** [update_bn] on a model with a batch-normalization submodule: the
    preparation, then the replay, then the restoration. *)
Lemma update_bn_steps (ld : loader) (kw : kwargs) (w : world) :
  has_bn (the_model w) = true ->
  let ms1 := prepared reset_running_stats (modules (the_model w)) in
  update_bn forward bn_forward reset_running_stats ld kw w
  = match for_each (update_bn_body forward bn_forward kw (bn_entries 0 ms1))
                   (batches ld) 0%Z (with_modules ms1 w) with
    | (w2, Ok _) =>
        match apply_from restore_visitor 0 (modules (the_model w2))
                         (bn_entries 0 ms1) with
        | (ms3, Ok _) => (with_modules ms3 w2, Ok tt)
        | (ms3, Raise e) => (with_modules ms3 w2, Raise e)
        end
    | (w2, Raise e) => (w2, Raise e)
    end.
Proof.
  intros Hb ms1. unfold update_bn. unfold bind at 1. rewrite check_bn_spec, Hb.
  cbn [negb]. unfold bind at 1. unfold model_train, bind at 1, get_model, put_model.
  unfold bind at 1. unfold apply at 1.
  rewrite (apply_from_pure (reset_bn reset_running_stats) (fun _ _ u => u)).
  cbn [modules set_modules the_model].
  unfold bind at 1. unfold apply at 1.
  rewrite (apply_from_pure (fun md => md) _get_momenta).
  rewrite map_id. cbn [modules set_modules the_model with_modules].
  rewrite (get_momenta_entries _ 0 []) by constructor. cbn [app].
  fold (prepared reset_running_stats (modules (the_model w))). fold ms1.
  unfold with_modules at 1 2. cbn [modules set_modules the_model parameters
                                    the_optimizer calls].
  unfold bind at 1.
  change {| the_model := {| parameters := parameters (the_model w);
                            modules := ms1 |};
            the_optimizer := the_optimizer w; calls := calls w |}
    with (with_modules ms1 w).
  destruct (for_each _ _ _ _) as [w2 [n'|e]]; trivial.
  unfold bind, apply.
  destruct (apply_from _ _ _ _) as [ms3 [d|e]]; reflexivity.
Qed.

Lemma update_bn_body_no_parameter (kw : kwargs) (momenta : dict)
      (x : batch tensor) (t : batch Z) (n : Z) (w : world) :
  parameters (the_model w) = [] ->
  update_bn_body forward bn_forward kw momenta (x, t) n w
  = (w, Raise StopIteration).
Proof.
  intro E. unfold update_bn_body, bind at 1, first_parameter_device, bind,
    get_model. now rewrite E.
Qed.

Lemma update_bn_body_empty_batch (kw : kwargs) (momenta : dict)
      (x : batch tensor) (t : batch Z) (w : world) :
  parameters (the_model w) <> [] -> size0 x = 0%Z ->
  update_bn_body forward bn_forward kw momenta (x, t) 0 w
  = (w, Raise ZeroDivisionError).
Proof.
  intros Hp E. unfold update_bn_body, bind at 1, first_parameter_device,
    bind at 1, get_model.
  destruct (parameters (the_model w)); [congruence|].
  unfold ret at 1. unfold bind at 1, lift. now rewrite E.
Qed.

(** C2: whatever the model and the loader (an empty one included), when
    [update_bn] is over every submodule has the momentum it had before the
    call, not the last [b / (n + b)] of the replay; and [update_bn] does
    return when the loader is empty, or when the model has a parameter and
    the first batch a sample. *)
Theorem update_bn_restores_momenta (ld : loader) (kw : kwargs) (w : world) :
  map momentum
      (modules (the_model
         (fst (update_bn forward bn_forward reset_running_stats ld kw w))))
  = map momentum (modules (the_model w)) /\
  (batches ld = [] ->
   snd (update_bn forward bn_forward reset_running_stats ld kw w) = Ok tt) /\
  (parameters (the_model w) <> [] -> first_batch_nonempty ld ->
   snd (update_bn forward bn_forward reset_running_stats ld kw w) = Ok tt).
Proof.
  destruct (has_bn (the_model w)) eqn:Hb.
  2:{ assert (E : update_bn forward bn_forward reset_running_stats ld kw w
                  = (w, Ok tt)).
      { unfold update_bn, bind. now rewrite check_bn_spec, Hb. }
      rewrite E. repeat split. }
  rewrite (update_bn_steps ld kw w Hb). cbv zeta.
  set (ms1 := prepared reset_running_stats (modules (the_model w))).
  assert (Mo : map momentum ms1 = map momentum (modules (the_model w)))
    by apply prepared_momentum.
  assert (Restore : forall w2,
             Forall2 frame (modules (the_model w2)) ms1 ->
             exists ms3,
               apply_from restore_visitor 0 (modules (the_model w2))
                          (bn_entries 0 ms1) = (ms3, Ok (bn_entries 0 ms1)) /\
               map momentum ms3 = map momentum (modules (the_model w))).
  { intros w2 F. destruct (restore_from ms1 _ 0 [] F) as (ms3 & E & M3);
      [constructor|].
    exists ms3. split; [exact E|congruence]. }
  unfold first_batch_nonempty.
  destruct (batches ld) as [|[x t] bs].
  - cbn [for_each]. unfold ret.
    destruct (Restore (with_modules ms1 w)) as (ms3 & E & M3);
      [apply frame_refl_all|].
    rewrite E. repeat split; trivial.
  - destruct (parameters (the_model w)) as [|p ps] eqn:Ep.
    { rewrite (for_each_raise _ _ _ _ _ _
                 (update_bn_body_no_parameter kw _ x t 0 (with_modules ms1 w) Ep)).
      repeat split; trivial; congruence. }
    destruct (Z.eq_dec (size0 x) 0) as [Ex|Ex].
    { assert (Hp : parameters (the_model (with_modules ms1 w)) <> [])
        by (cbn; congruence).
      rewrite (for_each_raise _ _ _ _ _ _
                 (update_bn_body_empty_batch kw _ x t (with_modules ms1 w) Hp Ex)).
      repeat split; trivial; [congruence|]. intros _ L. lia. }
    destruct (replay_ok kw ms1 ((x, t) :: bs) 0 (with_modules ms1 w))
      as (w2 & n' & cs & E & P & O & F & C & R).
    + cbn. congruence.
    + lia.
    + generalize (size0_nonneg x). lia.
    + apply frame_refl_all.
    + rewrite E. destruct (Restore w2 F) as (ms3 & E3 & M3). rewrite E3.
      repeat split; trivial.
Qed.

Lemma replayed_four (cls : list module_class)
      (bs : list (batch tensor * batch Z)) (cs : list call) :
  map (fun xy => size0 (fst xy)) bs = [2; 2; 2; 2]%Z ->
  replayed cls 0 bs cs ->
  Forall2 applied cs [1; 1#2; 1#3; 1#4].
Proof.
  intros S R.
  destruct bs as [|[x1 t1] [|[x2 t2] [|[x3 t3] [|[x4 t4] [|? ?]]]]];
    try discriminate S.
  cbn [map fst] in S. injection S as S1 S2 S3 S4.
  destruct cs as [|[m1 y1|?] [|[m2 y2|?] [|[m3 y3|?] [|[m4 y4|?] [|? ?]]]]];
    cbn in R; try tauto.
  rewrite S1, S2, S3, S4 in R.
  destruct R as (_ & _ & B1 & _ & _ & B2 & _ & _ & B3 & _ & _ & B4 & _).
  unfold bn_momentum_is in *.
  repeat constructor; cbn [applied];
    match goal with
    | H : Forall _ (modules ?m) |- Forall _ (modules ?m) =>
        eapply Forall_impl; [|exact H]; cbv beta; intros md Hmd Bmd;
        eexists; split; [exact (Hmd Bmd)|reflexivity]
    end.
Qed.

(** C1: on a model with a batch-normalization submodule and a parameter,
    and a loader whose first batch has a sample, [update_bn] returns after
    one forward pass per batch, in order; the pass of a batch of size [b]
    is started with momentum [b / (n + b)] in every batch-normalization
    submodule, [n] being the number of samples of the batches before it (so
    [n] grows by [b] after each batch); for four batches of size 2 these
    momenta are 1, 1/2, 1/3 and 1/4. *)
Theorem update_bn_momentum_schedule (ld : loader) (kw : kwargs) (w : world) :
  has_bn (the_model w) = true ->
  parameters (the_model w) <> [] ->
  first_batch_nonempty ld ->
  exists w' cs,
    update_bn forward bn_forward reset_running_stats ld kw w = (w', Ok tt) /\
    calls w' = calls w ++ cs /\
    replayed (map class_of (modules (the_model w))) 0 (batches ld) cs /\
    (map (fun xy => size0 (fst xy)) (batches ld) = [2; 2; 2; 2]%Z ->
     Forall2 applied cs [1; 1#2; 1#3; 1#4]).
Proof.
  intros Hb Hp H1.
  rewrite (update_bn_steps ld kw w Hb). cbv zeta.
  set (ms1 := prepared reset_running_stats (modules (the_model w))).
  destruct (replay_ok kw ms1 (batches ld) 0 (with_modules ms1 w))
    as (w2 & n' & cs & E & P & O & F & C & R).
  - exact Hp.
  - lia.
  - exact H1.
  - apply frame_refl_all.
  - rewrite E.
    destruct (restore_from ms1 _ 0 [] F) as (ms3 & E3 & M3); [constructor|].
    cbn [app] in E3. rewrite E3.
    unfold ms1 in R. rewrite prepared_class in R.
    exists (with_modules ms3 w2), cs. repeat split; trivial.
    intro S. exact (replayed_four _ _ _ S R).
Qed.

End Recalibration.

Lemma update_bn_momentum_schedule_witness :
  has_bn (Toy.bn_model cpu) = true /\
  parameters (Toy.bn_model cpu) <> [] /\
  first_batch_nonempty Toy.four_batches /\
  exists w' cs,
    update_bn Toy.forward Toy.bn_forward Toy.reset_running_stats
              Toy.four_batches [] (Toy.world_of (Toy.bn_model cpu))
    = (w', Ok tt) /\
    calls w' = cs /\
    Forall2 applied cs [1; 1#2; 1#3; 1#4].
Proof.
  assert (Hp : parameters (Toy.bn_model cpu) <> []) by discriminate.
  assert (H1 : first_batch_nonempty Toy.four_batches) by reflexivity.
  split; [reflexivity|]. split; [exact Hp|]. split; [exact H1|].
  destruct (update_bn_momentum_schedule
              Toy.forward Toy.bn_forward Toy.reset_running_stats
              Toy.four_batches [] (Toy.world_of (Toy.bn_model cpu))
              eq_refl Hp H1) as (w' & cs & E & C & _ & F).
  exists w', cs. split; [exact E|]. split; [exact C|]. apply F. reflexivity.
Defined.

Lemma update_bn_restores_momenta_witness :
  map momentum
      (modules (the_model
         (fst (update_bn Toy.forward Toy.bn_forward Toy.reset_running_stats
                         Toy.four_batches []
                         (Toy.world_of (Toy.bn_model cpu))))))
  = [Some (1#10); None; Some (1#10); None].
Proof.
  exact (proj1 (update_bn_restores_momenta
                  Toy.forward Toy.bn_forward Toy.reset_running_stats
                  Toy.four_batches [] (Toy.world_of (Toy.bn_model cpu)))).
Defined.

Lemma update_bn_without_bn_witness :
  Forall (fun md => isbatchnorm md = false) (modules Toy.plain_model) /\
  update_bn Toy.forward Toy.bn_forward Toy.reset_running_stats
            Toy.four_batches [] (Toy.world_of Toy.plain_model)
  = (Toy.world_of Toy.plain_model, Ok tt).
Proof.
  assert (H : Forall (fun md => isbatchnorm md = false)
                     (modules Toy.plain_model))
    by (repeat constructor).
  split; [exact H|].
  exact (update_bn_without_bn Toy.forward Toy.bn_forward
           Toy.reset_running_stats Toy.four_batches []
           (Toy.world_of Toy.plain_model) H).
Defined.

(** The replay on the small instance: the momenta the four forward passes
    start with, and the state it leaves. *)
Example update_bn_runs :
  let r := update_bn Toy.forward Toy.bn_forward Toy.reset_running_stats
                     Toy.four_batches [] (Toy.world_of (Toy.bn_model cpu)) in
  snd r = Ok tt /\
  map (fun c => match c with
                | ModelCall m _ => map (fun md => option_map Qred (momentum md))
                                       (modules m)
                | CriterionCall _ => []
                end) (calls (fst r))
  = [[Some 1; None; Some 1; None];
     [Some (1#2); None; Some (1#2); None];
     [Some (1#3); None; Some (1#3); None];
     [Some (1#4); None; Some (1#4); None]] /\
  map momentum (modules (the_model (fst r)))
  = [Some (1#10); None; Some (1#10); None] /\
  map mod_training (modules (the_model (fst r))) = [true; true; true; true].
Proof. vm_compute. repeat split. Qed.

(** ** Predictions *)

Section Predictions.

Variable softmax : list tensor -> list tensor.

Lemma predictions_body_raises (x : batch tensor) (t : batch Z)
      (acc : list (list tensor) * list (list Z)) (w : world) :
  predictions_body softmax (x, t) acc w
  = (w, Raise (match parameters (the_model w) with
               | [] => StopIteration
               | _ :: _ => NameError "output"
               end)).
Proof.
  destruct acc as [preds targets].
  unfold predictions_body, bind at 1, first_parameter_device, bind, get_model.
  now destruct (parameters (the_model w)).
Qed.

(** C10, amended: on a loader that yields at least one batch, [predictions]
    raises on the first batch and never returns a result: the unbound name
    [output] when the model has a parameter, and [StopIteration] (from
    reading the device of the first parameter) when it has none. *)
Theorem predictions_raises (ld : loader) (kw : kwargs) (w : world) :
  batches ld <> [] ->
  (parameters (the_model w) <> [] ->
   snd (predictions softmax ld kw w) = Raise (NameError "output")) /\
  (parameters (the_model w) = [] ->
   snd (predictions softmax ld kw w) = Raise StopIteration) /\
  (forall r, snd (predictions softmax ld kw w) <> Ok r) /\
  calls (fst (predictions softmax ld kw w)) = calls w.
Proof.
  intro Hb. destruct (batches ld) as [|[x t] bs] eqn:Eb; [congruence|].
  assert (E : predictions softmax ld kw w
              = (fst (model_eval w),
                 Raise (match parameters (the_model w) with
                        | [] => StopIteration
                        | _ :: _ => NameError "output"
                        end))).
  { unfold predictions. unfold bind at 1.
    change (model_eval w) with (fst (model_eval w), Ok tt).
    cbv iota beta. unfold bind at 1. rewrite Eb.
    rewrite (for_each_raise _ _ _ _ _ _ (predictions_body_raises x t _ _)).
    reflexivity. }
  rewrite E. cbn [fst snd].
  destruct (parameters (the_model w)); repeat split;
    intros; congruence.
Qed.

End Predictions.

Lemma predictions_raises_witness :
  batches Toy.one_batch <> [] /\
  snd (predictions Toy.softmax Toy.one_batch []
                   (Toy.world_of (Toy.bn_model cpu)))
  = Raise (NameError "output").
Proof.
  assert (Hb : batches Toy.one_batch <> []) by discriminate.
  split; [exact Hb|].
  apply (predictions_raises Toy.softmax Toy.one_batch []
                            (Toy.world_of (Toy.bn_model cpu)) Hb).
  discriminate.
Defined.

(** C10, as stated, fails on a model without parameters: the first batch
    raises [StopIteration], not the unbound-name error. *)
Lemma predictions_without_parameters :
  snd (predictions Toy.softmax Toy.one_batch [] (Toy.world_of Toy.bare_model))
  = Raise StopIteration /\
  snd (predictions Toy.softmax Toy.one_batch [] (Toy.world_of Toy.bare_model))
  <> Raise (NameError "output").
Proof. split; [reflexivity|discriminate]. Qed.

(** ** The train loop and the device of its tensors *)

(** C5: [train] calls [to(device)] on the input and the target and drops
    the results, so the forward pass and the criterion consume the tensors
    as the loader yielded them.  With a model on [cuda] and a batch on [cpu]
    both calls receive [cpu] tensors, where [new_train], which passes the
    moved tensors on, gives them [cuda] tensors. *)
Theorem train_keeps_loader_device :
  let w := Toy.world_of (Toy.bn_model cuda) in
  let run_train :=
    train Toy.forward Toy.bn_forward Toy.autograd Toy.update_rule
          Toy.next_state Toy.one_batch Toy.criterion None None w in
  let run_new_train :=
    new_train Toy.forward Toy.bn_forward Toy.autograd Toy.update_rule
              Toy.next_state Toy.one_batch Toy.criterion None None w in
  first_parameter_device w = (w, Ok cuda) /\
  map call_device (calls (fst run_train)) = [cpu; cpu] /\
  map call_device (calls (fst run_new_train)) = [cuda; cuda].
Proof. vm_compute. repeat split. Qed.

(** ** Counting the correct predictions *)

Lemma argmax_rows_ok (output : list tensor) :
  Forall (fun row => row <> []) output ->
  argmax_rows output = Ok (map predicted_class output).
Proof.
  induction 1 as [|row output Hr _ IH]; simpl; trivial.
  rewrite IH. unfold predicted_class.
  destruct row as [|v row]; [congruence|reflexivity].
Qed.

Lemma count_true_from (bs : list bool) (a : Z) :
  fold_left (fun n (b : bool) => if b then (n + 1)%Z else n) bs a
  = (a + fold_left (fun n (b : bool) => if b then (n + 1)%Z else n) bs 0)%Z.
Proof.
  revert a. induction bs as [|b bs IH]; intro a; simpl; [lia|].
  rewrite IH. rewrite (IH (if b then 1%Z else 0%Z)). destruct b; lia.
Qed.

Lemma eq_sum_ok (output : list tensor) (target : batch Z) :
  length output = length (items target) ->
  eq_sum (map predicted_class output) target
  = Ok (inject_Z (correct_count output (items target))).
Proof.
  intro L. unfold eq_sum. rewrite length_map, L, Nat.eqb_refl.
  do 2 f_equal. clear L. generalize (items target) as ys.
  induction output as [|row output IH]; intros [|y ys]; simpl; trivial.
  rewrite count_true_from, IH.
  destruct (predicted_class row =? y)%Z; lia.
Qed.

(** ** The arg-max class *)

(** The search of [argmax_from]: [best] is the score at [besti], the
    first of the largest scores among the [k] scores already seen. *)
Lemma argmax_from_largest (rest pre : tensor) (best : Q) (besti k : nat) :
  k = length pre ->
  (besti < k)%nat ->
  best = nth besti pre 0 ->
  (forall j, (j < k)%nat -> nth j pre 0 <= best) ->
  (forall j, (j < besti)%nat -> nth j pre 0 < best) ->
  let row := pre ++ rest in
  let i := argmax_from best besti k rest in
  (i < length row)%nat /\
  (forall j, (j < length row)%nat -> nth j row 0 <= nth i row 0) /\
  (forall j, (j < i)%nat -> nth j row 0 < nth i row 0).
Proof.
  revert pre best besti k.
  induction rest as [|v rest IH]; intros pre best besti k Hk Hi Hb Hle Hlt.
  - cbn [argmax_from]. rewrite app_nil_r. subst k best.
    split; [exact Hi|]. split; [exact Hle|exact Hlt].
  - cbn [argmax_from].
    assert (App : pre ++ v :: rest = (pre ++ [v]) ++ rest)
      by (rewrite <- app_assoc; reflexivity).
    assert (Len : S k = length (pre ++ [v]))
      by (rewrite length_app; cbn [length]; lia).
    assert (Last : nth k (pre ++ [v]) 0 = v).
    { subst k. rewrite app_nth2 by lia. now rewrite Nat.sub_diag. }
    assert (Old : forall j, (j < k)%nat -> nth j (pre ++ [v]) 0 = nth j pre 0).
    { intros j Hj. apply app_nth1. lia. }
    destruct (Qltb best v) eqn:E; rewrite App.
    + apply Qltb_lt in E.
      apply IH; trivial; [lia|now rewrite Last| |].
      * intros j Hj. destruct (Nat.eq_dec j k) as [->|Hne].
        -- rewrite Last. apply Qle_refl.
        -- rewrite Old by lia. apply Qlt_le_weak.
           apply Qle_lt_trans with best; [apply Hle; lia|exact E].
      * intros j Hj. rewrite Old by lia.
        apply Qle_lt_trans with best; [apply Hle; lia|exact E].
    + apply Qltb_ge in E.
      apply IH; trivial; [lia|rewrite Old by lia; exact Hb| |].
      * intros j Hj. destruct (Nat.eq_dec j k) as [->|Hne].
        -- now rewrite Last.
        -- rewrite Old by lia. apply Hle. lia.
      * intros j Hj. rewrite Old by lia. now apply Hlt.
Qed.

(** On a row that has a score, [argmax] returns the arg-max class. *)
Lemma argmax_largest (row : tensor) :
  row <> [] -> exists c, argmax row = Ok c /\ largest_at row c.
Proof.
  destruct row as [|v row]; [congruence|]. intros _.
  eexists. split; [reflexivity|].
  destruct (argmax_from_largest row [v] v 0 1) as (I & Le & Lt);
    trivial; cbn [length]; try lia.
  - intros j Hj. assert (j = 0)%nat as -> by lia. apply Qle_refl.
  - change ([v] ++ row) with (v :: row) in *.
    unfold largest_at. rewrite Nat2Z.id.
    split; [lia|]. split; [exact Le|exact Lt].
Qed.

(** A row has one arg-max class at most. *)
Lemma largest_at_unique (row : tensor) (c c' : Z) :
  largest_at row c -> largest_at row c' -> c = c'.
Proof.
  intros (R & Le & Lt) (R' & Le' & Lt').
  destruct (Z.lt_trichotomy c c') as [H|[H|H]]; trivial; exfalso.
  - assert (L := Lt' (Z.to_nat c) ltac:(lia)).
    assert (G := Le (Z.to_nat c') ltac:(lia)).
    apply (Qlt_irrefl (nth (Z.to_nat c) row 0)).
    apply Qlt_le_trans with (nth (Z.to_nat c') row 0); trivial.
  - assert (L := Lt (Z.to_nat c') ltac:(lia)).
    assert (G := Le' (Z.to_nat c) ltac:(lia)).
    apply (Qlt_irrefl (nth (Z.to_nat c') row 0)).
    apply Qlt_le_trans with (nth (Z.to_nat c) row 0); trivial.
Qed.

Lemma is_largest_at_spec (row : tensor) (c : Z) :
  is_largest_at row c = true <-> largest_at row c.
Proof.
  unfold is_largest_at, largest_at.
  rewrite !andb_true_iff, !forallb_forall, Z.leb_le, Z.ltb_lt.
  split.
  - intros (((H0 & H1) & Le) & Lt). split; [lia|]. split.
    + intros j Hj. apply Qle_bool_iff. apply Le. apply in_seq. lia.
    + intros j Hj. apply Qltb_lt. apply Lt. apply in_seq. lia.
  - intros ((H0 & H1) & Le & Lt). repeat split; trivial.
    + intros j Hj. apply in_seq in Hj. apply Qle_bool_iff. apply Le. lia.
    + intros j Hj. apply in_seq in Hj. apply Qltb_lt. apply Lt. lia.
Qed.

(** The class the loop compares with the target is the arg-max class. *)
Lemma predicted_class_largest (row : tensor) (y : Z) :
  row <> [] -> (predicted_class row =? y)%Z = is_largest_at row y.
Proof.
  intro Hr. destruct (argmax_largest row Hr) as (c & E & L).
  unfold predicted_class. rewrite E.
  destruct (is_largest_at row y) eqn:I.
  - apply is_largest_at_spec in I. apply Z.eqb_eq.
    exact (largest_at_unique row c y L I).
  - apply Z.eqb_neq. intros ->.
    apply is_largest_at_spec in L. congruence.
Qed.

Lemma correct_count_hits (output : list tensor) (labels : list Z) :
  Forall (fun row => row <> []) output ->
  correct_count output labels = hits output labels.
Proof.
  intro H. revert labels.
  induction H as [|row output Hr _ IH]; intros [|y ys];
    cbn [correct_count hits]; trivial.
  now rewrite IH, predicted_class_largest.
Qed.

Lemma correct_total_hits
  (forward : model -> kwargs -> batch tensor -> list tensor) (kw : kwargs)
  (bs : list (batch tensor * batch Z)) :
  well_shaped forward kw bs ->
  forall ms, correct_total forward kw ms bs = hits_total forward kw ms bs.
Proof.
  induction bs as [|[x t] bs IH]; intros Hs [|m ms];
    cbn [correct_total hits_total]; trivial.
  rewrite IH.
  - rewrite correct_count_hits; trivial. apply (Hs m x t). now left.
  - intros m' x' t' Hin. apply Hs. now right.
Qed.

(** Of two equal largest scores the first one is the arg-max class, and a
    target outside the row is never one. *)
Example largest_at_first_of_ties :
  argmax [1; 3; 3; 2] = Ok 1%Z /\
  is_largest_at [1; 3; 3; 2] 1 = true /\
  is_largest_at [1; 3; 3; 2] 2 = false /\
  is_largest_at [1; 3; 3; 2] 4 = false /\
  hits [[1; 3; 3; 2]; [5; 1]; [0; 7]] [1%Z; 1%Z; 1%Z] = 2%Z.
Proof. vm_compute. repeat split. Qed.

(** ** The eval loop *)

Lemma mapi_from_id {A : Type} (f : nat -> A -> A) (l : list A) :
  (forall k x, In x l -> f k x = x) -> forall k, mapi_from f k l = l.
Proof.
  induction l as [|x l IH]; intros H k; simpl; trivial.
  rewrite H by now left. rewrite IH; trivial. intros; apply H; now right.
Qed.

Lemma add_calls_nil (w : world) : add_calls [] w = w.
Proof. destruct w. unfold add_calls. simpl. now rewrite app_nil_r. Qed.

Lemma add_calls_app (cs cs' : list call) (w : world) :
  add_calls cs' (add_calls cs w) = add_calls (cs ++ cs') w.
Proof. unfold add_calls. simpl. now rewrite app_assoc. Qed.

Section Evaluation.

Variable forward : model -> kwargs -> batch tensor -> list tensor.
Variable bn_forward : model -> kwargs -> batch tensor -> nat -> stats.

Lemma track_eval (m : model) (kw : kwargs) (x : batch tensor) :
  eval_mode m -> set_modules (track bn_forward m kw x) m = m.
Proof.
  intro H. unfold track, mapi. rewrite mapi_from_id.
  - now destruct m.
  - intros k md Hin. unfold eval_mode in H. rewrite Forall_forall in H.
    now rewrite (H md Hin).
Qed.

Lemma in_eval_mode_eval (m : model) : eval_mode (in_eval_mode m).
Proof.
  unfold eval_mode, in_eval_mode. simpl. apply Forall_forall.
  intros md H. apply in_map_iff in H. now destruct H as (md0 & <- & _).
Qed.

(** One iteration of the eval loop: the world it leaves, whatever the
    outcome, and the outcome when the scores have the shape of the
    targets. *)
Lemma test_body_spec (criterion : list tensor -> batch Z -> Q)
      (regularizer : option (model -> Q)) (kw : kwargs) (d : device)
      (x : batch tensor) (t : batch Z) (acc : Q * Q * Q) (w : world) :
  eval_mode (the_model w) ->
  let m := the_model w in
  exists r,
    test_body forward bn_forward criterion regularizer kw d (x, t) acc w
    = (add_calls [ModelCall m x; CriterionCall t] w, r) /\
    (length (forward m kw x) = length (items t) ->
     Forall (fun row => row <> []) (forward m kw x) ->
     exists v, r = Ok v).
Proof.
  intros He m. destruct acc as [[loss_sum nll_sum] correct].
  unfold test_body, bind at 1, call_model, bind at 1, get_model.
  unfold bind at 1, record_call. unfold bind at 1, put_model.
  cbn [the_model the_optimizer calls]. fold m. rewrite (track_eval m kw x He).
  unfold ret at 1. unfold bind at 1, call_criterion, bind at 1, record_call.
  unfold ret at 1. cbn [the_model the_optimizer calls].
  rewrite <- app_assoc. cbn [app].
  change {| the_model := m; the_optimizer := the_optimizer w;
            calls := calls w ++ [ModelCall m x; CriterionCall t] |}
    with (add_calls [ModelCall m x; CriterionCall t] w).
  set (w1 := add_calls _ w).
  assert (R : forall loss : Q,
             exists r,
               (pred <- lift (argmax_rows (forward m kw x)) ;;
                n <- lift (eq_sum pred t) ;;
                ret (loss_sum + loss * inject_Z (size0 x),
                     nll_sum + criterion (forward m kw x) t * inject_Z (size0 x),
                     correct + n)) w1 = (w1, r) /\
               (length (forward m kw x) = length (items t) ->
                Forall (fun row => row <> []) (forward m kw x) ->
                exists v, r = Ok v)).
  { intro loss. unfold bind, lift, ret.
    destruct (argmax_rows (forward m kw x)) as [pred|e] eqn:Ea.
    - destruct (eq_sum pred t) as [n|e] eqn:Es.
      + eexists. split; [reflexivity|]. intros. eexists. reflexivity.
      + eexists. split; [reflexivity|]. intros L Hr.
        rewrite (argmax_rows_ok _ Hr) in Ea. injection Ea as <-.
        rewrite (eq_sum_ok _ _ L) in Es. discriminate.
    - eexists. split; [reflexivity|]. intros L Hr.
      rewrite (argmax_rows_ok _ Hr) in Ea. discriminate. }
  destruct regularizer as [reg|].
  - unfold bind at 1, bind at 1, get_model, ret at 1. apply R.
  - unfold bind at 1, ret at 1. apply R.
Qed.

Lemma passes_repeat_cons (m : model) (k : nat) (x : batch tensor)
      (t : batch Z) (bs : list (batch tensor * batch Z)) :
  passes (repeat m (S k)) ((x, t) :: bs)
  = [ModelCall m x; CriterionCall t] ++ passes (repeat m k) bs.
Proof. reflexivity. Qed.

(** The eval loop: it only adds to the log, one forward pass and one call
    of the criterion per batch, all on the same model, up to the batch
    where it raises, if any. *)
Lemma test_loop_spec (criterion : list tensor -> batch Z -> Q)
      (regularizer : option (model -> Q)) (kw : kwargs) (d : device) :
  forall (bs : list (batch tensor * batch Z)) (acc : Q * Q * Q) (w : world),
    eval_mode (the_model w) ->
    exists k r,
      for_each (test_body forward bn_forward criterion regularizer kw d)
               bs acc w
      = (add_calls (passes (repeat (the_model w) k) bs) w, r) /\
      (k <= length bs)%nat /\
      (well_shaped forward kw bs -> k = length bs /\ exists v, r = Ok v).
Proof.
  induction bs as [|[x t] bs IH]; intros acc w He.
  - exists 0%nat, (Ok acc). cbn. rewrite add_calls_nil.
    repeat split; trivial. eexists; reflexivity.
  - rewrite for_each_cons. unfold bind.
    destruct (test_body_spec criterion regularizer kw d x t acc w He)
      as (r & E & Hr).
    rewrite E. destruct r as [v|e].
    + destruct (IH v (add_calls [ModelCall (the_model w) x; CriterionCall t] w)
                   He) as (k & r & E' & Hk & Hs).
      exists (S k), r. rewrite E', add_calls_app. cbn [the_model add_calls].
      rewrite passes_repeat_cons. repeat split; trivial.
      * cbn. lia.
      * cbn [length]. f_equal. apply Hs. intros m' x' t' Hin. apply H.
        now right.
      * apply Hs. intros m' x' t' Hin. apply H. now right.
    + exists 1%nat, (Raise e). cbn [repeat passes]. repeat split.
      * cbn. lia.
      * exfalso. destruct (H (the_model w) x t (or_introl eq_refl)) as [L F].
        destruct (Hr L F) as [v Hv]. discriminate.
      * exfalso. destruct (H (the_model w) x t (or_introl eq_refl)) as [L F].
        destruct (Hr L F) as [v Hv]. discriminate.
Qed.

(** [test], step by step. *)
Lemma test_steps (ld : loader) (criterion : list tensor -> batch Z -> Q)
      (regularizer : option (model -> Q)) (kw : kwargs) (w : world) :
  let w0 := {| the_model := in_eval_mode (the_model w);
               the_optimizer := the_optimizer w; calls := calls w |} in
  let n := inject_Z (dataset_len ld) in
  test forward bn_forward ld criterion regularizer kw w
  = match parameters (the_model w) with
    | [] => (w0, Raise StopIteration)
    | p :: _ =>
        match for_each (test_body forward bn_forward criterion regularizer kw
                                  (p_device p))
                       (batches ld) (0, 0, 0) w0 with
        | (w1, Ok (loss_sum, nll_sum, correct)) =>
            (w1,
             match py_div nll_sum n, py_div loss_sum n,
                   py_div (correct * 100) n with
             | Ok nll, Ok loss, Ok accuracy =>
                 Ok [("nll"%string, nll); ("loss"%string, loss);
                     ("accuracy"%string, accuracy)]
             | Raise e, _, _ => Raise e
             | _, Raise e, _ => Raise e
             | _, _, Raise e => Raise e
             end)
        | (w1, Raise e) => (w1, Raise e)
        end
    end.
Proof.
  intros w0 n.
  unfold test, bind at 1, model_eval, bind at 1, get_model, put_model.
  fold (in_eval_mode (the_model w)). fold w0.
  unfold bind at 1, first_parameter_device, bind at 1, get_model.
  change (parameters (the_model w0)) with (parameters (the_model w)).
  destruct (parameters (the_model w)) as [|p ps]; [reflexivity|].
  unfold ret at 1. unfold bind at 1.
  destruct (for_each _ _ _ _) as [w1 [[[ls ns] c]|e]]; [|reflexivity].
  unfold bind, lift, ret. fold n.
  destruct (py_div ns n), (py_div ls n), (py_div (c * 100) n); reflexivity.
Qed.

(** C4: [test] puts the model in evaluation mode and leaves it exactly so:
    the parameters (values and gradients) and the optimizer are as before
    the call, and no running statistic has moved; every forward pass of the
    loop starts in that same model; and, when the model has a parameter,
    the scores have the shape of the targets and the dataset is not empty,
    [test] returns after one forward pass per batch. *)
Theorem test_changes_no_parameter
  (ld : loader) (criterion : list tensor -> batch Z -> Q)
  (regularizer : option (model -> Q)) (kw : kwargs) (w : world) :
  let run := test forward bn_forward ld criterion regularizer kw w in
  let m := in_eval_mode (the_model w) in
  the_model (fst run) = m /\
  parameters (the_model (fst run)) = parameters (the_model w) /\
  eval_mode (the_model (fst run)) /\
  the_optimizer (fst run) = the_optimizer w /\
  (exists k, (k <= length (batches ld))%nat /\
             calls (fst run) = calls w ++ passes (repeat m k) (batches ld)) /\
  (parameters (the_model w) <> [] ->
   well_shaped forward kw (batches ld) ->
   dataset_len ld <> 0%Z ->
   (exists r, snd run = Ok r) /\
   calls (fst run)
   = calls w ++ passes (repeat m (length (batches ld))) (batches ld)).
Proof.
  intros run m. unfold run. rewrite test_steps. cbv zeta. fold m.
  set (w0 := {| the_model := m; the_optimizer := the_optimizer w;
                calls := calls w |}).
  assert (He : eval_mode (the_model w0)) by apply in_eval_mode_eval.
  assert (Pm : parameters m = parameters (the_model w)) by reflexivity.
  destruct (parameters (the_model w)) as [|p ps] eqn:Ep.
  - cbn [fst snd the_model the_optimizer calls w0].
    split; [reflexivity|]. split; [exact Pm|]. split; [exact He|].
    split; [reflexivity|]. split.
    + exists 0%nat. split; [lia|]. cbn. now rewrite app_nil_r.
    + congruence.
  - destruct (test_loop_spec criterion regularizer kw (p_device p)
                (batches ld) (0, 0, 0) w0 He) as (k & r & E & Hk & Hs).
    rewrite E.
    split; [|split; [|split; [|split; [|split]]]].
    + destruct r as [[[ls ns] c]|e]; reflexivity.
    + destruct r as [[[ls ns] c]|e]; exact Pm.
    + destruct r as [[[ls ns] c]|e]; exact He.
    + destruct r as [[[ls ns] c]|e]; reflexivity.
    + exists k. split; trivial. destruct r as [[[ls ns] c]|e]; reflexivity.
    + intros _ Hw HN. destruct (Hs Hw) as [-> [[[ls ns] c] ->]]. split.
      * cbn [snd]. rewrite !py_div_ok by trivial. eexists. reflexivity.
      * reflexivity.
Qed.

End Evaluation.

Lemma toy_well_shaped (bs : list (batch tensor * batch Z)) :
  Forall (fun xy => length (items (fst xy)) = length (items (snd xy)) /\
                    Forall (fun row => row <> []) (items (fst xy))) bs ->
  well_shaped Toy.forward [] bs.
Proof.
  intros H m x t Hin. rewrite Forall_forall in H. exact (H (x, t) Hin).
Qed.

Lemma test_changes_no_parameter_witness :
  let run := test Toy.forward Toy.bn_forward Toy.four_batches Toy.criterion
                  (Some (fun m => l2_regularizer qsqrt (1#10)
                                    (map p_data (parameters m))))
                  [] (Toy.world_of (Toy.bn_model cpu)) in
  parameters (the_model (fst run)) = [Toy.parameter_on cpu] /\
  eval_mode (the_model (fst run)) /\
  exists r, snd run = Ok r.
Proof.
  intro run.
  destruct (test_changes_no_parameter
              Toy.forward Toy.bn_forward Toy.four_batches Toy.criterion
              (Some (fun m => l2_regularizer qsqrt (1#10)
                                (map p_data (parameters m))))
              [] (Toy.world_of (Toy.bn_model cpu)))
    as (_ & P & E & _ & _ & R).
  split; [exact P|]. split; [exact E|].
  apply R.
  - discriminate.
  - apply toy_well_shaped. repeat constructor; discriminate.
  - discriminate.
Defined.

(** ** The train loop *)

Lemma bind_ok {A B : Type} (m : M A) (f : A -> M B) (w w1 : world) (a : A) :
  m w = (w1, Ok a) -> bind m f w = f a w1.
Proof. intro H. unfold bind. now rewrite H. Qed.

Lemma mapi_nonempty {A B : Type} (f : nat -> A -> B) (l : list A) :
  l <> [] -> mapi f l <> [].
Proof. destruct l; [congruence|discriminate]. Qed.

Lemma adjust_learning_rate_spec (v : Q) (w : world) :
  exists w', adjust_learning_rate v w = (w', Ok v) /\
             the_model w' = the_model w /\ calls w' = calls w.
Proof. eexists. repeat split. Qed.

Lemma zero_grad_spec (w : world) :
  exists w', zero_grad w = (w', Ok tt) /\ calls w' = calls w /\
             (parameters (the_model w) <> [] ->
              parameters (the_model w') <> []).
Proof.
  eexists. split; [reflexivity|]. split; [reflexivity|].
  cbn. apply mapi_nonempty.
Qed.

Section Training.

Variable forward : model -> kwargs -> batch tensor -> list tensor.
Variable bn_forward : model -> kwargs -> batch tensor -> nat -> stats.
Variable autograd : (model -> Q) -> model -> nat -> tensor.
Variable update_rule : optimizer -> nat -> parameter -> tensor.
Variable next_state : optimizer -> list parameter -> list tensor.

Lemma call_model_spec (kw : kwargs) (x : batch tensor) (w : world) :
  exists w',
    call_model forward bn_forward kw x w
    = (w', Ok (forward (the_model w) kw x)) /\
    calls w' = calls w ++ [ModelCall (the_model w) x] /\
    the_model w' = after_forward bn_forward (the_model w) kw x.
Proof. eexists. repeat split. Qed.

Lemma call_criterion_spec (criterion : list tensor -> batch Z -> Q)
      (output : list tensor) (t : batch Z) (w : world) :
  exists w',
    call_criterion criterion output t w = (w', Ok (criterion output t)) /\
    calls w' = calls w ++ [CriterionCall t] /\
    the_model w' = the_model w.
Proof. eexists. repeat split. Qed.

Lemma backward_spec (f : model -> Q) (w : world) :
  exists w', backward autograd f w = (w', Ok tt) /\ calls w' = calls w /\
             (parameters (the_model w) <> [] ->
              parameters (the_model w') <> []).
Proof.
  eexists. split; [reflexivity|]. split; [reflexivity|].
  cbn. apply mapi_nonempty.
Qed.

Lemma optimizer_step_spec (w : world) :
  exists w', optimizer_step update_rule next_state w = (w', Ok tt) /\
             calls w' = calls w /\
             (parameters (the_model w) <> [] ->
              parameters (the_model w') <> []).
Proof.
  eexists. split; [reflexivity|]. split; [reflexivity|].
  cbn. apply mapi_nonempty.
Qed.

(** One iteration of the train loop, when the model has a parameter and
    the scores have the shape of the targets. *)
Lemma train_body_ok (criterion : list tensor -> batch Z -> Q)
      (regularizer : option (model -> Q)) (lr_schedule : option (Q -> Q))
      (num_iters : Z) (i : nat) (x : batch tensor) (t : batch Z)
      (loss_sum correct : Q) (w : world) :
  num_iters <> 0%Z ->
  parameters (the_model w) <> [] ->
  (forall m, length (forward m [] x) = length (items t) /\
             Forall (fun row => row <> []) (forward m [] x)) ->
  exists w' m loss_sum' correct',
    train_body forward bn_forward autograd update_rule next_state
               criterion regularizer lr_schedule num_iters
               (i, (x, t)) (loss_sum, correct) w
    = (w', Ok (loss_sum', correct')) /\
    loss_sum' == loss_sum
                 + batch_loss forward bn_forward criterion regularizer [] m x t
                   * inject_Z (size0 x) /\
    correct' == correct
                + inject_Z (correct_count (forward m [] x) (items t)) /\
    calls w' = calls w ++ [ModelCall m x; CriterionCall t] /\
    parameters (the_model w') <> [].
Proof.
  intros Hn Hp Hs. unfold train_body.
  (* the learning rate *)
  assert (S1 : exists wA v,
             match lr_schedule with
             | Some schedule =>
                 x <- lift (py_div (inject_Z (Z.of_nat i)) (inject_Z num_iters)) ;;
                 adjust_learning_rate (schedule x)
             | None => ret 0
             end w = (wA, Ok v) /\
             the_model wA = the_model w /\ calls wA = calls w).
  { destruct lr_schedule as [schedule|].
    - unfold bind at 1, lift. rewrite py_div_ok by trivial.
      destruct (adjust_learning_rate_spec
                  (schedule (inject_Z (Z.of_nat i) / inject_Z num_iters)) w)
        as (wA & E & Hm & Hc).
      exists wA. eexists. split; [exact E|]. now split.
    - exists w, 0. repeat split. }
  destruct S1 as (wA & v & E1 & M1 & C1). rewrite (bind_ok _ _ _ _ _ E1).
  (* the device *)
  assert (E2 : exists d, first_parameter_device wA = (wA, Ok d)).
  { unfold first_parameter_device, bind, get_model. rewrite M1.
    destruct (parameters (the_model w)); [congruence|]. eexists; reflexivity. }
  destruct E2 as (d & E2). rewrite (bind_ok _ _ _ _ _ E2). cbv zeta.
  (* zero_grad, forward, criterion *)
  destruct (zero_grad_spec wA) as (wB & E3 & C3 & P3).
  rewrite (bind_ok _ _ _ _ _ E3).
  destruct (call_model_spec [] x wB) as (wC & E4 & C4 & M4).
  rewrite (bind_ok _ _ _ _ _ E4).
  set (m := the_model wB) in *.
  destruct (call_criterion_spec criterion (forward m [] x) t wC)
    as (wD & E5 & C5 & M5).
  rewrite (bind_ok _ _ _ _ _ E5).
  (* the regularizer *)
  assert (E6 : exists loss,
             match regularizer with
             | Some reg =>
                 m0 <- get_model ;; ret (criterion (forward m [] x) t + reg m0)
             | None => ret (criterion (forward m [] x) t)
             end wD = (wD, Ok loss) /\
             loss == batch_loss forward bn_forward criterion regularizer
                                [] m x t).
  { unfold batch_loss. destruct regularizer as [reg|].
    - eexists. split; [reflexivity|]. cbn [the_model]. rewrite M5, M4.
      reflexivity.
    - eexists. split; [reflexivity|]. ring. }
  destruct E6 as (loss & E6 & L6). rewrite (bind_ok _ _ _ _ _ E6).
  (* backward, step *)
  destruct (backward_spec
              (fun m0 => criterion (forward m0 [] x) t
                         + reg_value regularizer m0) wD)
    as (wE & E7 & C7 & P7).
  rewrite (bind_ok _ _ _ _ _ E7).
  destruct (optimizer_step_spec wE) as (wF & E8 & C8 & P8).
  rewrite (bind_ok _ _ _ _ _ E8).
  (* the counts *)
  destruct (Hs m) as [Hl Hr].
  unfold bind, lift, ret. rewrite (argmax_rows_ok _ Hr), (eq_sum_ok _ _ Hl).
  exists wF, m. eexists. eexists. split; [reflexivity|].
  split; [now rewrite L6|]. split; [reflexivity|]. split.
  - rewrite C8, C7, C5, C4, C3, C1. now rewrite <- app_assoc.
  - apply P8, P7. rewrite M5, M4. cbn [after_forward set_modules parameters].
    apply P3. now rewrite M1.
Qed.

(** The train loop, from iteration [k] on. *)
Lemma train_loop_ok (criterion : list tensor -> batch Z -> Q)
      (regularizer : option (model -> Q)) (lr_schedule : option (Q -> Q))
      (num_iters : Z) :
  num_iters <> 0%Z ->
  forall (bs : list (batch tensor * batch Z)) (k : nat)
         (loss_sum correct : Q) (w : world),
    parameters (the_model w) <> [] ->
    well_shaped forward [] bs ->
    exists w' ms loss_sum' correct',
      for_each (train_body forward bn_forward autograd update_rule next_state
                           criterion regularizer lr_schedule num_iters)
               (mapi_from (fun i b => (i, b)) k bs) (loss_sum, correct) w
      = (w', Ok (loss_sum', correct')) /\
      length ms = length bs /\
      calls w' = calls w ++ passes ms bs /\
      loss_sum' == loss_sum
                   + loss_total forward bn_forward criterion regularizer []
                                ms bs /\
      correct' == correct + inject_Z (correct_total forward [] ms bs).
Proof.
  intros Hn. induction bs as [|[x t] bs IH]; intros k loss_sum correct w Hp Hs.
  - exists w, [], loss_sum, correct. cbn. rewrite app_nil_r.
    repeat split; ring.
  - cbn [mapi_from]. rewrite for_each_cons.
    destruct (train_body_ok criterion regularizer lr_schedule num_iters
                k x t loss_sum correct w Hn Hp)
      as (w1 & m & ls1 & c1 & E & L & C & Cs & P).
    { intro m. apply Hs. now left. }
    rewrite (bind_ok _ _ _ _ _ E).
    destruct (IH (S k) ls1 c1 w1 P) as (w' & ms & ls' & c' & E' & Len & Cs' & L' & C').
    { intros m' x' t' Hin. apply Hs. now right. }
    exists w', (m :: ms), ls', c'. split; [exact E'|].
    split; [cbn; now rewrite Len|]. split; [|split].
    + rewrite Cs', Cs. rewrite <- app_assoc. reflexivity.
    + rewrite L', L. cbn [loss_total]. ring.
    + rewrite C', C. cbn [correct_total]. rewrite inject_Z_plus. ring.
Qed.

(** C6: on a model with a parameter, a loader whose dataset has [N]
    samples, [N] not zero, and scores that have the shape of the targets,
    [train] returns [{loss: S / N, accuracy: 100 * C / N}] after one forward
    pass per batch: [S] is the sum over the batches of the loss value (the
    criterion's output, plus the regularizer's value when there is one)
    times the batch size, and [C] the number of samples whose target is
    the arg-max class of their scores ([largest_at]: the position of a
    largest score, the first of them), each batch being scored in the
    state [ms] of the model in which its forward pass started. *)
Theorem train_returns_averages
  (ld : loader) (criterion : list tensor -> batch Z -> Q)
  (regularizer : option (model -> Q)) (lr_schedule : option (Q -> Q))
  (w : world) :
  batches ld <> [] ->
  parameters (the_model w) <> [] ->
  well_shaped forward [] (batches ld) ->
  dataset_len ld <> 0%Z ->
  exists w' ms loss accuracy,
    train forward bn_forward autograd update_rule next_state
          ld criterion regularizer lr_schedule w
    = (w', Ok [("loss"%string, loss); ("accuracy"%string, accuracy)]) /\
    length ms = length (batches ld) /\
    calls w' = calls w ++ passes ms (batches ld) /\
    loss == loss_total forward bn_forward criterion regularizer []
                       ms (batches ld)
            / inject_Z (dataset_len ld) /\
    accuracy == 100 * inject_Z (hits_total forward [] ms (batches ld))
                / inject_Z (dataset_len ld).
Proof.
  intros Hb Hp Hs HN. unfold train.
  assert (E0 : exists w0, model_train w = (w0, Ok tt) /\
                          calls w0 = calls w /\
                          parameters (the_model w0) <> []).
  { eexists. split; [reflexivity|]. split; [reflexivity|exact Hp]. }
  destruct E0 as (w0 & E0 & C0 & P0). rewrite (bind_ok _ _ _ _ _ E0).
  assert (Hn : Z.of_nat (length (batches ld)) <> 0%Z).
  { destruct (batches ld); [congruence|]. cbn [length]. lia. }
  destruct (train_loop_ok criterion regularizer lr_schedule _ Hn
              (batches ld) 0 0 0 w0 P0 Hs)
    as (w' & ms & ls & c & E & Len & Cs & L & C).
  unfold enumerate, mapi. rewrite (bind_ok _ _ _ _ _ E).
  unfold bind, lift, ret. rewrite !py_div_ok by trivial.
  exists w', ms. eexists. eexists. split; [reflexivity|].
  split; [exact Len|]. split; [now rewrite Cs, C0|]. split.
  - rewrite L. now rewrite Qplus_0_l.
  - rewrite <- (correct_total_hits _ _ _ Hs ms).
    rewrite C. rewrite Qplus_0_l. field.
    intro Z0. apply HN. unfold Qeq in Z0. simpl in Z0. lia.
Qed.

End Training.

Lemma train_returns_averages_witness :
  batches Toy.four_batches <> [] /\
  parameters (Toy.bn_model cpu) <> [] /\
  well_shaped Toy.forward [] (batches Toy.four_batches) /\
  dataset_len Toy.four_batches <> 0%Z /\
  exists w' loss accuracy,
    train Toy.forward Toy.bn_forward Toy.autograd Toy.update_rule
          Toy.next_state Toy.four_batches Toy.criterion
          (Some (fun m => l2_regularizer qsqrt (1#10)
                            (map p_data (parameters m))))
          (Some (fun i => (1#100) + i * (4#100)))
          (Toy.world_of (Toy.bn_model cpu))
    = (w', Ok [("loss"%string, loss); ("accuracy"%string, accuracy)]).
Proof.
  assert (Hb : batches Toy.four_batches <> []) by discriminate.
  assert (Hp : parameters (Toy.bn_model cpu) <> []) by discriminate.
  assert (Hs : well_shaped Toy.forward [] (batches Toy.four_batches))
    by (apply toy_well_shaped; repeat constructor; discriminate).
  assert (HN : dataset_len Toy.four_batches <> 0%Z) by discriminate.
  split; [exact Hb|]. split; [exact Hp|]. split; [exact Hs|].
  split; [exact HN|].
  destruct (train_returns_averages
              Toy.forward Toy.bn_forward Toy.autograd Toy.update_rule
              Toy.next_state Toy.four_batches Toy.criterion
              (Some (fun m => l2_regularizer qsqrt (1#10)
                                (map p_data (parameters m))))
              (Some (fun i => (1#100) + i * (4#100)))
              (Toy.world_of (Toy.bn_model cpu)) Hb Hp Hs HN)
    as (w' & ms & loss & accuracy & E & _).
  exists w', loss, accuracy. exact E.
Defined.

(** The train loop on the small instance: every batch has one sample out
    of two right, so the accuracy is 50; the learning rate left in the
    optimizer is the schedule's at [3 / 4]. *)
Example train_runs :
  let run := train Toy.forward Toy.bn_forward Toy.autograd Toy.update_rule
                   Toy.next_state Toy.four_batches Toy.criterion None
                   (Some (fun i => (1#100) + i * (4#100)))
                   (Toy.world_of (Toy.bn_model cpu)) in
  match snd run with
  | Ok [(_, loss); (_, accuracy)] => loss == 11#12 /\ accuracy == 50
  | _ => False
  end /\
  map (fun g => Qred (lr g)) (param_groups (the_optimizer (fst run)))
  = [1#25].
Proof. vm_compute. repeat split. Qed.

(** * Further properties *)

(** ** The rate setter *)

(** X1: [adjust_learning_rate] returns the rate it was given and leaves it
    in every parameter group; the groups keep their number and their
    parameters, and the optimizer's buffers, the model and the log are
    untouched; setting the same rate again changes nothing, and of two
    rates set in a row only the second one counts. *)
Theorem adjust_learning_rate_sets_every_group (v v' : Q) (w : world) :
  let w1 := fst (adjust_learning_rate v w) in
  snd (adjust_learning_rate v w) = Ok v /\
  Forall (fun g => lr g = v) (param_groups (the_optimizer w1)) /\
  map group_params (param_groups (the_optimizer w1))
  = map group_params (param_groups (the_optimizer w)) /\
  opt_state (the_optimizer w1) = opt_state (the_optimizer w) /\
  the_model w1 = the_model w /\
  calls w1 = calls w /\
  adjust_learning_rate v w1 = (w1, Ok v) /\
  fst (adjust_learning_rate v' w1) = fst (adjust_learning_rate v' w).
Proof.
  cbn. repeat split.
  - apply Forall_forall. intros g H. apply in_map_iff in H.
    now destruct H as (g0 & <- & _).
  - rewrite map_map. reflexivity.
  - rewrite map_map. reflexivity.
  - rewrite map_map. reflexivity.
Qed.

(** ** More on the schedule *)

(** X2: the schedule raises [ZeroDivisionError] exactly when [cycle] is 0,
    and it has period [cycle] in the epoch: shifting the epoch by any
    multiple of [cycle] gives the same rates. *)
Theorem cyclic_learning_rate_periodic
  (epoch cycle k : Z) (alpha_1 alpha_2 i : Q) :
  cyclic_learning_rate (epoch + k * cycle) cycle alpha_1 alpha_2 i
  = cyclic_learning_rate epoch cycle alpha_1 alpha_2 i /\
  (cycle = 0%Z <->
   cyclic_learning_rate epoch cycle alpha_1 alpha_2 i
   = Raise ZeroDivisionError).
Proof.
  unfold cyclic_learning_rate. destruct (Z.eqb_spec cycle 0) as [E|E].
  - split; [reflexivity|]. tauto.
  - rewrite Z.mod_add by trivial. split; [reflexivity|].
    split; [contradiction|]. destruct (Qltb _ _); discriminate.
Qed.

(** X3: for a positive cycle and [i] in [0, 1) the rate lies between the
    two bounds, whichever of them is the larger. *)
Theorem cyclic_learning_rate_range
  (epoch cycle : Z) (alpha_1 alpha_2 i : Q) :
  (0 < cycle)%Z -> 0 <= i -> i < 1 ->
  exists r,
    cyclic_learning_rate epoch cycle alpha_1 alpha_2 i = Ok r /\
    (alpha_1 <= alpha_2 -> alpha_1 <= r /\ r <= alpha_2) /\
    (alpha_2 <= alpha_1 -> alpha_2 <= r /\ r <= alpha_1).
Proof.
  intros Hc Hi0 Hi1.
  destruct (cycle_position epoch cycle i Hc Hi0 Hi1) as [T0 T1].
  unfold cyclic_learning_rate.
  destruct (Z.eqb_spec cycle 0) as [->|_]; [lia|].
  set (t := (inject_Z (epoch mod cycle) + i) / inject_Z cycle) in *.
  destruct (Qltb t (1#2)) eqn:E; eexists; (split; [reflexivity|]).
  - apply Qltb_lt in E. split; intro; split; nra.
  - apply Qltb_ge in E. split; intro; split; nra.
Qed.

Lemma cyclic_learning_rate_range_witness :
  (0 < 4)%Z /\ 0 <= 3#4 /\ 3#4 < 1 /\
  exists r,
    cyclic_learning_rate 6 4 (1#100) (5#100) (3#4) = Ok r /\
    ((1#100) <= (5#100) -> (1#100) <= r /\ r <= (5#100)).
Proof.
  assert (Hc : (0 < 4)%Z) by reflexivity.
  assert (H0 : 0 <= 3#4) by discriminate.
  assert (H1 : 3#4 < 1) by reflexivity.
  split; [exact Hc|]. split; [exact H0|]. split; [exact H1|].
  destruct (cyclic_learning_rate_range 6 4 (1#100) (5#100) (3#4) Hc H0 H1)
    as (r & E & B & _).
  exists r. split; [exact E|exact B].
Defined.

(** X4: consecutive epochs join without a jump: the rate the schedule of
    one epoch reaches at [i = 1] is the rate the schedule of the next epoch
    starts from at [i = 0], also where a cycle ends and the next begins. *)
Theorem cyclic_learning_rate_joins_epochs
  (epoch cycle : Z) (alpha_1 alpha_2 : Q) :
  (0 < cycle)%Z ->
  exists r1 r2,
    cyclic_learning_rate epoch cycle alpha_1 alpha_2 1 = Ok r1 /\
    cyclic_learning_rate (epoch + 1) cycle alpha_1 alpha_2 0 = Ok r2 /\
    r1 == r2.
Proof.
  intro Hc.
  assert (Hz : (cycle =? 0)%Z = false) by (apply Z.eqb_neq; lia).
  assert (Hc' : 0 < inject_Z cycle)
    by (change 0 with (inject_Z 0); rewrite <- Zlt_Qlt; lia).
  assert (T1 : exists r, cyclic_learning_rate epoch cycle alpha_1 alpha_2 1
                         = Ok r).
  { unfold cyclic_learning_rate. rewrite Hz.
    destruct (Qltb _ _); eexists; reflexivity. }
  assert (T2 : exists r, cyclic_learning_rate (epoch + 1) cycle alpha_1
                                              alpha_2 0 = Ok r).
  { unfold cyclic_learning_rate. rewrite Hz.
    destruct (Qltb _ _); eexists; reflexivity. }
  destruct T1 as [r1 E1], T2 as [r2 E2]. exists r1, r2.
  split; [exact E1|]. split; [exact E2|].
  apply schedule_tent in E1; trivial. apply schedule_tent in E2; trivial.
  rewrite E1, E2. clear E1 E2.
  assert (Hm := Z.mod_pos_bound epoch cycle Hc).
  destruct (Z.eq_dec (epoch mod cycle) (cycle - 1)) as [Last|NotLast].
  - assert (N : ((epoch + 1) mod cycle = 0)%Z).
    { rewrite Z.add_mod by lia. rewrite Last.
      destruct (Z.eq_dec cycle 1) as [->|C1]; [reflexivity|].
      rewrite (Z.mod_small 1) by lia.
      replace (cycle - 1 + 1)%Z with cycle by lia. apply Z.mod_same. lia. }
    rewrite N, Last.
    assert (I : inject_Z (cycle - 1) == inject_Z cycle - 1)
      by (unfold Z.sub; rewrite inject_Z_plus; reflexivity).
    setoid_replace (2 * ((inject_Z (cycle - 1) + 1) / inject_Z cycle) - 1)
      with 1 by (rewrite I; field; lra).
    setoid_replace (2 * ((inject_Z 0 + 0) / inject_Z cycle) - 1)
      with (- (1)) by (unfold inject_Z at 1; field; lra).
    rewrite Qabs_opp. reflexivity.
  - assert (N : ((epoch + 1) mod cycle = epoch mod cycle + 1)%Z).
    { rewrite Z.add_mod by lia.
      destruct (Z.eq_dec cycle 1) as [->|C1]; [lia|].
      rewrite (Z.mod_small 1) by lia. apply Z.mod_small. lia. }
    rewrite N, inject_Z_plus.
    setoid_replace (2 * ((inject_Z (epoch mod cycle) + inject_Z 1 + 0)
                         / inject_Z cycle) - 1)
      with (2 * ((inject_Z (epoch mod cycle) + 1) / inject_Z cycle) - 1)
      by (unfold inject_Z at 2; field; lra).
    reflexivity.
Qed.

Lemma cyclic_learning_rate_joins_epochs_witness :
  (0 < 4)%Z /\
  exists r1 r2,
    cyclic_learning_rate 7 4 (1#100) (5#100) 1 = Ok r1 /\
    cyclic_learning_rate (7 + 1) 4 (1#100) (5#100) 0 = Ok r2 /\
    r1 == r2.
Proof.
  split; [reflexivity|].
  apply (cyclic_learning_rate_joins_epochs 7 4 (1#100) (5#100)). reflexivity.
Defined.

(** ** More on the regularizer *)

Lemma sigma_permutation {A : Type} (f : A -> Q) (l l' : list A) :
  Permutation l l' -> sigma f l == sigma f l'.
Proof.
  induction 1 as [|x l l' _ IH|x y l|l l' l'' _ IH1 _ IH2]; simpl.
  - reflexivity.
  - now rewrite IH.
  - ring.
  - now rewrite IH1.
Qed.

Lemma sigma_nonneg {A : Type} (f : A -> Q) (l : list A) :
  (forall x, 0 <= f x) -> 0 <= sigma f l.
Proof.
  intro H. induction l as [|x l IH]; simpl; [discriminate|].
  generalize (H x). lra.
Qed.

Lemma sigma_compat {A : Type} (f g : A -> Q) (l l' : list A) :
  Forall2 (fun x y => f x == g y) l l' -> sigma f l == sigma g l'.
Proof.
  induction 1 as [|x y l l' H _ IH]; simpl; [reflexivity|].
  now rewrite H, IH.
Qed.

Lemma l2_regularizer_sigma (sqrt : Q -> Q) (weight_decay : Q)
      (params : list tensor) :
  l2_regularizer sqrt weight_decay params
  == (1#2) * weight_decay * sigma (fun p => sqrt (sum_sq p)) params.
Proof.
  unfold l2_regularizer.
  rewrite (fold_left_sigma (fun p => sqrt (sum_sq p))). ring.
Qed.

Lemma sum_sq_permutation (p p' : tensor) :
  Permutation p p' -> sum_sq p == sum_sq p'.
Proof.
  intro H. unfold sum_sq. rewrite !(fold_left_sigma (fun x => x * x)).
  now rewrite (sigma_permutation _ _ _ H).
Qed.

(** X5: the regularizer does not depend on the order in which the model
    yields its parameters, nor (for a square root that respects equality of
    rationals) on the order of the entries inside a parameter; it is
    proportional to [weight_decay]; and it is not negative when
    [weight_decay] and the square roots are not. *)
Theorem l2_regularizer_order_and_sign
  (sqrt : Q -> Q) (weight_decay a : Q) (params params' : list tensor) :
  (forall x y, x == y -> sqrt x == sqrt y) ->
  (Permutation params params' ->
   l2_regularizer sqrt weight_decay params
   == l2_regularizer sqrt weight_decay params') /\
  (Forall2 (@Permutation Q) params params' ->
   l2_regularizer sqrt weight_decay params
   == l2_regularizer sqrt weight_decay params') /\
  l2_regularizer sqrt (a * weight_decay) params
  == a * l2_regularizer sqrt weight_decay params /\
  ((forall x, 0 <= sqrt x) -> 0 <= weight_decay ->
   0 <= l2_regularizer sqrt weight_decay params).
Proof.
  intro Hs. rewrite !l2_regularizer_sigma. split; [|split; [|split]].
  - intro P. now rewrite (sigma_permutation _ _ _ P).
  - intro P.
    assert (E : sigma (fun p => sqrt (sum_sq p)) params
                == sigma (fun p => sqrt (sum_sq p)) params').
    { apply sigma_compat. eapply Forall2_impl; [|exact P].
      intros p p' Pp. apply Hs. now apply sum_sq_permutation. }
    rewrite E. reflexivity.
  - ring.
  - intros Hn Hw.
    assert (S := sigma_nonneg (fun p => sqrt (sum_sq p)) params
                              (fun p => Hn (sum_sq p))).
    apply Qmult_le_0_compat; trivial.
    apply Qmult_le_0_compat; trivial. discriminate.
Qed.

Lemma l2_regularizer_order_and_sign_witness :
  (forall x y, x == y -> qsqrt x == qsqrt y) /\
  l2_regularizer qsqrt (1#1000) [[3; 4]; [1; 0]]
  == l2_regularizer qsqrt (1#1000) [[1; 0]; [3; 4]].
Proof.
  split; [exact qsqrt_compat|].
  exact (proj1 (l2_regularizer_order_and_sign qsqrt (1#1000) 1
                  [[3; 4]; [1; 0]] [[1; 0]; [3; 4]] qsqrt_compat)
               (perm_swap _ _ _)).
Defined.

(** ** Detecting batch normalization *)

(** X6: [check_bn] answers [True] exactly when some submodule belongs to one
    of the two batch-normalization hierarchies, and it changes nothing. *)
Theorem check_bn_detects (w : world) :
  exists b,
    check_bn w = (w, Ok b) /\
    (b = true <->
     exists md, In md (modules (the_model w)) /\
                (class_of md = TorchBatchNorm \/
                 class_of md = CurvesBatchNorm)).
Proof.
  exists (has_bn (the_model w)). split; [apply check_bn_spec|].
  unfold has_bn. rewrite existsb_exists. split.
  - intros (md & Hin & B). exists md. split; trivial.
    unfold isbatchnorm in B. destruct (class_of md); auto. discriminate.
  - intros (md & Hin & [C|C]); exists md; split; trivial;
      unfold isbatchnorm; now rewrite C.
Qed.

(** ** Saving and restoring the momenta *)

Lemma restore_exact (ms1 : list module) :
  forall (ms : list module) (k : nat) (acc : dict),
    Forall2 frame ms ms1 ->
    Forall (fun j => (j < k)%nat) (keys acc) ->
    apply_from restore_visitor k ms (acc ++ bn_entries k ms1)
    = (restored ms ms1, Ok (acc ++ bn_entries k ms1)).
Proof.
  induction ms1 as [|md1 ms1 IH]; intros ms k acc H Hk;
    inversion H as [|md ? ms_ ? Hmd Hms]; subst; [reflexivity|].
  assert (B := frame_isbatchnorm _ _ Hmd).
  cbn [apply_from bn_entries]. unfold restore_visitor at 1, _set_momenta.
  unfold restored. cbn [combine map]. fold (restored ms_ ms1).
  rewrite B. destruct (isbatchnorm md1) eqn:B1.
  - rewrite dict_get_app_fresh
      by (eapply Forall_impl; [|exact Hk]; simpl; lia).
    cbn [dict_get]. rewrite Nat.eqb_refl.
    assert (E := IH ms_ (S k) (acc ++ [(k, momentum md1)]) Hms).
    rewrite <- app_assoc in E. cbn [app] in E. rewrite E; [reflexivity|].
    unfold keys. rewrite map_app. apply Forall_app. split.
    + eapply Forall_impl; [|exact Hk]. simpl. lia.
    + repeat constructor.
  - rewrite (IH ms_ (S k) acc Hms); [reflexivity|].
    eapply Forall_impl; [|exact Hk]. simpl. lia.
Qed.

Lemma restore_all (ms ms1 : list module) :
  Forall2 frame ms ms1 ->
  apply_from restore_visitor 0 ms (bn_entries 0 ms1)
  = (restored ms ms1, Ok (bn_entries 0 ms1)).
Proof. intro H. apply (restore_exact ms1 ms 0 [] H). constructor. Qed.

Lemma restored_assigned (q : option Q) (ms : list module) :
  restored (assigned q ms) ms = ms.
Proof.
  unfold restored, assigned. induction ms as [|md ms IH]; simpl; trivial.
  rewrite IH. f_equal. destruct (isbatchnorm md) eqn:B.
  - change (isbatchnorm (set_momentum q md)) with (isbatchnorm md).
    rewrite B. now destruct md.
  - now rewrite B.
Qed.

(** X7: the momenta make a round trip.  Visiting the model with
    [_get_momenta] changes nothing and fills the dictionary; whatever
    momentum is then written into the batch-normalization submodules,
    visiting the model with [_set_momenta] gives back exactly the model
    that was saved, and never meets a missing key.  On any dictionary that
    lacks the submodule, [_set_momenta] raises [KeyError] for a
    batch-normalization submodule; any other submodule it leaves alone,
    whatever the dictionary. *)
Theorem momenta_round_trip (q : option Q) (w : world) :
  exists momenta,
    apply (fun k md momenta => (md, Ok (_get_momenta k md momenta))) [] w
    = (w, Ok momenta) /\
    apply restore_visitor momenta
          (with_modules (assigned q (modules (the_model w))) w)
    = (w, Ok momenta) /\
    (forall k md d, isbatchnorm md = true -> dict_get d k = None ->
                    _set_momenta k md d = Raise KeyError) /\
    (forall k md d, isbatchnorm md = false -> _set_momenta k md d = Ok md).
Proof.
  exists (bn_entries 0 (modules (the_model w))). split; [|split; [|split]].
  - unfold apply. rewrite (apply_from_pure (fun md => md) _get_momenta).
    rewrite map_id, world_eta.
    now rewrite (get_momenta_entries _ 0 []) by constructor.
  - unfold apply. cbn [with_modules the_model set_modules modules].
    rewrite restore_all.
    + rewrite restored_assigned.
      destruct w as [[ps ms] o cs]. reflexivity.
    + apply frame_assigned. clear. induction (modules (the_model w));
        constructor; trivial. repeat split.
  - intros k md d B G. unfold _set_momenta. now rewrite B, G.
  - intros k md d B. unfold _set_momenta. now rewrite B.
Qed.

(** ** What [update_bn] leaves behind *)

Lemma frame_restored (ms ms1 : list module) :
  Forall2 frame ms ms1 -> Forall2 frame (restored ms ms1) ms1.
Proof.
  unfold restored. induction 1 as [|md md1 ms ms1 H _ IH]; simpl;
    constructor; trivial.
  destruct (isbatchnorm md) eqn:B; trivial. now apply frame_set_momentum.
Qed.

Lemma prepared_map (reset_running_stats : stats -> stats)
      (ms : list module) :
  prepared reset_running_stats ms
  = map (fun md =>
           if isbatchnorm md
           then set_running (reset_running_stats (running md))
                            (set_training true md)
           else set_training true md) ms.
Proof.
  unfold prepared. rewrite map_map. apply map_ext. intro md.
  unfold reset_bn. change (isbatchnorm (set_training true md))
    with (isbatchnorm md). now destruct (isbatchnorm md).
Qed.

Lemma frame_prepared (reset_running_stats : stats -> stats)
      (ms' ms : list module) :
  Forall2 frame ms' (prepared reset_running_stats ms) ->
  map class_of ms' = map class_of ms /\
  Forall (fun md => mod_training md = true) ms' /\
  Forall2 (fun md' md => isbatchnorm md = false -> md' = set_training true md)
          ms' ms.
Proof.
  rewrite prepared_map. revert ms'.
  induction ms as [|md ms IH]; intros ms' H; inversion H as [|md' ? ms_ ? F Fs];
    subst; [repeat split; constructor|].
  destruct (IH ms_ Fs) as (C & T & N). destruct F as (Fc & Ft & Fn).
  repeat split.
  - cbn [map]. rewrite C. f_equal. rewrite Fc.
    now destruct (isbatchnorm md).
  - constructor; trivial. rewrite Ft. now destruct (isbatchnorm md).
  - constructor; trivial. intro B. rewrite B in Fn. now apply Fn.
Qed.

Section AfterRecalibration.

Variable forward : model -> kwargs -> batch tensor -> list tensor.
Variable bn_forward : model -> kwargs -> batch tensor -> nat -> stats.
Variable reset_running_stats : stats -> stats.

(** Whatever happens in the replay, the submodules [update_bn] leaves are
    the prepared ones up to momentum and running statistics of the
    batch-normalization submodules. *)
Lemma update_bn_frame (ld : loader) (kw : kwargs) (w : world) :
  has_bn (the_model w) = true ->
  let w' := fst (update_bn forward bn_forward reset_running_stats ld kw w) in
  Forall2 frame (modules (the_model w'))
          (prepared reset_running_stats (modules (the_model w))) /\
  parameters (the_model w') = parameters (the_model w) /\
  the_optimizer w' = the_optimizer w /\
  exists cs, calls w' = calls w ++ cs.
Proof.
  intros Hb. cbv zeta. rewrite (update_bn_steps _ _ _ ld kw w Hb). cbv zeta.
  set (ms1 := prepared reset_running_stats (modules (the_model w))).
  assert (Base : Forall2 frame (modules (the_model (with_modules ms1 w))) ms1)
    by apply frame_refl_all.
  assert (Stay : Forall2 frame (modules (the_model (with_modules ms1 w))) ms1 /\
                 parameters (the_model (with_modules ms1 w))
                 = parameters (the_model w) /\
                 the_optimizer (with_modules ms1 w) = the_optimizer w /\
                 exists cs, calls (with_modules ms1 w) = calls w ++ cs).
  { repeat split; trivial. exists []. cbn. now rewrite app_nil_r. }
  assert (Done : forall w2 cs,
             Forall2 frame (modules (the_model w2)) ms1 ->
             parameters (the_model w2) = parameters (the_model w) ->
             the_optimizer w2 = the_optimizer w ->
             calls w2 = calls w ++ cs ->
             let w3 := fst
               (let (ms3, r0) := apply_from restore_visitor 0
                                   (modules (the_model w2)) (bn_entries 0 ms1) in
                match r0 with
                | Ok _ => (with_modules ms3 w2, Ok tt)
                | Raise e => (with_modules ms3 w2, Raise e)
                end) in
             Forall2 frame (modules (the_model w3)) ms1 /\
             parameters (the_model w3) = parameters (the_model w) /\
             the_optimizer w3 = the_optimizer w /\
             exists cs, calls w3 = calls w ++ cs).
  { intros w2 cs F P O C. cbv zeta.
    rewrite (restore_all _ _ F).
    cbn [fst with_modules the_model set_modules modules parameters
         the_optimizer calls].
    repeat split; trivial.
    - now apply frame_restored.
    - now exists cs. }
  destruct (batches ld) as [|[x t] bs].
  - cbn [for_each]. unfold ret.
    apply (Done (with_modules ms1 w) []); trivial. cbn. now rewrite app_nil_r.
  - destruct (parameters (the_model w)) as [|p ps] eqn:Ep.
    { rewrite (for_each_raise _ _ _ _ _ _
                 (update_bn_body_no_parameter _ _ kw _ x t 0
                                              (with_modules ms1 w) Ep)).
      exact Stay. }
    destruct (Z.eq_dec (size0 x) 0) as [Ex|Ex].
    { assert (Hp : parameters (the_model (with_modules ms1 w)) <> [])
        by (cbn; congruence).
      rewrite (for_each_raise _ _ _ _ _ _
                 (update_bn_body_empty_batch _ _ kw _ x t
                                             (with_modules ms1 w) Hp Ex)).
      exact Stay. }
    destruct (replay_ok forward bn_forward kw ms1 ((x, t) :: bs) 0
                        (with_modules ms1 w))
      as (w2 & n' & cs & E & P & O & F & C & R).
    + cbn. congruence.
    + lia.
    + generalize (size0_nonneg x). lia.
    + apply frame_refl_all.
    + rewrite E. apply (Done w2 cs); trivial. rewrite P. exact Ep.
Qed.

(** X8: on a model with batch normalization, however [update_bn] ends, it
    leaves the parameters and the optimizer untouched, the submodules of
    the same classes and all in training mode (it never goes back to
    evaluation mode), every submodule that is not a batch normalization
    otherwise as it was, and the log only longer. *)
Theorem update_bn_leaves_training_mode
  (ld : loader) (kw : kwargs) (w : world) :
  has_bn (the_model w) = true ->
  let w' := fst (update_bn forward bn_forward reset_running_stats ld kw w) in
  parameters (the_model w') = parameters (the_model w) /\
  the_optimizer w' = the_optimizer w /\
  map class_of (modules (the_model w')) = map class_of (modules (the_model w)) /\
  Forall (fun md => mod_training md = true) (modules (the_model w')) /\
  Forall2 (fun md' md => isbatchnorm md = false -> md' = set_training true md)
          (modules (the_model w')) (modules (the_model w)) /\
  exists cs, calls w' = calls w ++ cs.
Proof.
  intros Hb w'. destruct (update_bn_frame ld kw w Hb) as (F & P & O & C).
  destruct (frame_prepared _ _ _ F) as (Cl & T & N).
  repeat split; trivial.
Qed.

(** X9: on a model with batch normalization and a loader that yields no
    batch, [update_bn] returns with every batch-normalization submodule in
    training mode and its running statistics reset, every other submodule
    in training mode, and nothing else changed. *)
Theorem update_bn_empty_loader (ld : loader) (kw : kwargs) (w : world) :
  has_bn (the_model w) = true ->
  batches ld = [] ->
  update_bn forward bn_forward reset_running_stats ld kw w
  = (with_modules
       (map (fun md =>
               if isbatchnorm md
               then set_running (reset_running_stats (running md))
                                (set_training true md)
               else set_training true md)
            (modules (the_model w))) w,
     Ok tt).
Proof.
  intros Hb He. rewrite (update_bn_steps _ _ _ ld kw w Hb). cbv zeta.
  rewrite He. cbn [for_each]. unfold ret.
  rewrite <- prepared_map.
  set (ms1 := prepared reset_running_stats (modules (the_model w))).
  cbn [with_modules the_model set_modules modules].
  rewrite restore_all by apply frame_refl_all.
  replace (restored ms1 ms1) with ms1; [reflexivity|].
  unfold restored. clear. induction ms1 as [|md ms IH]; simpl; trivial.
  rewrite <- IH. f_equal. destruct (isbatchnorm md); trivial. now destruct md.
Qed.

(** X10: on a model with batch normalization and a loader that yields a
    batch, [update_bn] raises on that first batch, [StopIteration] when the
    model has no parameter and [ZeroDivisionError] when it has one but the
    batch has no sample; by then the model is in training mode and the
    running statistics have been reset, and that is how it is left: no
    forward pass has run, and the momenta are the original ones. *)
Theorem update_bn_raises_after_reset
  (ld : loader) (kw : kwargs) (w : world)
  (x : batch tensor) (t : batch Z) (bs : list (batch tensor * batch Z)) :
  has_bn (the_model w) = true ->
  batches ld = (x, t) :: bs ->
  let w1 := with_modules
              (map (fun md =>
                      if isbatchnorm md
                      then set_running (reset_running_stats (running md))
                                       (set_training true md)
                      else set_training true md)
                   (modules (the_model w))) w in
  (parameters (the_model w) = [] ->
   update_bn forward bn_forward reset_running_stats ld kw w
   = (w1, Raise StopIteration)) /\
  (parameters (the_model w) <> [] -> size0 x = 0%Z ->
   update_bn forward bn_forward reset_running_stats ld kw w
   = (w1, Raise ZeroDivisionError)).
Proof.
  intros Hb He w1. rewrite (update_bn_steps _ _ _ ld kw w Hb). cbv zeta.
  rewrite He. unfold w1. rewrite <- prepared_map.
  set (ms1 := prepared reset_running_stats (modules (the_model w))).
  split.
  - intro Ep.
    now rewrite (for_each_raise _ _ _ _ _ _
                   (update_bn_body_no_parameter _ _ kw _ x t 0
                                                (with_modules ms1 w) Ep)).
  - intros Hp Ex.
    assert (Hp' : parameters (the_model (with_modules ms1 w)) <> []) by exact Hp.
    now rewrite (for_each_raise _ _ _ _ _ _
                   (update_bn_body_empty_batch _ _ kw _ x t
                                               (with_modules ms1 w) Hp' Ex)).
Qed.

End AfterRecalibration.

Lemma update_bn_leaves_training_mode_witness :
  has_bn (Toy.bn_model cpu) = true /\
  Forall (fun md => mod_training md = true)
         (modules (the_model
            (fst (update_bn Toy.forward Toy.bn_forward Toy.reset_running_stats
                            Toy.four_batches []
                            (Toy.world_of (Toy.bn_model cpu)))))).
Proof.
  split; [reflexivity|].
  apply (update_bn_leaves_training_mode
           Toy.forward Toy.bn_forward Toy.reset_running_stats
           Toy.four_batches [] (Toy.world_of (Toy.bn_model cpu)) eq_refl).
Defined.

Lemma update_bn_empty_loader_witness :
  has_bn (Toy.bn_model cpu) = true /\
  batches Toy.no_batch = [] /\
  map (fun md => running_mean (running md))
      (modules (the_model
         (fst (update_bn Toy.forward Toy.bn_forward Toy.reset_running_stats
                         Toy.no_batch [] (Toy.world_of (Toy.bn_model cpu))))))
  = [[0]; []; [0]; []].
Proof.
  split; [reflexivity|]. split; [reflexivity|].
  rewrite (update_bn_empty_loader
             Toy.forward Toy.bn_forward Toy.reset_running_stats
             Toy.no_batch [] (Toy.world_of (Toy.bn_model cpu))
             eq_refl eq_refl).
  reflexivity.
Defined.

Lemma update_bn_raises_after_reset_witness :
  has_bn Toy.bare_model = true /\
  batches Toy.one_batch = [Toy.batch2] /\
  let r := update_bn Toy.forward Toy.bn_forward Toy.reset_running_stats
                     Toy.one_batch [] (Toy.world_of Toy.bare_model) in
  snd r = Raise StopIteration /\
  map (fun md => (mod_training md, running_mean (running md)))
      (modules (the_model (fst r)))
  = [(true, [0])].
Proof.
  split; [reflexivity|]. split; [reflexivity|]. cbv zeta.
  rewrite (proj1 (update_bn_raises_after_reset
                    Toy.forward Toy.bn_forward Toy.reset_running_stats
                    Toy.one_batch [] (Toy.world_of Toy.bare_model)
                    (fst Toy.batch2) (snd Toy.batch2) []
                    eq_refl eq_refl) eq_refl).
  split; reflexivity.
Defined.

(** ** The replay computes a cumulative average *)

Lemma nth_error_mapi_from {A B : Type} (f : nat -> A -> B) (l : list A) :
  forall s k,
    nth_error (mapi_from f s l) k
    = option_map (f (s + k)%nat) (nth_error l k).
Proof.
  induction l as [|x l IH]; intros s [|k]; simpl; trivial.
  - now rewrite Nat.add_0_r.
  - rewrite IH. now rewrite Nat.add_succ_r.
Qed.

Lemma frame_nth (ms ms1 : list module) (k : nat) (md : module) :
  Forall2 frame ms ms1 -> nth_error ms k = Some md ->
  exists md1, nth_error ms1 k = Some md1 /\ frame md md1.
Proof.
  intro H. revert k. induction H as [|a b ms ms1 F _ IH]; intros [|k] E;
    simpl in *; try discriminate.
  - injection E as <-. now exists b.
  - now apply IH.
Qed.

Lemma samples_app (cs cs' : list call) :
  samples (cs ++ cs') = (samples cs + samples cs')%Z.
Proof.
  induction cs as [|[m x|t] cs IH]; simpl; trivial. rewrite IH. lia.
Qed.

Lemma weighted_stat_app (stat : model -> batch tensor -> Q)
      (cs cs' : list call) :
  weighted_stat stat (cs ++ cs')
  == weighted_stat stat cs + weighted_stat stat cs'.
Proof.
  induction cs as [|[m x|t] cs IH]; simpl; try rewrite IH; ring.
Qed.

Section CumulativeAverage.

Variable forward : model -> kwargs -> batch tensor -> list tensor.
Variable bn_forward : model -> kwargs -> batch tensor -> nat -> stats.
Variable reset_running_stats : stats -> stats.
Variable field : stats -> tensor.
Variable stat : model -> kwargs -> batch tensor -> nat -> nat -> Q.
Hypothesis average : moving_average bn_forward field stat.

Lemma averaged_step (kw : kwargs) (ms1 : list module) (x : batch tensor)
      (n : Z) (total : nat -> nat -> Q) (m0 : model) :
  Forall (fun md => mod_training md = true) ms1 ->
  Forall2 frame (modules m0) ms1 ->
  (n + size0 x <> 0)%Z ->
  averaged field (modules m0) n total ->
  let q := inject_Z (size0 x) / inject_Z (n + size0 x) in
  let m := set_modules (assigned (Some q) (modules m0)) m0 in
  averaged field (track bn_forward m kw x) (n + size0 x)
           (fun k j => total k j + inject_Z (size0 x) * stat m kw x k j).
Proof.
  intros Ht Hf Hn Ha q m k md' j E B.
  unfold track, mapi in E. rewrite nth_error_mapi_from in E. cbn [Nat.add] in E.
  destruct (nth_error (modules m) k) as [mdA|] eqn:EA; [|discriminate].
  cbn [option_map] in E. injection E as E.
  assert (EA' := EA). cbn [m modules set_modules] in EA'. unfold assigned in EA'.
  rewrite nth_error_map in EA'.
  destruct (nth_error (modules m0) k) as [md|] eqn:E0; [|discriminate].
  cbn [option_map] in EA'. injection EA' as EA'.
  destruct (frame_nth _ _ _ _ Hf E0) as (md1 & E1 & F).
  assert (T : mod_training md = true).
  { destruct F as (_ & -> & _). rewrite Forall_forall in Ht. apply Ht.
    eapply nth_error_In; eassumption. }
  assert (Bd : isbatchnorm md = true).
  { assert (X : isbatchnorm md' = isbatchnorm mdA)
      by (rewrite <- E; destruct (mod_training mdA && isbatchnorm mdA); trivial).
    rewrite X in B. rewrite <- EA' in B.
    destruct (isbatchnorm md) eqn:Y; [reflexivity|]. cbn in B. congruence. }
  rewrite Bd in EA'.
  assert (TA : mod_training mdA = true) by (rewrite <- EA'; exact T).
  assert (BA : isbatchnorm mdA = true) by (rewrite <- EA'; exact Bd).
  assert (MA : momentum mdA = Some q) by (rewrite <- EA'; reflexivity).
  rewrite TA, BA in E. cbn [andb] in E. rewrite <- E. cbn [running set_running].
  rewrite (average m kw x k mdA q j EA BA TA MA).
  replace (running mdA) with (running md) by (rewrite <- EA'; reflexivity).
  assert (Hold := Ha k md j E0 Bd).
  assert (Hq : q * inject_Z (n + size0 x) == inject_Z (size0 x)).
  { unfold q. field. intro Z0. apply Hn. unfold Qeq in Z0. simpl in Z0. lia. }
  rewrite inject_Z_plus in *.
  setoid_replace (((1 - q) * nth j (field (running md)) 0
                   + q * stat m kw x k j) * (inject_Z n + inject_Z (size0 x)))
    with (nth j (field (running md)) 0 * inject_Z n
          + nth j (field (running md)) 0
            * (inject_Z (size0 x) - q * (inject_Z n + inject_Z (size0 x)))
          + q * (inject_Z n + inject_Z (size0 x)) * stat m kw x k j) by ring.
  rewrite Hq, Hold. ring.
Qed.

Lemma averaged_ext (ms : list module) (n : Z)
      (total total' : nat -> nat -> Q) :
  (forall k j, total k j == total' k j) ->
  averaged field ms n total -> averaged field ms n total'.
Proof. intros E H k md j Hk B. rewrite <- E. now apply H. Qed.

Lemma replay_average (kw : kwargs) (ms1 : list module) :
  Forall (fun md => mod_training md = true) ms1 ->
  forall (bs : list (batch tensor * batch Z)) (n : Z) (w : world)
         (total : nat -> nat -> Q),
    parameters (the_model w) <> [] ->
    (0 <= n)%Z ->
    match bs with [] => True | (x, _) :: _ => (0 < n + size0 x)%Z end ->
    Forall2 frame (modules (the_model w)) ms1 ->
    averaged field (modules (the_model w)) n total ->
    exists w' cs,
      for_each (update_bn_body forward bn_forward kw (bn_entries 0 ms1)) bs n w
      = (w', Ok (n + samples cs)%Z) /\
      calls w' = calls w ++ cs /\
      map call_input cs = map (fun xy => Some (fst xy)) bs /\
      match bs with
      | [] => True
      | (x, _) :: _ => (n + size0 x <= n + samples cs)%Z
      end /\
      Forall2 frame (modules (the_model w')) ms1 /\
      averaged field (modules (the_model w')) (n + samples cs)
               (fun k j => total k j
                           + weighted_stat (fun m x => stat m kw x k j) cs).
Proof.
  intro Ht. induction bs as [|[x t] bs IH]; intros n w total Hp Hn Hb Hf Ha.
  - exists w, []. cbn. rewrite app_nil_r, Z.add_0_r. repeat split; trivial.
    eapply averaged_ext; [|exact Ha]. intros; ring.
  - rewrite for_each_cons. unfold bind at 1.
    rewrite (update_bn_body_ok forward bn_forward kw ms1 x t n w Hp)
      by (trivial; lia).
    set (q := inject_Z (size0 x) / inject_Z (n + size0 x)).
    set (m := set_modules (assigned (Some q) (modules (the_model w)))
                          (the_model w)).
    match goal with |- context [for_each _ bs _ ?w1] => set (w1' := w1) end.
    assert (Hx := size0_nonneg x).
    destruct (IH (n + size0 x)%Z w1'
                 (fun k j => total k j + inject_Z (size0 x) * stat m kw x k j))
      as (w' & cs & E & C & I & S & F & A).
    + exact Hp.
    + lia.
    + destruct bs as [|[x' t'] bs']; trivial.
      generalize (size0_nonneg x'). lia.
    + unfold w1'. cbn [the_model]. apply frame_track. cbn [modules set_modules m].
      now apply frame_assigned.
    + unfold w1'. cbn [the_model modules set_modules].
      apply (averaged_step kw ms1 x n total (the_model w) Ht Hf); [lia|exact Ha].
    + exists w', (ModelCall m x :: cs). cbn [samples].
      replace (n + (size0 x + samples cs))%Z with (n + size0 x + samples cs)%Z
        by lia.
      split; [exact E|]. split; [|split; [|split; [|split]]].
      * rewrite C. unfold w1'. cbn [calls]. now rewrite <- app_assoc.
      * cbn [map call_input fst]. now rewrite I.
      * assert (0 <= samples cs)%Z; [|lia].
        destruct bs as [|[x' t'] bs']; [|generalize (size0_nonneg x'); lia].
        destruct cs; [cbn; lia|discriminate I].
      * exact F.
      * eapply averaged_ext; [|exact A]. intros k j. cbn [weighted_stat]. ring.
Qed.

Lemma restored_nth (ms ms1 : list module) (k : nat) (md' : module) :
  nth_error (restored ms ms1) k = Some md' ->
  exists md, nth_error ms k = Some md /\ running md' = running md /\
             isbatchnorm md' = isbatchnorm md.
Proof.
  unfold restored. revert ms1 k.
  induction ms as [|md ms IH]; intros [|md1 ms1] [|k] E; simpl in E;
    try discriminate.
  - injection E as <-. exists md. split; [reflexivity|].
    now destruct (isbatchnorm md) eqn:B.
  - destruct (IH ms1 k E) as (md0 & E0 & R). now exists md0.
Qed.

Lemma prepared_training (ms : list module) :
  Forall (fun md => mod_training md = true) (prepared reset_running_stats ms).
Proof.
  rewrite prepared_map. apply Forall_forall. intros md H.
  apply in_map_iff in H. destruct H as (md0 & <- & _).
  now destruct (isbatchnorm md0).
Qed.

(** X11: when the forward pass keeps a running statistic as an exponential
    moving average with the submodule's momentum, the replay of [update_bn]
    turns it into a cumulative average: on a model with batch
    normalization and a parameter and a loader whose first batch has a
    sample, [update_bn] returns after one forward pass per batch, and every
    entry of the running statistic of every batch-normalization submodule
    is the mean of the batch statistics of those passes weighted by the
    batch sizes, whatever it was before the call. *)
Theorem update_bn_cumulative_average (ld : loader) (kw : kwargs) (w : world) :
  has_bn (the_model w) = true ->
  parameters (the_model w) <> [] ->
  batches ld <> [] ->
  first_batch_nonempty ld ->
  exists w' cs,
    update_bn forward bn_forward reset_running_stats ld kw w = (w', Ok tt) /\
    calls w' = calls w ++ cs /\
    map call_input cs = map (fun xy => Some (fst xy)) (batches ld) /\
    (0 < samples cs)%Z /\
    forall k md j,
      nth_error (modules (the_model w')) k = Some md ->
      isbatchnorm md = true ->
      nth j (field (running md)) 0
      == weighted_stat (fun m x => stat m kw x k j) cs
         / inject_Z (samples cs).
Proof.
  intros Hb Hp Hne H1.
  rewrite (update_bn_steps _ _ _ ld kw w Hb). cbv zeta.
  set (ms1 := prepared reset_running_stats (modules (the_model w))).
  destruct (replay_average kw ms1 (prepared_training _) (batches ld) 0
                           (with_modules ms1 w) (fun _ _ => 0))
    as (w2 & cs & E & C & I & S & F & A).
  - exact Hp.
  - lia.
  - exact H1.
  - apply frame_refl_all.
  - intros k md j _ _. ring.
  - rewrite E. rewrite (restore_all _ _ F).
    exists (with_modules (restored (modules (the_model w2)) ms1) w2), cs.
    assert (Pos : (0 < samples cs)%Z).
    { unfold first_batch_nonempty in H1.
      destruct (batches ld) as [|[x t] bs]; [congruence|]. lia. }
    split; [reflexivity|]. split; [exact C|]. split; [exact I|].
    split; [exact Pos|].
    intros k md' j Hk B. cbn [with_modules the_model set_modules modules] in Hk.
    destruct (restored_nth _ _ _ _ Hk) as (md & Hmd & R & Bm).
    rewrite R. rewrite Bm in B.
    assert (V := A k md j Hmd B). cbn [Z.add] in V.
    assert (Nz : ~ inject_Z (samples cs) == 0).
    { intro Z0. unfold Qeq in Z0. simpl in Z0. lia. }
    assert (V' : weighted_stat (fun m x => stat m kw x k j) cs
                 == nth j (field (running md)) 0 * inject_Z (samples cs))
      by (rewrite V; ring).
    rewrite V'. field. exact Nz.
Qed.

End CumulativeAverage.

Lemma toy_moving_average :
  moving_average Toy.bn_forward running_mean toy_stat.
Proof.
  intros m kw x k md q j E B T Mo. unfold Toy.bn_forward, toy_stat.
  rewrite E, Mo. cbn [running_mean].
  set (f := fun r => Qred ((1 - q) * r + q * Toy.batch_mean x)).
  destruct (Nat.ltb_spec j (length (running_mean (running md)))) as [L|L].
  - rewrite (nth_indep _ 0 (f 0)) by (now rewrite length_map).
    rewrite map_nth. unfold f. apply Qred_correct.
  - rewrite !nth_overflow by (try rewrite length_map; lia). ring.
Qed.

Lemma update_bn_cumulative_average_witness :
  has_bn (Toy.bn_model cpu) = true /\
  parameters (Toy.bn_model cpu) <> [] /\
  batches Toy.four_batches <> [] /\
  first_batch_nonempty Toy.four_batches /\
  exists w' cs,
    update_bn Toy.forward Toy.bn_forward Toy.reset_running_stats
              Toy.four_batches [] (Toy.world_of (Toy.bn_model cpu))
    = (w', Ok tt) /\
    (0 < samples cs)%Z /\
    forall k md j,
      nth_error (modules (the_model w')) k = Some md ->
      isbatchnorm md = true ->
      nth j (running_mean (running md)) 0
      == weighted_stat (fun m x => toy_stat m [] x k j) cs
         / inject_Z (samples cs).
Proof.
  assert (Hp : parameters (Toy.bn_model cpu) <> []) by discriminate.
  assert (Hn : batches Toy.four_batches <> []) by discriminate.
  assert (H1 : first_batch_nonempty Toy.four_batches) by reflexivity.
  split; [reflexivity|]. split; [exact Hp|]. split; [exact Hn|].
  split; [exact H1|].
  destruct (update_bn_cumulative_average
              Toy.forward Toy.bn_forward Toy.reset_running_stats
              running_mean toy_stat toy_moving_average
              Toy.four_batches [] (Toy.world_of (Toy.bn_model cpu))
              eq_refl Hp Hn H1) as (w' & cs & E & _ & _ & P & A).
  exists w', cs. split; [exact E|]. split; [exact P|exact A].
Defined.

(** The replay on the small instance: the running means end at the mean of
    the first feature over the dataset, 17/24, whatever they were. *)
Example update_bn_average_runs :
  map (fun md => map Qred (running_mean (running md)))
      (modules (the_model
         (fst (update_bn Toy.forward Toy.bn_forward Toy.reset_running_stats
                         Toy.four_batches []
                         (Toy.world_of (Toy.bn_model cpu))))))
  = [[17#24]; []; [17#24]; []].
Proof. vm_compute. reflexivity. Qed.

(** ** The metrics of the eval loop *)

Section EvalMetrics.

Variable forward : model -> kwargs -> batch tensor -> list tensor.
Variable bn_forward : model -> kwargs -> batch tensor -> nat -> stats.

Lemma after_forward_eval (m : model) (kw : kwargs) (x : batch tensor) :
  eval_mode m -> after_forward bn_forward m kw x = m.
Proof. apply track_eval. Qed.

Lemma test_body_values (criterion : list tensor -> batch Z -> Q)
      (regularizer : option (model -> Q)) (kw : kwargs) (d : device)
      (x : batch tensor) (t : batch Z) (loss_sum nll_sum correct : Q)
      (w : world) :
  eval_mode (the_model w) ->
  length (forward (the_model w) kw x) = length (items t) ->
  Forall (fun row => row <> []) (forward (the_model w) kw x) ->
  exists w' loss_sum' nll_sum' correct',
    test_body forward bn_forward criterion regularizer kw d (x, t)
              (loss_sum, nll_sum, correct) w
    = (w', Ok (loss_sum', nll_sum', correct')) /\
    the_model w' = the_model w /\
    loss_sum' == loss_sum
                 + batch_loss forward bn_forward criterion regularizer kw
                              (the_model w) x t * inject_Z (size0 x) /\
    nll_sum' == nll_sum
                + criterion (forward (the_model w) kw x) t
                  * inject_Z (size0 x) /\
    correct' == correct
                + inject_Z (correct_count (forward (the_model w) kw x)
                                          (items t)).
Proof.
  intros He Hl Hr. unfold test_body. cbv zeta.
  destruct (call_model_spec forward bn_forward kw x w) as (wC & E4 & C4 & M4).
  rewrite (bind_ok _ _ _ _ _ E4).
  rewrite (after_forward_eval _ kw x He) in M4.
  set (m := the_model w) in *.
  destruct (call_criterion_spec criterion (forward m kw x) t wC)
    as (wD & E5 & C5 & M5).
  rewrite (bind_ok _ _ _ _ _ E5).
  assert (E6 : exists loss,
             match regularizer with
             | Some reg =>
                 m0 <- get_model ;; ret (criterion (forward m kw x) t + reg m0)
             | None => ret (criterion (forward m kw x) t)
             end wD = (wD, Ok loss) /\
             loss == batch_loss forward bn_forward criterion regularizer
                                kw m x t).
  { unfold batch_loss. rewrite (after_forward_eval _ kw x He).
    destruct regularizer as [reg|].
    - eexists. split; [reflexivity|]. cbn [the_model]. rewrite M5, M4.
      reflexivity.
    - eexists. split; [reflexivity|]. ring. }
  destruct E6 as (loss & E6 & L6). rewrite (bind_ok _ _ _ _ _ E6).
  unfold bind, lift, ret. rewrite (argmax_rows_ok _ Hr), (eq_sum_ok _ _ Hl).
  exists wD. eexists. eexists. eexists. split; [reflexivity|].
  split; [now rewrite M5, M4|]. split; [now rewrite L6|].
  split; reflexivity.
Qed.

Lemma test_loop_values (criterion : list tensor -> batch Z -> Q)
      (regularizer : option (model -> Q)) (kw : kwargs) (d : device) :
  forall (bs : list (batch tensor * batch Z)) (loss_sum nll_sum correct : Q)
         (w : world),
    eval_mode (the_model w) ->
    well_shaped forward kw bs ->
    let ms := repeat (the_model w) (length bs) in
    exists w' loss_sum' nll_sum' correct',
      for_each (test_body forward bn_forward criterion regularizer kw d)
               bs (loss_sum, nll_sum, correct) w
      = (w', Ok (loss_sum', nll_sum', correct')) /\
      loss_sum' == loss_sum
                   + loss_total forward bn_forward criterion regularizer kw
                                ms bs /\
      nll_sum' == nll_sum
                  + loss_total forward bn_forward criterion None kw ms bs /\
      correct' == correct + inject_Z (correct_total forward kw ms bs).
Proof.
  induction bs as [|[x t] bs IH]; intros ls ns c w He Hs.
  - exists w, ls, ns, c. cbn. repeat split; ring.
  - rewrite for_each_cons.
    destruct (Hs (the_model w) x t (or_introl eq_refl)) as [Hl Hr].
    destruct (test_body_values criterion regularizer kw d x t ls ns c w
                               He Hl Hr)
      as (w1 & ls1 & ns1 & c1 & E & M & L & N & C).
    rewrite (bind_ok _ _ _ _ _ E).
    assert (He1 : eval_mode (the_model w1)) by now rewrite M.
    destruct (IH ls1 ns1 c1 w1 He1) as (w' & ls' & ns' & c' & E' & L' & N' & C').
    { intros m' x' t' Hin. apply Hs. now right. }
    rewrite M in L', N', C'.
    exists w', ls', ns', c'. split; [exact E'|].
    cbn [length repeat loss_total correct_total].
    split; [|split].
    + rewrite L', L. ring.
    + rewrite N', N. unfold batch_loss. ring.
    + rewrite C', C. rewrite inject_Z_plus. ring.
Qed.

Lemma loss_total_regularizer (criterion : list tensor -> batch Z -> Q)
      (regularizer : option (model -> Q)) (kw : kwargs) (m : model) :
  eval_mode m ->
  forall bs : list (batch tensor * batch Z),
    loss_total forward bn_forward criterion regularizer kw
               (repeat m (length bs)) bs
    == loss_total forward bn_forward criterion None kw
                  (repeat m (length bs)) bs
       + reg_value regularizer m
         * inject_Z (fold_right (fun xy n => (size0 (fst xy) + n)%Z) 0%Z bs).
Proof.
  intros He. induction bs as [|[x t] bs IH]; cbn [length repeat loss_total
                                                  fold_right fst].
  - ring.
  - rewrite IH. unfold batch_loss. rewrite (after_forward_eval _ kw x He).
    rewrite inject_Z_plus. destruct regularizer; cbn [reg_value]; ring.
Qed.

(** X12: on a model with a parameter, scores that have the shape of the
    targets and a dataset of [N] samples, [N] not zero, [test] returns
    [{nll, loss, accuracy}] where [nll] is the sum over the batches of the
    criterion's output times the batch size, divided by [N], [accuracy] is
    100 times the number of samples whose target is the arg-max class of
    their scores ([largest_at]: the position of a largest score, the first
    of them), divided by [N], and [loss]
    exceeds [nll] by the regularizer's value on the model (in evaluation
    mode, the same for every batch) times the number of samples the loader
    yielded, divided by [N]. *)
Theorem test_returns_averages
  (ld : loader) (criterion : list tensor -> batch Z -> Q)
  (regularizer : option (model -> Q)) (kw : kwargs) (w : world) :
  parameters (the_model w) <> [] ->
  well_shaped forward kw (batches ld) ->
  dataset_len ld <> 0%Z ->
  let m := in_eval_mode (the_model w) in
  let ms := repeat m (length (batches ld)) in
  let n := inject_Z (dataset_len ld) in
  exists nll loss accuracy,
    snd (test forward bn_forward ld criterion regularizer kw w)
    = Ok [("nll"%string, nll); ("loss"%string, loss);
          ("accuracy"%string, accuracy)] /\
    nll == loss_total forward bn_forward criterion None kw ms (batches ld) / n /\
    accuracy == 100 * inject_Z (hits_total forward kw ms (batches ld)) / n /\
    loss == nll
            + reg_value regularizer m
              * inject_Z (fold_right (fun xy k => (size0 (fst xy) + k)%Z) 0%Z
                                     (batches ld)) / n.
Proof.
  intros Hp Hs HN m ms n. rewrite test_steps. cbv zeta.
  destruct (parameters (the_model w)) as [|p ps] eqn:Ep; [congruence|].
  set (w0 := {| the_model := in_eval_mode (the_model w);
                the_optimizer := the_optimizer w; calls := calls w |}).
  assert (He : eval_mode (the_model w0)) by apply in_eval_mode_eval.
  destruct (test_loop_values criterion regularizer kw (p_device p)
              (batches ld) 0 0 0 w0 He Hs)
    as (w' & ls & ns & c & E & L & N & C).
  rewrite E. cbn [snd]. rewrite !py_div_ok by trivial.
  cbn [the_model w0] in L, N, C. fold m in L, N, C. fold ms in L, N, C.
  assert (Nz : ~ n == 0).
  { intro Z0. unfold n, Qeq in Z0. simpl in Z0. lia. }
  fold n. eexists. eexists. eexists. split; [reflexivity|].
  split; [|split].
  - rewrite N. now rewrite Qplus_0_l.
  - rewrite <- (correct_total_hits _ _ _ Hs ms).
    rewrite C. rewrite Qplus_0_l. field. exact Nz.
  - rewrite L, N. unfold ms.
    rewrite (loss_total_regularizer criterion regularizer kw m
                                    (in_eval_mode_eval _) (batches ld)).
    field. exact Nz.
Qed.

End EvalMetrics.

Lemma test_returns_averages_witness :
  parameters (Toy.bn_model cpu) <> [] /\
  well_shaped Toy.forward [] (batches Toy.four_batches) /\
  dataset_len Toy.four_batches <> 0%Z /\
  exists nll loss accuracy,
    snd (test Toy.forward Toy.bn_forward Toy.four_batches Toy.criterion
              (Some (fun m => l2_regularizer qsqrt (1#10)
                                (map p_data (parameters m))))
              [] (Toy.world_of (Toy.bn_model cpu)))
    = Ok [("nll"%string, nll); ("loss"%string, loss);
          ("accuracy"%string, accuracy)].
Proof.
  assert (Hp : parameters (Toy.bn_model cpu) <> []) by discriminate.
  assert (Hs : well_shaped Toy.forward [] (batches Toy.four_batches))
    by (apply toy_well_shaped; repeat constructor; discriminate).
  assert (HN : dataset_len Toy.four_batches <> 0%Z) by discriminate.
  split; [exact Hp|]. split; [exact Hs|]. split; [exact HN|].
  destruct (test_returns_averages
              Toy.forward Toy.bn_forward Toy.four_batches Toy.criterion
              (Some (fun m => l2_regularizer qsqrt (1#10)
                                (map p_data (parameters m))))
              [] (Toy.world_of (Toy.bn_model cpu)) Hp Hs HN)
    as (nll & loss & accuracy & E & _).
  exists nll, loss, accuracy. exact E.
Defined.

(** ** What the loops keep *)

Lemma keeps_ret {A : Type} (P : world -> Prop) (a : A) : keeps P (ret a).
Proof. intros w H. exact H. Qed.

Lemma keeps_raise {A : Type} (P : world -> Prop) (e : exn) :
  keeps P (@raise A e).
Proof. intros w H. exact H. Qed.

Lemma keeps_lift {A : Type} (P : world -> Prop) (r : result A) :
  keeps P (lift r).
Proof. intros w H. exact H. Qed.

Lemma keeps_bind {A B : Type} (P : world -> Prop) (m : M A) (f : A -> M B) :
  keeps P m -> (forall a, keeps P (f a)) -> keeps P (bind m f).
Proof.
  intros Hm Hf w H. unfold bind. specialize (Hm w H).
  destruct (m w) as [w1 [a|e]]; cbn [fst] in *; trivial. now apply Hf.
Qed.

Lemma keeps_for_each {A S : Type} (P : world -> Prop) (body : A -> S -> M S)
      (xs : list A) :
  (forall x s, In x xs -> keeps P (body x s)) ->
  forall s, keeps P (for_each body xs s).
Proof.
  induction xs as [|x xs IH]; intros H s; cbn [for_each].
  - apply keeps_ret.
  - apply keeps_bind.
    + apply H. now left.
    + intro s'. apply IH. intros y s'' Hy. apply H. now right.
Qed.

Lemma in_mapi_from {A : Type} (l : list A) (k i : nat) (x : A) :
  In (i, x) (mapi_from (fun i x => (i, x)) k l) -> In x l.
Proof.
  revert k. induction l as [|y l IH]; intros k H; cbn in *; [tauto|].
  destruct H as [H|H]; [left; congruence|right; eauto].
Qed.

Section Logs.

Variable w0 : world.
Variable good : call -> Prop.

Lemma logged_same_calls (w w' : world) : calls w' = calls w ->
  logged_since w0 good w -> logged_since w0 good w'.
Proof. intros E (cs & C & F). exists cs. split; [congruence|trivial]. Qed.

Lemma logged_start : logged_since w0 good w0.
Proof. exists []. split; [now rewrite app_nil_r|constructor]. Qed.

Lemma keeps_record_call (c : call) : good c -> keeps (logged_since w0 good) (record_call c).
Proof.
  intros G w (cs & C & F). exists (cs ++ [c]). cbn. split.
  - rewrite C. now rewrite app_assoc.
  - apply Forall_app. split; trivial. now constructor.
Qed.

Lemma keeps_get_model : keeps (logged_since w0 good) get_model.
Proof. intros w H. exact H. Qed.

Lemma keeps_put_model (m : model) : keeps (logged_since w0 good) (put_model m).
Proof. intros w H. now apply (logged_same_calls w). Qed.

Lemma keeps_model_train : keeps (logged_since w0 good) model_train.
Proof. intros w H. now apply (logged_same_calls w). Qed.

Lemma keeps_model_eval : keeps (logged_since w0 good) model_eval.
Proof. intros w H. now apply (logged_same_calls w). Qed.

Lemma keeps_first_parameter_device : keeps (logged_since w0 good) first_parameter_device.
Proof.
  intros w H. unfold first_parameter_device, bind, get_model.
  now destruct (parameters (the_model w)).
Qed.

Lemma keeps_adjust_learning_rate (v : Q) : keeps (logged_since w0 good) (adjust_learning_rate v).
Proof. intros w H. now apply (logged_same_calls w). Qed.

Lemma keeps_zero_grad : keeps (logged_since w0 good) zero_grad.
Proof. intros w H. now apply (logged_same_calls w). Qed.

Lemma keeps_assign_momentum (k : nat) (q : option Q) :
  keeps (logged_since w0 good) (assign_momentum k q).
Proof. intros w H. now apply (logged_same_calls w). Qed.

Lemma keeps_apply {A : Type} (fn : nat -> module -> A -> module * result A)
      (a : A) : keeps (logged_since w0 good) (apply fn a).
Proof.
  intros w H. unfold apply. destruct (apply_from _ _ _ _) as [ms r].
  now apply (logged_same_calls w).
Qed.

Lemma keeps_check_bn : keeps (logged_since w0 good) check_bn.
Proof.
  unfold check_bn. apply keeps_bind; [apply keeps_apply|].
  intro. apply keeps_ret.
Qed.

Variable forward : model -> kwargs -> batch tensor -> list tensor.
Variable bn_forward : model -> kwargs -> batch tensor -> nat -> stats.
Variable autograd : (model -> Q) -> model -> nat -> tensor.
Variable update_rule : optimizer -> nat -> parameter -> tensor.
Variable next_state : optimizer -> list parameter -> list tensor.

Lemma keeps_call_model (kw : kwargs) (x : batch tensor) :
  (forall m, good (ModelCall m x)) ->
  keeps (logged_since w0 good) (call_model forward bn_forward kw x).
Proof.
  intros G w H. unfold call_model.
  apply (logged_same_calls (fst (record_call (ModelCall (the_model w) x) w))).
  - reflexivity.
  - now apply keeps_record_call.
Qed.

Lemma keeps_call_criterion (criterion : list tensor -> batch Z -> Q)
      (output : list tensor) (t : batch Z) :
  good (CriterionCall t) -> keeps (logged_since w0 good) (call_criterion criterion output t).
Proof.
  intros G. unfold call_criterion. apply keeps_bind.
  - now apply keeps_record_call.
  - intro. apply keeps_ret.
Qed.

Lemma keeps_backward (f : model -> Q) : keeps (logged_since w0 good) (backward autograd f).
Proof. intros w H. now apply (logged_same_calls w). Qed.

Lemma keeps_optimizer_step : keeps (logged_since w0 good) (optimizer_step update_rule next_state).
Proof. intros w H. now apply (logged_same_calls w). Qed.

Lemma keeps_regularizer (regularizer : option (model -> Q)) (loss : Q) :
  keeps (logged_since w0 good) match regularizer with
          | Some reg => m <- get_model ;; ret (loss + reg m)
          | None => ret loss
          end.
Proof.
  destruct regularizer.
  - apply keeps_bind; [apply keeps_get_model|]. intro. apply keeps_ret.
  - apply keeps_ret.
Qed.

Lemma keeps_counts {A : Type} (output : list tensor) (t : batch Z)
      (k : Q -> A) :
  keeps (logged_since w0 good) (pred <- lift (argmax_rows output) ;;
           n <- lift (eq_sum pred t) ;; ret (k n)).
Proof.
  apply keeps_bind; [apply keeps_lift|]. intro.
  apply keeps_bind; [apply keeps_lift|]. intro. apply keeps_ret.
Qed.

Lemma keeps_train_body (criterion : list tensor -> batch Z -> Q)
      (regularizer : option (model -> Q)) (lr_schedule : option (Q -> Q))
      (num_iters : Z) (i : nat) (x : batch tensor) (t : batch Z)
      (acc : Q * Q) :
  (forall m, good (ModelCall m x)) -> good (CriterionCall t) ->
  keeps (logged_since w0 good) (train_body forward bn_forward autograd update_rule next_state
                      criterion regularizer lr_schedule num_iters
                      (i, (x, t)) acc).
Proof.
  intros Gx Gt. destruct acc as [loss_sum correct]. unfold train_body.
  apply keeps_bind.
  { destruct lr_schedule.
    - apply keeps_bind; [apply keeps_lift|]. intro.
      apply keeps_adjust_learning_rate.
    - apply keeps_ret. }
  intros _. apply keeps_bind; [apply keeps_first_parameter_device|].
  intros d. cbv zeta. apply keeps_bind; [apply keeps_zero_grad|].
  intros _. apply keeps_bind; [now apply keeps_call_model|].
  intros output. apply keeps_bind; [now apply keeps_call_criterion|].
  intros loss. apply keeps_bind; [apply keeps_regularizer|].
  intros loss'. apply keeps_bind; [apply keeps_backward|].
  intros _. apply keeps_bind; [apply keeps_optimizer_step|].
  intros _. apply (keeps_counts output t
                     (fun n => (loss_sum + loss' * inject_Z (size0 x),
                                correct + n))).
Qed.

Lemma keeps_new_train_body (criterion : list tensor -> batch Z -> Q)
      (regularizer : option (model -> Q)) (lr_schedule : option (Q -> Q))
      (num_iters : Z) (d : device) (i : nat) (x : batch tensor) (t : batch Z)
      (acc : Q * Q) :
  (forall m, good (ModelCall m (to d x))) -> good (CriterionCall (to d t)) ->
  keeps (logged_since w0 good) (new_train_body forward bn_forward autograd update_rule next_state
                          criterion regularizer lr_schedule num_iters d
                          (i, (x, t)) acc).
Proof.
  intros Gx Gt. destruct acc as [loss_sum correct]. unfold new_train_body.
  apply keeps_bind; [apply keeps_zero_grad|].
  intros _. apply keeps_bind.
  { destruct lr_schedule.
    - apply keeps_bind; [apply keeps_lift|]. intro.
      apply keeps_adjust_learning_rate.
    - apply keeps_ret. }
  intros _. apply keeps_bind; [now apply keeps_call_model|].
  intros output. apply keeps_bind; [now apply keeps_call_criterion|].
  intros loss. apply keeps_bind; [apply keeps_regularizer|].
  intros loss'. apply keeps_bind; [apply keeps_backward|].
  intros _. apply keeps_bind; [apply keeps_optimizer_step|].
  intros _. apply (keeps_counts output (to d t)
                     (fun n => (loss_sum + loss' * inject_Z (size0 t),
                                correct + n))).
Qed.

Lemma keeps_test_body (criterion : list tensor -> batch Z -> Q)
      (regularizer : option (model -> Q)) (kw : kwargs) (d : device)
      (x : batch tensor) (t : batch Z) (acc : Q * Q * Q) :
  (forall m, good (ModelCall m x)) -> good (CriterionCall t) ->
  keeps (logged_since w0 good) (test_body forward bn_forward criterion regularizer kw d
                     (x, t) acc).
Proof.
  intros Gx Gt. destruct acc as [[loss_sum nll_sum] correct].
  unfold test_body. cbv zeta.
  apply keeps_bind; [now apply keeps_call_model|].
  intros output. apply keeps_bind; [now apply keeps_call_criterion|].
  intros nll. apply keeps_bind; [apply keeps_regularizer|].
  intros loss. apply (keeps_counts output t
                        (fun n => (loss_sum + loss * inject_Z (size0 x),
                                   nll_sum + nll * inject_Z (size0 x),
                                   correct + n))).
Qed.

Lemma keeps_new_test_body (criterion : list tensor -> batch Z -> Q)
      (regularizer : option (model -> Q)) (kw : kwargs) (d : device)
      (x : batch tensor) (t : batch Z) (acc : Q * Q * Q) :
  (forall m, good (ModelCall m (to d x))) -> good (CriterionCall (to d t)) ->
  keeps (logged_since w0 good) (new_test_body forward bn_forward criterion regularizer kw d
                         (x, t) acc).
Proof.
  intros Gx Gt. destruct acc as [[loss_sum nll_sum] correct].
  unfold new_test_body. cbv zeta. cbn [fst snd].
  apply keeps_bind; [now apply keeps_call_model|].
  intros output. apply keeps_bind; [now apply keeps_call_criterion|].
  intros nll. apply keeps_bind; [apply keeps_regularizer|].
  intros loss. apply (keeps_counts output (to d t)
                        (fun n => (loss_sum + loss * inject_Z (size0 (to d x)),
                                   nll_sum + nll * inject_Z (size0 (to d x)),
                                   correct + n))).
Qed.

Lemma keeps_update_bn_body (kw : kwargs) (momenta : dict)
      (x : batch tensor) (t : batch Z) (n : Z) :
  (forall m, good (ModelCall m x)) ->
  keeps (logged_since w0 good) (update_bn_body forward bn_forward kw momenta (x, t) n).
Proof.
  intros Gx. unfold update_bn_body.
  apply keeps_bind; [apply keeps_first_parameter_device|].
  intros d. cbv zeta. apply keeps_bind; [apply keeps_lift|].
  intros q. apply keeps_bind.
  { apply keeps_for_each. intros k u _.
    apply keeps_bind; [apply keeps_assign_momentum|]. intro. apply keeps_ret. }
  intros _. apply keeps_bind; [now apply keeps_call_model|].
  intros _. apply keeps_ret.
Qed.

End Logs.

Lemma to_same {A : Type} (d : device) (x : batch A) : on x = d -> to d x = x.
Proof. intros <-. now destruct x. Qed.

Lemma for_each_ext {A S : Type} (body body' : A -> S -> M S) (xs : list A) :
  (forall x s w, In x xs -> body x s w = body' x s w) ->
  forall s w, for_each body xs s w = for_each body' xs s w.
Proof.
  induction xs as [|x xs IH]; intros H s w; cbn [for_each]; trivial.
  unfold bind. rewrite (H x s w) by now left.
  destruct (body' x s w) as [w1 [s1|e]]; trivial.
  apply IH. intros y s' w' Hy. apply H. now right.
Qed.

Section Tensors.

Variable forward : model -> kwargs -> batch tensor -> list tensor.
Variable bn_forward : model -> kwargs -> batch tensor -> nat -> stats.
Variable reset_running_stats : stats -> stats.
Variable autograd : (model -> Q) -> model -> nat -> tensor.
Variable update_rule : optimizer -> nat -> parameter -> tensor.
Variable next_state : optimizer -> list parameter -> list tensor.

(** X13: in [train], [test] and [update_bn], however they end, every tensor
    handed to the model or to the criterion is a tensor of the loader just
    as the loader yielded it: the results of [to(device)] are never
    used. *)
Theorem loops_consume_loader_tensors
  (ld : loader) (criterion : list tensor -> batch Z -> Q)
  (regularizer : option (model -> Q)) (lr_schedule : option (Q -> Q))
  (kw : kwargs) (w : world) :
  logged_since w (from_loader ld)
    (fst (train forward bn_forward autograd update_rule next_state
                ld criterion regularizer lr_schedule w)) /\
  logged_since w (from_loader ld)
    (fst (test forward bn_forward ld criterion regularizer kw w)) /\
  logged_since w (from_loader ld)
    (fst (update_bn forward bn_forward reset_running_stats ld kw w)).
Proof.
  assert (Gx : forall x t, In (x, t) (batches ld) ->
                           forall m, from_loader ld (ModelCall m x)).
  { intros x t H m. cbn. apply in_map_iff. now exists (x, t). }
  assert (Gt : forall x t, In (x, t) (batches ld) ->
                           from_loader ld (CriterionCall t)).
  { intros x t H. cbn. apply in_map_iff. now exists (x, t). }
  split; [|split].
  - apply (keeps_bind (logged_since w (from_loader ld)));
      [apply keeps_model_train| |apply logged_start].
    intros _. apply keeps_bind.
    + apply keeps_for_each. intros [i [x t]] acc H.
      apply in_mapi_from in H. apply keeps_train_body; eauto.
    + intros [loss_sum correct]. apply keeps_bind; [apply keeps_lift|].
      intro. apply keeps_bind; [apply keeps_lift|]. intro. apply keeps_ret.
  - apply (keeps_bind (logged_since w (from_loader ld)));
      [apply keeps_model_eval| |apply logged_start].
    intros _. apply keeps_bind; [apply keeps_first_parameter_device|].
    intros d. apply keeps_bind.
    + apply keeps_for_each. intros [x t] acc H.
      apply keeps_test_body; eauto.
    + intros [[loss_sum nll_sum] correct].
      apply keeps_bind; [apply keeps_lift|]. intro.
      apply keeps_bind; [apply keeps_lift|]. intro.
      apply keeps_bind; [apply keeps_lift|]. intro. apply keeps_ret.
  - apply (keeps_bind (logged_since w (from_loader ld)));
      [apply keeps_check_bn| |apply logged_start].
    intros b. destruct (negb b); [apply keeps_ret|].
    apply keeps_bind; [apply keeps_model_train|]. intros _. cbv zeta.
    apply keeps_bind; [apply keeps_apply|]. intros _.
    apply keeps_bind; [apply keeps_apply|]. intros momenta.
    apply keeps_bind.
    + apply keeps_for_each. intros [x t] n H.
      apply keeps_update_bn_body; eauto.
    + intros _. apply keeps_bind; [apply keeps_apply|]. intro.
      apply keeps_ret.
Qed.

(** X14: in [new_train] and [new_test], however they end, every tensor
    handed to the model or to the criterion is on the device of the first
    parameter of the model; on a model without parameters they hand over
    nothing at all. *)
Theorem new_loops_move_tensors
  (ld : loader) (criterion : list tensor -> batch Z -> Q)
  (regularizer : option (model -> Q)) (lr_schedule : option (Q -> Q))
  (kw : kwargs) (w : world) :
  let on_model_device c :=
    match parameters (the_model w) with
    | p :: _ => call_device c = p_device p
    | [] => False
    end in
  logged_since w on_model_device
    (fst (new_train forward bn_forward autograd update_rule next_state
                    ld criterion regularizer lr_schedule w)) /\
  logged_since w on_model_device
    (fst (new_test forward bn_forward ld criterion regularizer kw w)).
Proof.
  intro good. split.
  - unfold new_train. cbv zeta. unfold bind at 1, first_parameter_device,
      bind at 1, get_model.
    destruct (parameters (the_model w)) as [|p ps] eqn:Ep;
      [apply logged_start|].
    unfold ret at 1.
    apply (keeps_bind (logged_since w good));
      [apply keeps_model_train| |apply logged_start].
    intros _. apply keeps_bind.
    + apply keeps_for_each. intros [i [x t]] acc H.
      apply keeps_new_train_body; intros; reflexivity.
    + intros [loss_sum correct]. apply keeps_bind; [apply keeps_lift|].
      intro. apply keeps_bind; [apply keeps_lift|]. intro. apply keeps_ret.
  - unfold new_test. cbv zeta. unfold bind at 1, model_eval, bind at 1,
      get_model, put_model.
    unfold bind at 1, first_parameter_device, bind at 1, get_model.
    cbn [the_model set_modules parameters].
    destruct (parameters (the_model w)) as [|p ps] eqn:Ep.
    { exists []. cbn. split; [now rewrite app_nil_r|constructor]. }
    unfold ret at 1.
    match goal with
    | |- logged_since _ _ (fst (bind _ _ ?w1)) =>
        assert (S : logged_since w good w1)
          by (exists []; cbn; split; [now rewrite app_nil_r|constructor]);
        revert S; generalize w1
    end.
    apply (keeps_bind (logged_since w good)).
    + apply keeps_for_each. intros [x t] acc H.
      apply keeps_new_test_body; intros; reflexivity.
    + intros [[loss_sum nll_sum] correct].
      apply keeps_bind; [apply keeps_lift|]. intro.
      apply keeps_bind; [apply keeps_lift|]. intro.
      apply keeps_bind; [apply keeps_lift|]. intro. apply keeps_ret.
Qed.

(** [new_test], step by step. *)
Lemma new_test_steps (ld : loader) (criterion : list tensor -> batch Z -> Q)
      (regularizer : option (model -> Q)) (kw : kwargs) (w : world) :
  let w0 := {| the_model := in_eval_mode (the_model w);
               the_optimizer := the_optimizer w; calls := calls w |} in
  let n := inject_Z (dataset_len ld) in
  new_test forward bn_forward ld criterion regularizer kw w
  = match parameters (the_model w) with
    | [] => (w0, Raise StopIteration)
    | p :: _ =>
        match for_each (new_test_body forward bn_forward criterion regularizer
                                      kw (p_device p))
                       (batches ld) (0, 0, 0) w0 with
        | (w1, Ok (loss_sum, nll_sum, correct)) =>
            (w1,
             match py_div nll_sum n, py_div loss_sum n,
                   py_div (correct * 100) n with
             | Ok nll, Ok loss, Ok accuracy =>
                 Ok [("nll"%string, nll); ("loss"%string, loss);
                     ("accuracy"%string, accuracy)]
             | Raise e, _, _ => Raise e
             | _, Raise e, _ => Raise e
             | _, _, Raise e => Raise e
             end)
        | (w1, Raise e) => (w1, Raise e)
        end
    end.
Proof.
  intros w0 n.
  unfold new_test, bind at 1, model_eval, bind at 1, get_model, put_model.
  fold (in_eval_mode (the_model w)). fold w0.
  unfold bind at 1, first_parameter_device, bind at 1, get_model.
  change (parameters (the_model w0)) with (parameters (the_model w)).
  destruct (parameters (the_model w)) as [|p ps]; [reflexivity|].
  unfold ret at 1. unfold bind at 1.
  destruct (for_each _ _ _ _) as [w1 [[[ls ns] c]|e]]; [|reflexivity].
  unfold bind, lift, ret. fold n.
  destruct (py_div ns n), (py_div ls n), (py_div (c * 100) n); reflexivity.
Qed.

(** X15: when the loader already yields its tensors on the device of the
    model's first parameter, [new_test] does exactly what [test] does: the
    same result and the same world. *)
Theorem new_test_is_test_on_device
  (ld : loader) (criterion : list tensor -> batch Z -> Q)
  (regularizer : option (model -> Q)) (kw : kwargs) (w : world)
  (p : parameter) (ps : list parameter) :
  parameters (the_model w) = p :: ps ->
  loader_on (p_device p) ld ->
  new_test forward bn_forward ld criterion regularizer kw w
  = test forward bn_forward ld criterion regularizer kw w.
Proof.
  intros Ep Hl. rewrite new_test_steps, test_steps. cbv zeta. rewrite Ep.
  rewrite (for_each_ext
             (new_test_body forward bn_forward criterion regularizer kw
                            (p_device p))
             (test_body forward bn_forward criterion regularizer kw
                        (p_device p)) (batches ld)); [reflexivity|].
  intros [x t] [[ls ns] c] w' Hin. unfold loader_on in Hl.
  rewrite Forall_forall in Hl. destruct (Hl (x, t) Hin) as [Hx Ht].
  unfold new_test_body, test_body. cbv zeta. cbn [fst snd] in *.
  now rewrite (to_same _ x Hx), (to_same _ t Ht).
Qed.

End Tensors.

Lemma new_test_is_test_on_device_witness :
  parameters (the_model (Toy.world_of (Toy.bn_model cpu)))
  = [Toy.parameter_on cpu] /\
  loader_on cpu Toy.four_batches /\
  new_test Toy.forward Toy.bn_forward Toy.four_batches Toy.criterion None []
           (Toy.world_of (Toy.bn_model cpu))
  = test Toy.forward Toy.bn_forward Toy.four_batches Toy.criterion None []
         (Toy.world_of (Toy.bn_model cpu)).
Proof.
  assert (Hl : loader_on cpu Toy.four_batches) by (repeat constructor).
  split; [reflexivity|]. split; [exact Hl|].
  exact (new_test_is_test_on_device
           Toy.forward Toy.bn_forward Toy.four_batches Toy.criterion None []
           (Toy.world_of (Toy.bn_model cpu)) (Toy.parameter_on cpu) []
           eq_refl Hl).
Defined.

(** ** Empty loaders, empty datasets, models without parameters *)

Lemma py_div_zero (a : Q) : py_div a (inject_Z 0) = Raise ZeroDivisionError.
Proof. reflexivity. Qed.

Section Edges.

Variable forward : model -> kwargs -> batch tensor -> list tensor.
Variable bn_forward : model -> kwargs -> batch tensor -> nat -> stats.
Variable autograd : (model -> Q) -> model -> nat -> tensor.
Variable update_rule : optimizer -> nat -> parameter -> tensor.
Variable next_state : optimizer -> list parameter -> list tensor.
Variable softmax : list tensor -> list tensor.

(** X16: on a loader that yields no batch, [train] only puts the model in
    training mode (it does not even need a parameter) and then divides the
    empty sums by the size of the dataset: it returns loss 0 and accuracy 0
    when that size is not zero and raises [ZeroDivisionError] when it
    is. *)
Theorem train_empty_loader
  (ld : loader) (criterion : list tensor -> batch Z -> Q)
  (regularizer : option (model -> Q)) (lr_schedule : option (Q -> Q))
  (w : world) :
  batches ld = [] ->
  let run := train forward bn_forward autograd update_rule next_state
                   ld criterion regularizer lr_schedule w in
  fst run = fst (model_train w) /\
  (dataset_len ld = 0%Z -> snd run = Raise ZeroDivisionError) /\
  (dataset_len ld <> 0%Z ->
   exists loss accuracy,
     snd run = Ok [("loss"%string, loss); ("accuracy"%string, accuracy)] /\
     loss == 0 /\ accuracy == 0).
Proof.
  intros He run. unfold run, train. rewrite He. cbv zeta.
  unfold bind at 1. change (model_train w) with (fst (model_train w), Ok tt).
  cbv iota beta. cbn [length enumerate mapi mapi_from for_each].
  unfold bind at 1, ret at 1. split; [|split].
  - unfold bind, lift, ret.
    destruct (py_div 0 _); [destruct (py_div (0 * 100) _)|]; reflexivity.
  - intros ->. reflexivity.
  - intro HN. unfold bind, lift, ret. rewrite !py_div_ok by trivial.
    eexists. eexists. split; [reflexivity|].
    assert (Nz : ~ inject_Z (dataset_len ld) == 0).
    { intro Z0. unfold Qeq in Z0. simpl in Z0. lia. }
    split; field; exact Nz.
Qed.

(** X17: the size of the dataset is only looked at when the pass is over:
    with a dataset of size 0 and a loader that still yields batches (on a
    model with a parameter and well-shaped scores), [train] and [test] run
    one forward pass per batch and only then raise
    [ZeroDivisionError]. *)
Theorem zero_dataset_raises_after_the_pass
  (ld : loader) (criterion : list tensor -> batch Z -> Q)
  (regularizer : option (model -> Q)) (lr_schedule : option (Q -> Q))
  (kw : kwargs) (w : world) :
  batches ld <> [] ->
  parameters (the_model w) <> [] ->
  well_shaped forward [] (batches ld) ->
  well_shaped forward kw (batches ld) ->
  dataset_len ld = 0%Z ->
  (exists w' ms,
     train forward bn_forward autograd update_rule next_state
           ld criterion regularizer lr_schedule w
     = (w', Raise ZeroDivisionError) /\
     length ms = length (batches ld) /\
     calls w' = calls w ++ passes ms (batches ld)) /\
  (exists w',
     test forward bn_forward ld criterion regularizer kw w
     = (w', Raise ZeroDivisionError) /\
     calls w'
     = calls w ++ passes (repeat (in_eval_mode (the_model w))
                                 (length (batches ld))) (batches ld)).
Proof.
  intros Hb Hp Hs Hk HN. split.
  - unfold train. cbv zeta.
    assert (E0 : exists w0, model_train w = (w0, Ok tt) /\
                            calls w0 = calls w /\
                            parameters (the_model w0) <> []).
    { eexists. split; [reflexivity|]. split; [reflexivity|exact Hp]. }
    destruct E0 as (w0 & E0 & C0 & P0). rewrite (bind_ok _ _ _ _ _ E0).
    assert (Hn : Z.of_nat (length (batches ld)) <> 0%Z).
    { destruct (batches ld); [congruence|]. cbn [length]. lia. }
    destruct (train_loop_ok forward bn_forward autograd update_rule next_state
                criterion regularizer lr_schedule _ Hn
                (batches ld) 0 0 0 w0 P0 Hs)
      as (w' & ms & ls & c & E & Len & Cs & _).
    unfold enumerate, mapi. rewrite (bind_ok _ _ _ _ _ E).
    rewrite HN. exists w', ms. split; [reflexivity|].
    split; [exact Len|]. now rewrite Cs, C0.
  - rewrite test_steps. cbv zeta.
    destruct (parameters (the_model w)) as [|p ps] eqn:Ep; [congruence|].
    set (w0 := {| the_model := in_eval_mode (the_model w);
                  the_optimizer := the_optimizer w; calls := calls w |}).
    assert (He : eval_mode (the_model w0)) by apply in_eval_mode_eval.
    destruct (test_loop_spec forward bn_forward criterion regularizer kw
                (p_device p) (batches ld) (0, 0, 0) w0 He)
      as (k & r & E & _ & Hr).
    destruct (Hr Hk) as [-> [[[ls ns] c] ->]]. rewrite E, HN.
    eexists. split; [reflexivity|]. reflexivity.
Qed.

Lemma for_each_raises {A S : Type} (body : A -> S -> M S) (x : A)
      (xs : list A) (s : S) (w w' : world) (e : exn) :
  body x s w = (w', Raise e) -> for_each body (x :: xs) s w = (w', Raise e).
Proof. intro H. rewrite for_each_cons. unfold bind. now rewrite H. Qed.

Lemma train_body_no_parameter (criterion : list tensor -> batch Z -> Q)
      (regularizer : option (model -> Q)) (lr_schedule : option (Q -> Q))
      (num_iters : Z) (i : nat) (x : batch tensor) (t : batch Z)
      (acc : Q * Q) (w : world) :
  parameters (the_model w) = [] ->
  num_iters <> 0%Z ->
  train_body forward bn_forward autograd update_rule next_state
             criterion regularizer lr_schedule num_iters (i, (x, t)) acc w
  = (match lr_schedule with
     | Some schedule =>
         fst (adjust_learning_rate
                (schedule (inject_Z (Z.of_nat i) / inject_Z num_iters)) w)
     | None => w
     end, Raise StopIteration).
Proof.
  intros Ep Hn. destruct acc as [loss_sum correct]. unfold train_body.
  destruct lr_schedule as [schedule|].
  - unfold bind at 1. unfold bind at 1, lift. rewrite py_div_ok by exact Hn.
    change (adjust_learning_rate
              (schedule (inject_Z (Z.of_nat i) / inject_Z num_iters)) w)
      with (fst (adjust_learning_rate
                   (schedule (inject_Z (Z.of_nat i) / inject_Z num_iters)) w),
            Ok (schedule (inject_Z (Z.of_nat i) / inject_Z num_iters))).
    cbv iota beta. unfold bind at 1, first_parameter_device, bind, get_model.
    cbn [the_model adjust_learning_rate fst bind get_optimizer put_optimizer
         ret]. now rewrite Ep.
  - unfold bind at 1, ret at 1.
    unfold bind at 1, first_parameter_device, bind, get_model. now rewrite Ep.
Qed.

(** X18: a model without parameters stops the loops that read the device
    of the first parameter: [test] and [new_test] raise [StopIteration] for
    every loader, even an empty one, after putting the model in evaluation
    mode; [new_train] raises it before touching anything; [train] raises it
    on the first batch, with the model already in training mode, and the
    rate already set when there is a schedule.  None of them runs a forward
    pass. *)
Theorem no_parameter_stops_the_loops
  (ld : loader) (criterion : list tensor -> batch Z -> Q)
  (regularizer : option (model -> Q)) (lr_schedule : option (Q -> Q))
  (kw : kwargs) (w : world) :
  parameters (the_model w) = [] ->
  test forward bn_forward ld criterion regularizer kw w
  = (fst (model_eval w), Raise StopIteration) /\
  new_test forward bn_forward ld criterion regularizer kw w
  = (fst (model_eval w), Raise StopIteration) /\
  new_train forward bn_forward autograd update_rule next_state
            ld criterion regularizer lr_schedule w
  = (w, Raise StopIteration) /\
  (batches ld <> [] ->
   let run := train forward bn_forward autograd update_rule next_state
                    ld criterion regularizer lr_schedule w in
   snd run = Raise StopIteration /\
   the_model (fst run) = the_model (fst (model_train w)) /\
   calls (fst run) = calls w /\
   param_groups (the_optimizer (fst run))
   = match lr_schedule with
     | Some schedule =>
         map (set_lr (schedule (inject_Z 0
                                / inject_Z (Z.of_nat (length (batches ld))))))
             (param_groups (the_optimizer w))
     | None => param_groups (the_optimizer w)
     end).
Proof.
  intro Ep. split; [|split; [|split]].
  - rewrite test_steps. cbv zeta. now rewrite Ep.
  - rewrite new_test_steps. cbv zeta. now rewrite Ep.
  - unfold new_train. cbv zeta.
    unfold bind at 1, first_parameter_device, bind, get_model.
    now rewrite Ep.
  - intros Hb run.
    assert (Hn : Z.of_nat (length (batches ld)) <> 0%Z).
    { destruct (batches ld); [congruence|]. cbn [length]. lia. }
    assert (E : run
                = (match lr_schedule with
                   | Some schedule =>
                       fst (adjust_learning_rate
                              (schedule (inject_Z (Z.of_nat 0)
                                         / inject_Z (Z.of_nat
                                                       (length (batches ld)))))
                              (fst (model_train w)))
                   | None => fst (model_train w)
                   end, Raise StopIteration)).
    { unfold run, train. cbv zeta.
      destruct (batches ld) as [|[x t] bs] eqn:Eb; [congruence|].
      unfold bind at 1.
      change (model_train w) with (fst (model_train w), Ok tt).
      cbv iota beta. cbn [enumerate mapi mapi_from].
      unfold bind at 1.
      rewrite (for_each_raises _ _ _ _ _ _ _
                 (train_body_no_parameter criterion regularizer lr_schedule
                    _ 0 x t (0, 0) (fst (model_train w)) Ep Hn)).
      reflexivity. }
    rewrite E. destruct lr_schedule; repeat split.
Qed.

(** X19: [predictions] never returns, whatever the loader; on a loader that
    yields no batch it raises [ValueError], from stacking an empty list.
    All it leaves behind is a model in evaluation mode. *)
Theorem predictions_never_returns (ld : loader) (kw : kwargs) (w : world) :
  (exists e, predictions softmax ld kw w = (fst (model_eval w), Raise e)) /\
  (batches ld = [] ->
   predictions softmax ld kw w = (fst (model_eval w), Raise ValueError)).
Proof.
  assert (E : batches ld = [] ->
              predictions softmax ld kw w
              = (fst (model_eval w), Raise ValueError)).
  { intro Eb. unfold predictions. rewrite Eb. reflexivity. }
  split; [|exact E].
  destruct (batches ld) as [|[x t] bs] eqn:Eb.
  - eexists. now apply E.
  - eexists. unfold predictions. cbv zeta. unfold bind at 1.
    change (model_eval w) with (fst (model_eval w), Ok tt).
    cbv iota beta. unfold bind at 1. rewrite Eb.
    rewrite (for_each_raise _ _ _ _ _ _
               (predictions_body_raises softmax x t _ _)).
    reflexivity.
Qed.

End Edges.

Lemma train_empty_loader_witness :
  batches {| batches := []; dataset_len := 5 |} = [] /\
  exists loss accuracy,
    snd (train Toy.forward Toy.bn_forward Toy.autograd Toy.update_rule
               Toy.next_state {| batches := []; dataset_len := 5 |}
               Toy.criterion None None (Toy.world_of Toy.bare_model))
    = Ok [("loss"%string, loss); ("accuracy"%string, accuracy)] /\
    loss == 0 /\ accuracy == 0.
Proof.
  split; [reflexivity|].
  apply (train_empty_loader
           Toy.forward Toy.bn_forward Toy.autograd Toy.update_rule
           Toy.next_state {| batches := []; dataset_len := 5 |}
           Toy.criterion None None (Toy.world_of Toy.bare_model) eq_refl).
  discriminate.
Defined.

Lemma zero_dataset_raises_after_the_pass_witness :
  let ld := {| batches := [Toy.batch2; Toy.batch2]; dataset_len := 0 |} in
  batches ld <> [] /\
  parameters (Toy.bn_model cpu) <> [] /\
  well_shaped Toy.forward [] (batches ld) /\
  dataset_len ld = 0%Z /\
  exists w',
    test Toy.forward Toy.bn_forward ld Toy.criterion None []
         (Toy.world_of (Toy.bn_model cpu))
    = (w', Raise ZeroDivisionError).
Proof.
  intro ld.
  assert (Hb : batches ld <> []) by discriminate.
  assert (Hp : parameters (Toy.bn_model cpu) <> []) by discriminate.
  assert (Hs : well_shaped Toy.forward [] (batches ld))
    by (apply toy_well_shaped; repeat constructor; discriminate).
  split; [exact Hb|]. split; [exact Hp|]. split; [exact Hs|].
  split; [reflexivity|].
  destruct (zero_dataset_raises_after_the_pass
              Toy.forward Toy.bn_forward Toy.autograd Toy.update_rule
              Toy.next_state ld Toy.criterion None None []
              (Toy.world_of (Toy.bn_model cpu)) Hb Hp Hs Hs eq_refl)
    as (_ & w' & E & _).
  exists w'. exact E.
Defined.

Lemma no_parameter_stops_the_loops_witness :
  parameters (the_model (Toy.world_of Toy.bare_model)) = [] /\
  new_train Toy.forward Toy.bn_forward Toy.autograd Toy.update_rule
            Toy.next_state Toy.no_batch Toy.criterion None None
            (Toy.world_of Toy.bare_model)
  = (Toy.world_of Toy.bare_model, Raise StopIteration).
Proof.
  split; [reflexivity|].
  apply (no_parameter_stops_the_loops
           Toy.forward Toy.bn_forward Toy.autograd Toy.update_rule
           Toy.next_state Toy.no_batch Toy.criterion None None []
           (Toy.world_of Toy.bare_model) eq_refl).
Defined.

(** ** What the train loops leave unchanged *)

Lemma unchanged_ret {A X : Type} (f : world -> X) (a : A) :
  unchanged f (ret a).
Proof. intro w. reflexivity. Qed.

Lemma unchanged_lift {A X : Type} (f : world -> X) (r : result A) :
  unchanged f (lift r).
Proof. intro w. reflexivity. Qed.

Lemma unchanged_bind {A B X : Type} (f : world -> X) (m : M A)
      (k : A -> M B) :
  unchanged f m -> (forall a, unchanged f (k a)) -> unchanged f (bind m k).
Proof.
  intros Hm Hk w. unfold bind. specialize (Hm w).
  destruct (m w) as [w1 [a|e]]; cbn [fst] in *; trivial.
  now rewrite Hk.
Qed.

Lemma unchanged_for_each {A S X : Type} (f : world -> X)
      (body : A -> S -> M S) (xs : list A) :
  (forall x s, unchanged f (body x s)) ->
  forall s, unchanged f (for_each body xs s).
Proof.
  intro H. induction xs as [|x xs IH]; intro s; cbn [for_each].
  - apply unchanged_ret.
  - apply unchanged_bind; trivial.
Qed.

Lemma unchanged_first_parameter_device {X : Type} (f : world -> X) :
  unchanged f first_parameter_device.
Proof.
  intro w. unfold first_parameter_device, bind, get_model.
  now destruct (parameters (the_model w)).
Qed.

Lemma map_mapi_from {A B C : Type} (g : B -> C) (f : nat -> A -> B)
      (h : A -> C) (l : list A) :
  (forall k x, g (f k x) = h x) ->
  forall k, map g (mapi_from f k l) = map h l.
Proof.
  intro H. induction l as [|x l IH]; intro k; cbn; trivial.
  now rewrite H, IH.
Qed.

Section TrainFrame.

Variable forward : model -> kwargs -> batch tensor -> list tensor.
Variable bn_forward : model -> kwargs -> batch tensor -> nat -> stats.
Variable autograd : (model -> Q) -> model -> nat -> tensor.
Variable update_rule : optimizer -> nat -> parameter -> tensor.
Variable next_state : optimizer -> list parameter -> list tensor.

Lemma structure_adjust_learning_rate (v : Q) :
  unchanged structure (adjust_learning_rate v).
Proof. intro w. unfold structure. cbn. now rewrite map_map. Qed.

Lemma structure_zero_grad : unchanged structure zero_grad.
Proof.
  intro w. unfold structure. cbn. unfold mapi.
  rewrite (map_mapi_from p_device _ p_device); trivial.
  intros k p. now destruct (owns _ _).
Qed.

Lemma structure_call_model (kw : kwargs) (x : batch tensor) :
  unchanged structure (call_model forward bn_forward kw x).
Proof.
  intro w. unfold structure. cbn. unfold track, mapi.
  rewrite (map_mapi_from class_of _ class_of),
    (map_mapi_from mod_training _ mod_training),
    (map_mapi_from momentum _ momentum); trivial;
    intros k md; now destruct (mod_training md && isbatchnorm md).
Qed.

Lemma structure_backward (f : model -> Q) :
  unchanged structure (backward autograd f).
Proof.
  intro w. unfold structure. cbn. unfold mapi.
  rewrite (map_mapi_from p_device _ p_device); trivial.
Qed.

Lemma structure_optimizer_step :
  unchanged structure (optimizer_step update_rule next_state).
Proof.
  intro w. unfold structure. cbn. unfold mapi.
  rewrite (map_mapi_from p_device _ p_device); trivial.
  intros k p. now destruct (owns _ _).
Qed.

Lemma groups_zero_grad : unchanged groups zero_grad.
Proof. intro w. reflexivity. Qed.

Lemma groups_call_model (kw : kwargs) (x : batch tensor) :
  unchanged groups (call_model forward bn_forward kw x).
Proof. intro w. reflexivity. Qed.

Lemma groups_backward (f : model -> Q) :
  unchanged groups (backward autograd f).
Proof. intro w. reflexivity. Qed.

Lemma groups_optimizer_step :
  unchanged groups (optimizer_step update_rule next_state).
Proof. intro w. reflexivity. Qed.

(** The part the bodies of [train] and [new_train] share, from the forward
    pass on. *)
Lemma unchanged_tail {X : Type} (f : world -> X)
      (criterion : list tensor -> batch Z -> Q)
      (regularizer : option (model -> Q)) (x : batch tensor) (t t' : batch Z)
      (kw : kwargs) (size : Z) (loss_sum correct : Q) (g : model -> Q) :
  unchanged f (call_model forward bn_forward kw x) ->
  (forall output, unchanged f (call_criterion criterion output t)) ->
  unchanged f (backward autograd g) ->
  unchanged f (optimizer_step update_rule next_state) ->
  unchanged f
    (output <- call_model forward bn_forward kw x ;;
     loss <- call_criterion criterion output t ;;
     loss <- match regularizer with
             | Some reg => m <- get_model ;; ret (loss + reg m)
             | None => ret loss
             end ;;
     backward autograd g ;;
     optimizer_step update_rule next_state ;;
     let loss_sum := loss_sum + loss * inject_Z size in
     pred <- lift (argmax_rows output) ;;
     n <- lift (eq_sum pred t') ;;
     let correct := correct + n in
     ret (loss_sum, correct)).
Proof.
  intros Hm Hc Hb Hs.
  apply unchanged_bind; [exact Hm|]. intro output.
  apply unchanged_bind; [apply Hc|].
  intro loss. apply unchanged_bind.
  { destruct regularizer.
    - apply unchanged_bind; [intro w; reflexivity|]. intro.
      apply unchanged_ret.
    - apply unchanged_ret. }
  intro loss'. apply unchanged_bind; [apply Hb|]. intros _.
  apply unchanged_bind; [exact Hs|]. intros _. cbv zeta.
  apply unchanged_bind; [apply unchanged_lift|]. intro.
  apply unchanged_bind; [apply unchanged_lift|]. intro. apply unchanged_ret.
Qed.

Lemma structure_schedule (lr_schedule : option (Q -> Q)) (a b : Q) :
  unchanged structure
    match lr_schedule with
    | Some schedule => x <- lift (py_div a b) ;; adjust_learning_rate (schedule x)
    | None => ret 0
    end.
Proof.
  destruct lr_schedule.
  - apply unchanged_bind; [apply unchanged_lift|]. intro.
    apply structure_adjust_learning_rate.
  - apply unchanged_ret.
Qed.

Lemma structure_train_body (criterion : list tensor -> batch Z -> Q)
      (regularizer : option (model -> Q)) (lr_schedule : option (Q -> Q))
      (num_iters : Z) (ib : nat * (batch tensor * batch Z)) (acc : Q * Q) :
  unchanged structure
    (train_body forward bn_forward autograd update_rule next_state
                criterion regularizer lr_schedule num_iters ib acc).
Proof.
  destruct ib as [i [x t]], acc as [loss_sum correct]. unfold train_body.
  apply unchanged_bind; [apply structure_schedule|]. intros _.
  apply unchanged_bind; [apply unchanged_first_parameter_device|].
  intros d. cbv zeta. apply unchanged_bind; [apply structure_zero_grad|].
  intros _.
  apply (unchanged_tail structure criterion regularizer x t t [] (size0 x)).
  - apply structure_call_model.
  - intros output w. reflexivity.
  - apply structure_backward.
  - apply structure_optimizer_step.
Qed.

Lemma structure_new_train_body (criterion : list tensor -> batch Z -> Q)
      (regularizer : option (model -> Q)) (lr_schedule : option (Q -> Q))
      (num_iters : Z) (d : device) (ib : nat * (batch tensor * batch Z))
      (acc : Q * Q) :
  unchanged structure
    (new_train_body forward bn_forward autograd update_rule next_state
                    criterion regularizer lr_schedule num_iters d ib acc).
Proof.
  destruct ib as [i [x t]], acc as [loss_sum correct]. unfold new_train_body.
  apply unchanged_bind; [apply structure_zero_grad|]. intros _.
  apply unchanged_bind; [apply structure_schedule|]. intros _.
  apply (unchanged_tail structure criterion regularizer (to d x) (to d t)
                        (to d t) [] (size0 t)).
  - apply structure_call_model.
  - intros output w. reflexivity.
  - apply structure_backward.
  - apply structure_optimizer_step.
Qed.

Lemma unchanged_averages {X : Type} (f : world -> X) (n : Z) (acc : Q * Q) :
  unchanged f
    (let (loss_sum, correct) := acc in
     loss <- lift (py_div loss_sum (inject_Z n)) ;;
     accuracy <- lift (py_div (correct * 100) (inject_Z n)) ;;
     ret [("loss"%string, loss); ("accuracy"%string, accuracy)]).
Proof.
  destruct acc. apply unchanged_bind; [apply unchanged_lift|]. intro.
  apply unchanged_bind; [apply unchanged_lift|]. intro. apply unchanged_ret.
Qed.

Lemma structure_after_model_train (w w' : world) :
  structure w' = structure (fst (model_train w)) ->
  map class_of (modules (the_model w')) = map class_of (modules (the_model w))
  /\ map momentum (modules (the_model w'))
     = map momentum (modules (the_model w))
  /\ map p_device (parameters (the_model w'))
     = map p_device (parameters (the_model w))
  /\ map group_params (param_groups (the_optimizer w'))
     = map group_params (param_groups (the_optimizer w))
  /\ training_mode w'.
Proof.
  intro E. unfold structure in E. cbn in E.
  injection E as Ec Ef Em Ed Eg. rewrite map_map in Ec, Ef, Em.
  cbn in Ec, Ef, Em. repeat split; trivial.
  unfold training_mode. clear Ec Em Ed Eg. revert Ef.
  generalize (modules (the_model w')).
  induction (modules (the_model w)) as [|md ms IH]; intros [|md' ms'] E;
    cbn in E; try discriminate; constructor.
  - injection E as E1 E2. exact E1.
  - apply IH. injection E as E1 E2. exact E2.
Qed.

(** X20: however [train] ends, it leaves the classes and the momenta of the
    submodules, the devices of the parameters (and so their number) and the
    parameters of each optimizer group as they were, and every submodule in
    training mode; so does [new_train] on a model with a parameter, and on a
    model without one it stops before touching anything. *)
Theorem train_keeps_structure
  (ld : loader) (criterion : list tensor -> batch Z -> Q)
  (regularizer : option (model -> Q)) (lr_schedule : option (Q -> Q))
  (w : world) :
  let kept w' :=
    map class_of (modules (the_model w')) = map class_of (modules (the_model w))
    /\ map momentum (modules (the_model w'))
       = map momentum (modules (the_model w))
    /\ map p_device (parameters (the_model w'))
       = map p_device (parameters (the_model w))
    /\ map group_params (param_groups (the_optimizer w'))
       = map group_params (param_groups (the_optimizer w))
    /\ training_mode w' in
  kept (fst (train forward bn_forward autograd update_rule next_state
                   ld criterion regularizer lr_schedule w)) /\
  (parameters (the_model w) <> [] ->
   kept (fst (new_train forward bn_forward autograd update_rule next_state
                        ld criterion regularizer lr_schedule w))) /\
  (parameters (the_model w) = [] ->
   fst (new_train forward bn_forward autograd update_rule next_state
                  ld criterion regularizer lr_schedule w) = w).
Proof.
  cbv zeta. split; [|split].
  - apply structure_after_model_train.
    unfold train. cbv zeta. unfold bind at 1.
    change (model_train w) with (fst (model_train w), Ok tt). cbv iota beta.
    apply (unchanged_bind structure).
    + apply unchanged_for_each. intros. apply structure_train_body.
    + intro acc. apply unchanged_averages.
  - intro Hp. apply structure_after_model_train.
    unfold new_train. cbv zeta.
    unfold bind at 1, first_parameter_device, bind at 1, get_model.
    destruct (parameters (the_model w)) as [|p ps]; [congruence|].
    unfold ret at 1. unfold bind at 1.
    change (model_train w) with (fst (model_train w), Ok tt). cbv iota beta.
    apply (unchanged_bind structure).
    + apply unchanged_for_each. intros. apply structure_new_train_body.
    + intro acc. apply unchanged_averages.
  - intro Ep. unfold new_train. cbv zeta.
    unfold bind at 1, first_parameter_device, bind, get_model. now rewrite Ep.
Qed.

End TrainFrame.

(** ** The learning rate a pass leaves *)

Lemma bind_unchanged {A B X : Type} (f : world -> X) (m : M A)
      (k : A -> M B) (w : world) :
  (forall a, unchanged f (k a)) -> f (fst (bind m k w)) = f (fst (m w)).
Proof.
  intro H. unfold bind. destruct (m w) as [w1 [a|e]]; cbn [fst]; trivial.
  apply H.
Qed.

Lemma set_lr_twice (v v' : Q) (gs : list param_group) :
  map (set_lr v') (map (set_lr v) gs) = map (set_lr v') gs.
Proof. rewrite map_map. reflexivity. Qed.

Section LastRate.

Variable forward : model -> kwargs -> batch tensor -> list tensor.
Variable bn_forward : model -> kwargs -> batch tensor -> nat -> stats.
Variable autograd : (model -> Q) -> model -> nat -> tensor.
Variable update_rule : optimizer -> nat -> parameter -> tensor.
Variable next_state : optimizer -> list parameter -> list tensor.

Lemma groups_after_device (criterion : list tensor -> batch Z -> Q)
      (regularizer : option (model -> Q)) (x : batch tensor) (t : batch Z)
      (loss_sum correct : Q) :
  unchanged groups
    (device <- first_parameter_device ;;
     let _ := to device x in
     let _ := to device t in
     zero_grad ;;
     output <- call_model forward bn_forward [] x ;;
     loss <- call_criterion criterion output t ;;
     loss <- match regularizer with
             | Some reg => m <- get_model ;; ret (loss + reg m)
             | None => ret loss
             end ;;
     backward autograd (fun m => criterion (forward m [] x) t
                                 + reg_value regularizer m) ;;
     optimizer_step update_rule next_state ;;
     let loss_sum := loss_sum + loss * inject_Z (size0 x) in
     pred <- lift (argmax_rows output) ;;
     n <- lift (eq_sum pred t) ;;
     let correct := correct + n in
     ret (loss_sum, correct)).
Proof.
  apply unchanged_bind; [apply unchanged_first_parameter_device|].
  intros d. cbv zeta. apply unchanged_bind; [apply groups_zero_grad|].
  intros _.
  apply (unchanged_tail forward bn_forward autograd update_rule next_state
                        groups criterion regularizer x t t [] (size0 x)).
  - apply groups_call_model.
  - intros output w. reflexivity.
  - apply groups_backward.
  - apply groups_optimizer_step.
Qed.

Lemma groups_train_body (criterion : list tensor -> batch Z -> Q)
      (regularizer : option (model -> Q)) (lr_schedule : option (Q -> Q))
      (num_iters : Z) (i : nat) (x : batch tensor) (t : batch Z)
      (acc : Q * Q) (w : world) :
  num_iters <> 0%Z ->
  groups (fst (train_body forward bn_forward autograd update_rule next_state
                          criterion regularizer lr_schedule num_iters
                          (i, (x, t)) acc w))
  = match lr_schedule with
    | Some schedule =>
        map (set_lr (schedule (inject_Z (Z.of_nat i) / inject_Z num_iters)))
            (groups w)
    | None => groups w
    end.
Proof.
  intro Hn. destruct acc as [loss_sum correct]. unfold train_body.
  rewrite bind_unchanged by (intro; apply groups_after_device).
  destruct lr_schedule as [schedule|]; [|reflexivity].
  unfold bind, lift. rewrite py_div_ok by exact Hn. reflexivity.
Qed.

Lemma groups_train_loop (criterion : list tensor -> batch Z -> Q)
      (regularizer : option (model -> Q)) (schedule : Q -> Q)
      (num_iters : Z) :
  num_iters <> 0%Z ->
  forall (bs : list (batch tensor * batch Z)) (k : nat) (acc acc' : Q * Q)
         (w w' : world),
    bs <> [] ->
    for_each (train_body forward bn_forward autograd update_rule next_state
                         criterion regularizer (Some schedule) num_iters)
             (mapi_from (fun i b => (i, b)) k bs) acc w
    = (w', Ok acc') ->
    groups w'
    = map (set_lr (schedule (inject_Z (Z.of_nat (k + length bs - 1))
                             / inject_Z num_iters)))
          (groups w).
Proof.
  intro Hn. induction bs as [|[x t] bs IH]; intros k acc acc' w w' Hb E;
    [congruence|].
  cbn [mapi_from] in E. rewrite for_each_cons in E. unfold bind in E.
  assert (G := groups_train_body criterion regularizer (Some schedule)
                                 num_iters k x t acc w Hn).
  destruct (train_body _ _ _ _ _ _ _ _ _ _ _ _) as [w1 [acc1|e]];
    [|discriminate].
  cbn [fst] in G. destruct bs as [|b bs'].
  - cbn [mapi_from for_each] in E. unfold ret in E. injection E as <- _.
    rewrite G. cbn [length]. now replace (k + 1 - 1)%nat with k by lia.
  - rewrite (IH (S k) acc1 acc' w1 w') by (trivial; discriminate).
    rewrite G, set_lr_twice. cbn [length].
    now replace (S k + S (length bs') - 1)%nat
      with (k + S (S (length bs')) - 1)%nat by lia.
Qed.

(** X21: without a schedule [train] never touches the parameter groups of
    the optimizer, whatever the loader and however it ends; with one, a
    pass over [n] batches ([n] not zero) that returns leaves in every group
    the rate of its last iteration, [schedule((n - 1) / n)], and nothing
    else of the groups changed. *)
Theorem train_leaves_last_rate
  (ld : loader) (criterion : list tensor -> batch Z -> Q)
  (regularizer : option (model -> Q)) (w : world) :
  groups (fst (train forward bn_forward autograd update_rule next_state
                     ld criterion regularizer None w))
  = groups w /\
  forall (schedule : Q -> Q) (w' : world) (r : metrics),
    batches ld <> [] ->
    train forward bn_forward autograd update_rule next_state
          ld criterion regularizer (Some schedule) w = (w', Ok r) ->
    groups w'
    = map (set_lr (schedule
                     (inject_Z (Z.of_nat (length (batches ld) - 1))
                      / inject_Z (Z.of_nat (length (batches ld))))))
          (groups w).
Proof.
  split; [|intros schedule w' r Hb E]; cycle 1.
  - unfold train in E. cbv zeta in E. unfold bind at 1 in E.
    change (model_train w) with (fst (model_train w), Ok tt) in E.
    cbv iota beta in E. unfold bind at 1 in E.
    unfold enumerate, mapi in E.
    destruct (for_each _ _ _ _) as [w1 [[ls c]|e]] eqn:El; [|discriminate].
    assert (Hn : Z.of_nat (length (batches ld)) <> 0%Z).
    { destruct (batches ld); [congruence|]. cbn [length]. lia. }
    apply (groups_train_loop criterion regularizer schedule _ Hn) in El;
      trivial.
    assert (Ew : w' = w1).
    { unfold bind, lift, ret in E.
      destruct (py_div ls _); [destruct (py_div (c * 100) _)|];
        now injection E. }
    rewrite Ew, El. reflexivity.
  - unfold train. cbv zeta. unfold bind at 1.
    change (model_train w) with (fst (model_train w), Ok tt). cbv iota beta.
    change (groups w) with (groups (fst (model_train w))).
    apply (unchanged_bind groups).
    + destruct (batches ld) as [|b bs].
      * apply unchanged_ret.
      * apply unchanged_for_each. intros [i [x t]] acc w2.
        apply groups_train_body with (lr_schedule := None).
        cbn [length]. lia.
    + intro acc. apply unchanged_averages.
Qed.

End LastRate.

Lemma train_leaves_last_rate_witness :
  exists w' r,
    batches Toy.four_batches <> [] /\
    train Toy.forward Toy.bn_forward Toy.autograd Toy.update_rule
          Toy.next_state Toy.four_batches Toy.criterion None
          (Some (fun i => (1#100) + i * (4#100)))
          (Toy.world_of (Toy.bn_model cpu)) = (w', Ok r) /\
    groups w'
    = map (set_lr ((1#100) + (inject_Z (Z.of_nat (4 - 1))
                              / inject_Z (Z.of_nat 4)) * (4#100)))
          (groups (Toy.world_of (Toy.bn_model cpu))).
Proof.
  destruct (train Toy.forward Toy.bn_forward Toy.autograd Toy.update_rule
                  Toy.next_state Toy.four_batches Toy.criterion None
                  (Some (fun i => (1#100) + i * (4#100)))
                  (Toy.world_of (Toy.bn_model cpu))) as [w' [r|e]] eqn:E.
  - exists w', r.
    assert (Hb : batches Toy.four_batches <> []) by discriminate.
    split; [exact Hb|]. split; [reflexivity|].
    exact (proj2 (train_leaves_last_rate
                    Toy.forward Toy.bn_forward Toy.autograd Toy.update_rule
                    Toy.next_state Toy.four_batches Toy.criterion None
                    (Toy.world_of (Toy.bn_model cpu)))
                 (fun i => (1#100) + i * (4#100)) w' r Hb E).
  - vm_compute in E. discriminate E.
Defined.

(** ** The range of the accuracy *)

Lemma correct_count_range (output : list tensor) (labels : list Z) :
  (0 <= correct_count output labels <= Z.of_nat (length labels))%Z.
Proof.
  revert labels. induction output as [|row output IH]; intros [|y ys];
    cbn [correct_count length]; try lia.
  specialize (IH ys). destruct (predicted_class row =? y)%Z; lia.
Qed.

Lemma correct_total_range
      (forward : model -> kwargs -> batch tensor -> list tensor)
      (kw : kwargs) (ms : list model) (bs : list (batch tensor * batch Z)) :
  (0 <= correct_total forward kw ms bs <= targets_total bs)%Z.
Proof.
  revert ms. induction bs as [|[x t] bs IH]; intros [|m ms];
    cbn [correct_total targets_total fold_right snd]; try lia.
  - fold (targets_total bs). specialize (IH []).
    generalize (size0_nonneg t). destruct bs; cbn in *; lia.
  - fold (targets_total bs). specialize (IH ms).
    generalize (correct_count_range (forward m kw x) (items t)).
    unfold size0. lia.
Qed.

Section Accuracy.

Variable forward : model -> kwargs -> batch tensor -> list tensor.
Variable bn_forward : model -> kwargs -> batch tensor -> nat -> stats.
Variable autograd : (model -> Q) -> model -> nat -> tensor.
Variable update_rule : optimizer -> nat -> parameter -> tensor.
Variable next_state : optimizer -> list parameter -> list tensor.

(** X22: when [train] returns (a non-empty loader, a model with a
    parameter, well-shaped scores) over a dataset of positive size [N], the
    accuracy is never negative, and it is at most 100 as long as the loader
    yields no more than [N] targets. *)
Theorem train_accuracy_range
  (ld : loader) (criterion : list tensor -> batch Z -> Q)
  (regularizer : option (model -> Q)) (lr_schedule : option (Q -> Q))
  (w : world) :
  batches ld <> [] ->
  parameters (the_model w) <> [] ->
  well_shaped forward [] (batches ld) ->
  (0 < dataset_len ld)%Z ->
  exists w' loss accuracy,
    train forward bn_forward autograd update_rule next_state
          ld criterion regularizer lr_schedule w
    = (w', Ok [("loss"%string, loss); ("accuracy"%string, accuracy)]) /\
    0 <= accuracy /\
    ((targets_total (batches ld) <= dataset_len ld)%Z -> accuracy <= 100).
Proof.
  intros Hb Hp Hs HN. unfold train. cbv zeta.
  assert (E0 : exists w0, model_train w = (w0, Ok tt) /\
                          parameters (the_model w0) <> []).
  { eexists. split; [reflexivity|exact Hp]. }
  destruct E0 as (w0 & E0 & P0). rewrite (bind_ok _ _ _ _ _ E0).
  assert (Hn : Z.of_nat (length (batches ld)) <> 0%Z).
  { destruct (batches ld); [congruence|]. cbn [length]. lia. }
  destruct (train_loop_ok forward bn_forward autograd update_rule next_state
              criterion regularizer lr_schedule _ Hn
              (batches ld) 0 0 0 w0 P0 Hs)
    as (w' & ms & ls & c & E & _ & _ & _ & C).
  unfold enumerate, mapi. rewrite (bind_ok _ _ _ _ _ E).
  unfold bind, lift, ret. rewrite !py_div_ok by lia.
  exists w'. eexists. eexists. split; [reflexivity|].
  destruct (correct_total_range forward [] ms (batches ld)) as [C0 C1].
  assert (Np : 0 < inject_Z (dataset_len ld))
    by (change 0 with (inject_Z 0); rewrite <- Zlt_Qlt; exact HN).
  assert (Cq : 0 <= inject_Z (correct_total forward [] ms (batches ld)))
    by (change 0 with (inject_Z 0); rewrite <- Zle_Qle; exact C0).
  rewrite C, Qplus_0_l. split.
  - apply Qle_shift_div_l; trivial. lra.
  - intro T. apply Qle_shift_div_r; trivial.
    assert (Cn : inject_Z (correct_total forward [] ms (batches ld))
                 <= inject_Z (dataset_len ld))
      by (rewrite <- Zle_Qle; lia).
    lra.
Qed.

End Accuracy.

Lemma train_accuracy_range_witness :
  batches Toy.four_batches <> [] /\
  parameters (Toy.bn_model cpu) <> [] /\
  well_shaped Toy.forward [] (batches Toy.four_batches) /\
  (0 < dataset_len Toy.four_batches)%Z /\
  (targets_total (batches Toy.four_batches)
   <= dataset_len Toy.four_batches)%Z /\
  exists w' loss accuracy,
    train Toy.forward Toy.bn_forward Toy.autograd Toy.update_rule
          Toy.next_state Toy.four_batches Toy.criterion None None
          (Toy.world_of (Toy.bn_model cpu))
    = (w', Ok [("loss"%string, loss); ("accuracy"%string, accuracy)]) /\
    0 <= accuracy /\ accuracy <= 100.
Proof.
  assert (Hb : batches Toy.four_batches <> []) by discriminate.
  assert (Hp : parameters (Toy.bn_model cpu) <> []) by discriminate.
  assert (Hs : well_shaped Toy.forward [] (batches Toy.four_batches))
    by (apply toy_well_shaped; repeat constructor; discriminate).
  assert (HN : (0 < dataset_len Toy.four_batches)%Z) by reflexivity.
  assert (HT : (targets_total (batches Toy.four_batches)
                <= dataset_len Toy.four_batches)%Z) by discriminate.
  split; [exact Hb|]. split; [exact Hp|]. split; [exact Hs|].
  split; [exact HN|]. split; [exact HT|].
  destruct (train_accuracy_range
              Toy.forward Toy.bn_forward Toy.autograd Toy.update_rule
              Toy.next_state Toy.four_batches Toy.criterion None None
              (Toy.world_of (Toy.bn_model cpu)) Hb Hp Hs HN)
    as (w' & loss & accuracy & E & A0 & A1).
  exists w', loss, accuracy. split; [exact E|]. split; [exact A0|].
  exact (A1 HT).
Defined.

(** ** Checkpoints *)

Lemma append_cancel_l (p a b : string) :
  (p ++ a)%string = (p ++ b)%string -> a = b.
Proof.
  induction p as [|c p IH]; cbn; intro H; trivial.
  injection H as H. now apply IH.
Qed.

Lemma append_length (a b : string) :
  String.length (a ++ b) = (String.length a + String.length b)%nat.
Proof. induction a as [|c a IH]; cbn; [reflexivity|now rewrite IH]. Qed.

Lemma append_cancel_r (s a b : string) :
  (a ++ s)%string = (b ++ s)%string -> a = b.
Proof.
  revert b. induction a as [|c a IH]; intros [|c' b] H; cbn in H; trivial.
  - exfalso. apply (f_equal String.length) in H. cbn in H.
    rewrite append_length in H. lia.
  - exfalso. apply (f_equal String.length) in H. cbn in H.
    rewrite append_length in H. lia.
  - injection H as -> H. f_equal. now apply IH.
Qed.

Lemma string_of_Z_inj (a b : Z) :
  NilEmpty.string_of_int (Z.to_int a) = NilEmpty.string_of_int (Z.to_int b) ->
  a = b.
Proof.
  intro H. apply (f_equal NilEmpty.int_of_string) in H.
  rewrite !NilEmpty.isi in H. injection H as H.
  now apply DecimalZ.to_int_inj.
Qed.

Lemma checkpoint_name_inj (name : string) (e1 e2 : Z) :
  checkpoint_name name e1 = checkpoint_name name e2 -> e1 = e2.
Proof.
  unfold checkpoint_name. intro H. apply append_cancel_l in H.
  cbn in H. injection H as H. apply append_cancel_r in H.
  now apply string_of_Z_inj.
Qed.

Lemma checkpoint_name_sep (name : string) (e1 e2 : Z) :
  startswith_sep (checkpoint_name name e1)
  = startswith_sep (checkpoint_name name e2).
Proof. unfold checkpoint_name. now destruct name. Qed.

Lemma checkpoint_path_inj (dir name : string) (e1 e2 : Z) :
  path_join dir (checkpoint_name name e1)
  = path_join dir (checkpoint_name name e2) ->
  e1 = e2.
Proof.
  unfold path_join. rewrite (checkpoint_name_sep name e1 e2).
  destruct (startswith_sep (checkpoint_name name e2)).
  - apply checkpoint_name_inj.
  - destruct (_ || _); intro H; apply append_cancel_l in H.
    + now apply checkpoint_name_inj in H.
    + apply (append_cancel_l "/") in H. now apply checkpoint_name_inj in H.
Qed.

Lemma saved_at_save_same (obj : state) (path : string) (fs : files) :
  saved_at path (torch_save obj path fs) = Some obj.
Proof.
  induction fs as [|[p o] fs IH]; cbn.
  - now rewrite String.eqb_refl.
  - destruct (String.eqb p path) eqn:E; cbn.
    + now rewrite String.eqb_refl.
    + now rewrite E.
Qed.

Lemma saved_at_save_other (obj : state) (path path' : string) (fs : files) :
  path' <> path ->
  saved_at path' (torch_save obj path fs) = saved_at path' fs.
Proof.
  intro N. induction fs as [|[p o] fs IH]; cbn.
  - destruct (String.eqb_spec path path'); [congruence|reflexivity].
  - destruct (String.eqb_spec p path) as [->|Np]; cbn.
    + destruct (String.eqb_spec path path'); [congruence|reflexivity].
    + now rewrite IH.
Qed.

(** X23: checkpoints of different epochs never overwrite each other: after
    saving epoch [e1] and then a different epoch [e2] under the same
    directory and name, both files hold what was saved, and every other
    file is as it was; saving the same epoch again replaces the file. *)
Theorem save_checkpoint_keeps_epochs_apart
  (dir name : string) (e1 e2 : Z) (kwargs1 kwargs2 : state) (fs : files) :
  e1 <> e2 ->
  let path e := path_join dir (checkpoint_name name e) in
  let content e kwargs :=
    state_update [("epoch"%string, IntValue e)] kwargs in
  let fs' := save_checkpoint dir e2 name kwargs2
               (save_checkpoint dir e1 name kwargs1 fs) in
  saved_at (path e1) fs' = Some (content e1 kwargs1) /\
  saved_at (path e2) fs' = Some (content e2 kwargs2) /\
  (forall p, p <> path e1 -> p <> path e2 -> saved_at p fs' = saved_at p fs) /\
  saved_at (path e1) (save_checkpoint dir e1 name kwargs2
                        (save_checkpoint dir e1 name kwargs1 fs))
  = Some (content e1 kwargs2).
Proof.
  intros Ne path content fs'. unfold fs', save_checkpoint. cbv zeta.
  fold (path e1). fold (path e2). fold (content e1 kwargs1).
  fold (content e2 kwargs2). fold (content e1 kwargs2).
  assert (Np : path e1 <> path e2).
  { intro E. apply Ne. now apply (checkpoint_path_inj dir name). }
  split; [|split; [|split]].
  - rewrite saved_at_save_other by exact Np. apply saved_at_save_same.
  - apply saved_at_save_same.
  - intros p N1 N2. now rewrite !saved_at_save_other.
  - apply saved_at_save_same.
Qed.

Lemma save_checkpoint_keeps_epochs_apart_witness :
  3%Z <> 4%Z /\
  saved_at "runs/checkpoint-3.pt"
           (save_checkpoint "runs" 4 "checkpoint" []
              (save_checkpoint "runs" 3 "checkpoint"
                 [("model_state"%string, StateValue [[1; 2]])] []))
  = Some [("epoch"%string, IntValue 3);
          ("model_state"%string, StateValue [[1; 2]])].
Proof.
  assert (N : 3%Z <> 4%Z) by discriminate.
  split; [exact N|].
  exact (proj1 (save_checkpoint_keeps_epochs_apart
                  "runs" "checkpoint" 3 4
                  [("model_state"%string, StateValue [[1; 2]])] [] [] N)).
Defined.

Lemma state_get_set_same (d : state) (k : string) (v : value) :
  state_get (state_set d k v) k = Some v.
Proof.
  induction d as [|[k' v'] d IH]; cbn.
  - now rewrite String.eqb_refl.
  - destruct (String.eqb k' k) eqn:E; cbn.
    + now rewrite String.eqb_refl.
    + now rewrite E.
Qed.

Lemma state_get_set_other (d : state) (k k' : string) (v : value) :
  k' <> k -> state_get (state_set d k v) k' = state_get d k'.
Proof.
  intro N. induction d as [|[k0 v0] d IH]; cbn.
  - destruct (String.eqb_spec k k'); [congruence|reflexivity].
  - destruct (String.eqb_spec k0 k) as [->|N0]; cbn.
    + destruct (String.eqb_spec k k'); [congruence|reflexivity].
    + now rewrite IH.
Qed.

Lemma state_set_keys_new (d : state) (k : string) (v : value) :
  ~ In k (map fst d) -> map fst (state_set d k v) = map fst d ++ [k].
Proof.
  induction d as [|[k' v'] d IH]; cbn; intro N; trivial.
  destruct (String.eqb_spec k' k) as [->|_]; [tauto|].
  cbn. rewrite IH; tauto.
Qed.

Lemma state_update_spec (kwargs : state) :
  NoDup (map fst kwargs) ->
  forall d : state,
    (forall k, In k (map fst kwargs) -> ~ In k (map fst d)) ->
    map fst (state_update d kwargs) = map fst d ++ map fst kwargs /\
    (forall k, ~ In k (map fst kwargs) ->
               state_get (state_update d kwargs) k = state_get d k) /\
    (forall k v, In (k, v) kwargs ->
                 state_get (state_update d kwargs) k = Some v).
Proof.
  unfold state_update.
  induction kwargs as [|[k v] kwargs IH]; intros ND d Fresh; cbn.
  - rewrite app_nil_r. repeat split; tauto.
  - cbn in ND. inversion ND as [|? ? Nk ND']; subst.
    destruct (IH ND' (state_set d k v)) as (K & Old & New).
    { intros k' Hk' Hin.
      rewrite state_set_keys_new in Hin by (apply Fresh; now left).
      apply in_app_or in Hin. destruct Hin as [Hin|[<-|[]]].
      - apply (Fresh k'); [now right|exact Hin].
      - contradiction. }
    split; [|split].
    + rewrite K, state_set_keys_new by (apply Fresh; now left).
      now rewrite <- app_assoc.
    + intros k' Nk'. rewrite Old by (intro; apply Nk'; now right).
      apply state_get_set_other. intros ->. apply Nk'. now left.
    + intros k' v' [E|Hin].
      * injection E as <- <-. rewrite Old by exact Nk.
        apply state_get_set_same.
      * now apply New.
Qed.

(** X24: the object [save_checkpoint] writes holds the epoch under
    ["epoch"] and every keyword argument under its own key, in that order
    and nothing else (keyword arguments have distinct keys, none of them
    ["epoch"]). *)
Theorem save_checkpoint_content
  (dir name : string) (epoch : Z) (kwargs : state) (fs : files) :
  NoDup (map fst kwargs) ->
  ~ In "epoch"%string (map fst kwargs) ->
  exists st,
    saved_at (path_join dir (checkpoint_name name epoch))
             (save_checkpoint dir epoch name kwargs fs) = Some st /\
    map fst st = "epoch"%string :: map fst kwargs /\
    state_get st "epoch" = Some (IntValue epoch) /\
    (forall k v, In (k, v) kwargs -> state_get st k = Some v).
Proof.
  intros ND Ne. unfold save_checkpoint. cbv zeta.
  eexists. split; [apply saved_at_save_same|].
  destruct (state_update_spec kwargs ND [("epoch"%string, IntValue epoch)])
    as (K & Old & New).
  { intros k Hk [<-|[]]. contradiction. }
  split; [exact K|]. split; [|exact New].
  rewrite Old by exact Ne. reflexivity.
Qed.

Lemma save_checkpoint_content_witness :
  let kwargs := [("model_state"%string, StateValue [[1; 2]]);
                 ("optimizer_state"%string, StateValue [])] in
  NoDup (map fst kwargs) /\
  ~ In "epoch"%string (map fst kwargs) /\
  exists st,
    saved_at (path_join "runs/" (checkpoint_name "checkpoint" 12))
             (save_checkpoint "runs/" 12 "checkpoint" kwargs []) = Some st /\
    state_get st "epoch" = Some (IntValue 12).
Proof.
  intro kwargs.
  assert (ND : NoDup (map fst kwargs)).
  { cbn. constructor; [cbn; intros [H|[]]; discriminate H|].
    constructor; [cbn; tauto|]. constructor. }
  assert (Ne : ~ In "epoch"%string (map fst kwargs)).
  { cbn. intros [H|[H|[]]]; discriminate H. }
  split; [exact ND|]. split; [exact Ne|].
  destruct (save_checkpoint_content "runs/" "checkpoint" 12 kwargs [] ND Ne)
    as (st & E & _ & G & _).
  exists st. split; [exact E|exact G].
Defined.

(** The paths of the checkpoints, on examples. *)
Example checkpoint_paths :
  path_join "runs" (checkpoint_name "checkpoint" 12) = "runs/checkpoint-12.pt"%string /\
  path_join "runs/" (checkpoint_name "fge" 0) = "runs/fge-0.pt"%string /\
  path_join "" (checkpoint_name "checkpoint" (-1)) = "checkpoint--1.pt"%string /\
  path_join "runs" (checkpoint_name "/tmp/x" 3) = "/tmp/x-3.pt"%string.
Proof. vm_compute. repeat split. Qed.

(** ** [new_train] against [train] *)

Lemma for_each_ext_inv {A S : Type} (P : world -> Prop)
      (body body' : A -> S -> M S) (xs : list A) :
  (forall x s w, In x xs -> P w -> body x s w = body' x s w) ->
  (forall x s w, In x xs -> P w -> P (fst (body' x s w))) ->
  forall s w, P w -> for_each body xs s w = for_each body' xs s w.
Proof.
  induction xs as [|x xs IH]; intros He Hp s w Hw; cbn [for_each]; trivial.
  unfold bind. rewrite (He x s w) by (trivial; now left).
  assert (Hw' := Hp x s w (or_introl eq_refl) Hw).
  destruct (body' x s w) as [w1 [s1|e]]; trivial. cbn [fst] in Hw'.
  apply IH; trivial.
  - intros y s' w' Hy. apply He. now right.
  - intros y s' w' Hy. apply Hp. now right.
Qed.

Lemma owns_set_lr (v : Q) (gs : list param_group) (st st' : list tensor)
      (k : nat) :
  owns {| param_groups := map (set_lr v) gs; opt_state := st |} k
  = owns {| param_groups := gs; opt_state := st' |} k.
Proof.
  unfold owns. cbn. induction gs as [|g gs IH]; cbn; trivial.
  now rewrite IH.
Qed.

Lemma mapi_from_ext {A B : Type} (f g : nat -> A -> B) (l : list A) :
  (forall k x, f k x = g k x) -> forall k, mapi_from f k l = mapi_from g k l.
Proof.
  intro H. induction l as [|x l IH]; intro k; cbn; trivial.
  now rewrite H, IH.
Qed.

Lemma surjective_optimizer (o : optimizer) :
  o = {| param_groups := param_groups o; opt_state := opt_state o |}.
Proof. now destruct o. Qed.

Lemma zero_grad_adjust_commute (v : Q) (w : world) :
  fst (adjust_learning_rate v (fst (zero_grad w)))
  = fst (zero_grad (fst (adjust_learning_rate v w))).
Proof.
  unfold adjust_learning_rate, zero_grad, bind, get_optimizer, get_model,
    put_model, put_optimizer, ret.
  cbn [fst the_model the_optimizer calls parameters modules set_parameters].
  f_equal. f_equal. unfold mapi. apply mapi_from_ext. intros k p.
  now rewrite (owns_set_lr v (param_groups (the_optimizer w))
                           (opt_state (the_optimizer w))
                           (opt_state (the_optimizer w)) k),
    <- (surjective_optimizer (the_optimizer w)).
Qed.

Section Siblings.

Variable forward : model -> kwargs -> batch tensor -> list tensor.
Variable bn_forward : model -> kwargs -> batch tensor -> nat -> stats.
Variable autograd : (model -> Q) -> model -> nat -> tensor.
Variable update_rule : optimizer -> nat -> parameter -> tensor.
Variable next_state : optimizer -> list parameter -> list tensor.

Lemma new_train_prefix {B : Type} (s : Q -> Q) (q : Q) (K : M B)
      (w : world) :
  (zero_grad ;; (x <- lift (Ok q) ;; adjust_learning_rate (s x)) ;; K) w
  = K (fst (adjust_learning_rate (s q) (fst (zero_grad w)))).
Proof. reflexivity. Qed.

Lemma train_prefix {B : Type} (s : Q -> Q) (q : Q) (K : M B) (w : world) :
  parameters (the_model w) <> [] ->
  ((x <- lift (Ok q) ;; adjust_learning_rate (s x)) ;;
   device <- first_parameter_device ;; zero_grad ;; K) w
  = K (fst (zero_grad (fst (adjust_learning_rate (s q) w)))).
Proof.
  intro Hp. unfold bind at 1. unfold bind at 1, lift.
  change (adjust_learning_rate (s q) w)
    with (fst (adjust_learning_rate (s q) w), Ok (s q)).
  cbv iota beta. unfold bind at 1, first_parameter_device, bind at 1,
    get_model.
  change (parameters (the_model (fst (adjust_learning_rate (s q) w))))
    with (parameters (the_model w)).
  destruct (parameters (the_model w)) as [|p ps] eqn:Ep; [congruence|].
  reflexivity.
Qed.

Lemma train_prefix_none {B : Type} (K : M B) (w : world) :
  parameters (the_model w) <> [] ->
  (ret 0 ;; device <- first_parameter_device ;; zero_grad ;; K) w
  = (zero_grad ;; ret 0 ;; K) w.
Proof.
  intro Hp. unfold bind at 1, ret at 1.
  unfold bind at 1, first_parameter_device, bind at 1, get_model.
  destruct (parameters (the_model w)) as [|p ps] eqn:Ep; [congruence|].
  reflexivity.
Qed.

Lemma new_train_body_is_train_body
      (criterion : list tensor -> batch Z -> Q)
      (regularizer : option (model -> Q)) (lr_schedule : option (Q -> Q))
      (num_iters : Z) (d : device) (i : nat) (x : batch tensor) (t : batch Z)
      (acc : Q * Q) (w : world) :
  num_iters <> 0%Z ->
  parameters (the_model w) <> [] ->
  on x = d -> on t = d -> size0 t = size0 x ->
  new_train_body forward bn_forward autograd update_rule next_state
                 criterion regularizer lr_schedule num_iters d
                 (i, (x, t)) acc w
  = train_body forward bn_forward autograd update_rule next_state
               criterion regularizer lr_schedule num_iters
               (i, (x, t)) acc w.
Proof.
  intros Hn Hp Hx Ht Hs. destruct acc as [loss_sum correct].
  unfold new_train_body, train_body.
  rewrite (to_same d x Hx), (to_same d t Ht), Hs. cbv zeta.
  destruct lr_schedule as [schedule|].
  - rewrite py_div_ok by exact Hn.
    rewrite new_train_prefix, (train_prefix schedule) by exact Hp.
    now rewrite zero_grad_adjust_commute.
  - now rewrite train_prefix_none by exact Hp.
Qed.

(** X25: on a model with a parameter, a loader that already yields its
    tensors on the device of the first parameter, with as many labels as
    samples in every batch, [new_train] does exactly what [train] does: the
    same result and the same world. *)
Theorem new_train_is_train_on_device
  (ld : loader) (criterion : list tensor -> batch Z -> Q)
  (regularizer : option (model -> Q)) (lr_schedule : option (Q -> Q))
  (w : world) (p : parameter) (ps : list parameter) :
  parameters (the_model w) = p :: ps ->
  loader_on (p_device p) ld ->
  Forall (fun xy => size0 (snd xy) = size0 (fst xy)) (batches ld) ->
  new_train forward bn_forward autograd update_rule next_state
            ld criterion regularizer lr_schedule w
  = train forward bn_forward autograd update_rule next_state
          ld criterion regularizer lr_schedule w.
Proof.
  intros Ep Hl Hs. unfold new_train, train. cbv zeta.
  unfold bind at 1, first_parameter_device, bind at 1, get_model.
  rewrite Ep. unfold ret at 1.
  unfold bind at 1 5.
  change (model_train w) with (fst (model_train w), Ok tt). cbv iota beta.
  unfold bind at 1 4.
  rewrite (for_each_ext_inv
             (fun w => parameters (the_model w) <> [])
             (new_train_body forward bn_forward autograd update_rule
                             next_state criterion regularizer lr_schedule
                             (Z.of_nat (length (batches ld))) (p_device p))
             (train_body forward bn_forward autograd update_rule next_state
                         criterion regularizer lr_schedule
                         (Z.of_nat (length (batches ld))))).
  - reflexivity.
  - intros [i [x t]] acc w' Hin Hp. apply in_mapi_from in Hin.
    unfold loader_on in Hl. rewrite Forall_forall in Hl, Hs.
    destruct (Hl (x, t) Hin) as [Hx Ht]. specialize (Hs (x, t) Hin).
    cbn [fst snd] in *.
    apply new_train_body_is_train_body; trivial.
    destruct (batches ld); [contradiction|]. cbn [length]. lia.
  - intros ib acc w' _ Hp.
    assert (S := structure_train_body forward bn_forward autograd update_rule
                   next_state criterion regularizer lr_schedule
                   (Z.of_nat (length (batches ld))) ib acc w').
    unfold structure in S. injection S as _ _ _ Sd _.
    intro E. rewrite E in Sd. cbn in Sd.
    destruct (parameters (the_model w')); [congruence|discriminate].
  - cbn. now rewrite Ep.
Qed.

End Siblings.

Lemma new_train_is_train_on_device_witness :
  parameters (the_model (Toy.world_of (Toy.bn_model cpu)))
  = [Toy.parameter_on cpu] /\
  loader_on cpu Toy.four_batches /\
  Forall (fun xy => size0 (snd xy) = size0 (fst xy))
         (batches Toy.four_batches) /\
  new_train Toy.forward Toy.bn_forward Toy.autograd Toy.update_rule
            Toy.next_state Toy.four_batches Toy.criterion None
            (Some (fun i => (1#100) + i * (4#100)))
            (Toy.world_of (Toy.bn_model cpu))
  = train Toy.forward Toy.bn_forward Toy.autograd Toy.update_rule
          Toy.next_state Toy.four_batches Toy.criterion None
          (Some (fun i => (1#100) + i * (4#100)))
          (Toy.world_of (Toy.bn_model cpu)).
Proof.
  assert (Hl : loader_on cpu Toy.four_batches) by (repeat constructor).
  assert (Hs : Forall (fun xy => size0 (snd xy) = size0 (fst xy))
                      (batches Toy.four_batches)) by (repeat constructor).
  split; [reflexivity|]. split; [exact Hl|]. split; [exact Hs|].
  exact (new_train_is_train_on_device
           Toy.forward Toy.bn_forward Toy.autograd Toy.update_rule
           Toy.next_state Toy.four_batches Toy.criterion None
           (Some (fun i => (1#100) + i * (4#100)))
           (Toy.world_of (Toy.bn_model cpu)) (Toy.parameter_on cpu) []
           eq_refl Hl Hs).
Defined.
